(** * The inference-and-reasoning pipeline: a shallow embedding

    The development follows the source files that carry the logic of the
    pipeline:

    - [reasoning_agent.py]: fence stripping, JSON decoding with its fallback,
      and the two normalizers ([Module Agent]); its command line
      ([Module Cli]);
    - [build_dataset.py]: [keypoints_to_vector] ([Module Dataset]) and the
      script that builds the dataset ([Module Builder]);
    - [full_pipeline.py]: [classify_video] and [main] ([Module Pipeline]);
    - [test_new_actions.py]: the script that votes with a [Counter]
      ([Module Tester]).

    The scripts that extract frames and poses, train the classifier and
    draw figures work through OpenCV, OpenPifPaf, scikit-learn and
    matplotlib, and are left out.

    Python values are dynamically typed, so the embedding keeps them in one
    inductive type [pyval]; an exception is a [Raise] in the [result] type and
    the statement that a function never fails is a theorem that it returns
    [Ok].
    A Python [str] is a sequence of code points ([list N]); [lit] reads an
    ASCII literal.

    The interpreter and the machine are finite, and the code meets their
    limits: [json.loads] raises [ValueError] on an integer literal that is
    too long and [RecursionError] on text that is nested too deep, as
    CPython 3.11 counts digits and calls; NumPy rounds every value of a
    [float32] array, raises [OverflowError] on an integer beyond the range
    of a float, and refuses arrays that are too large.  The limits are the
    record [limits], a parameter of every function that can meet one; the
    floating-point values are the [spec_float]s of the Standard Library.

    The first part of the file is the embedding; the second part states and
    proves its properties, one module of facts for each module of
    definitions. *)

From Stdlib Require Import Ascii String DecimalString.
From Stdlib Require Import List ZArith NArith Lia Bool Permutation Sorted.
From Stdlib Require Import SpecFloat.
Import ListNotations.

(* ================================================================= *)
(** ** Python values, strings, dictionaries and exceptions *)

Module Py.

(** A [str] is a sequence of Unicode code points. *)
Definition str := list N.

Definition lit (s : string) : str := map N_of_ascii (list_ascii_of_string s).

(** A literal in which the apostrophe stands for the double quote (code
    point 34), to write JSON texts down. *)
Definition dq (s : string) : str :=
  map (fun c => if (c =? 39)%N then 34%N else c) (lit s).

Fixpoint str_eqb (a b : str) : bool :=
  match a, b with
  | [], [] => true
  | x :: a', y :: b' => (x =? y)%N && str_eqb a' b'
  | _, _ => false
  end.

(** [str.startswith]. *)
Fixpoint startswith (prefix s : str) : bool :=
  match prefix, s with
  | [], _ => true
  | p :: prefix', c :: s' => (p =? c)%N && startswith prefix' s'
  | _ :: _, [] => false
  end.

(** [str.endswith]. *)
Definition endswith (suffix s : str) : bool :=
  startswith (rev suffix) (rev s).

(** The code points for which [str.isspace] holds; [str.strip()] removes
    them from both ends. *)
Definition isspace (c : N) : bool :=
  ((9 <=? c) && (c <=? 13) || (28 <=? c) && (c <=? 32) || (c =? 133)
   || (c =? 160) || (c =? 5760) || (8192 <=? c) && (c <=? 8202)
   || (c =? 8232) || (c =? 8233) || (c =? 8239) || (c =? 8287)
   || (c =? 12288))%N.

Fixpoint lstrip_by (p : N -> bool) (s : str) : str :=
  match s with
  | c :: s' => if p c then lstrip_by p s' else s
  | [] => []
  end.

Definition strip_by (p : N -> bool) (s : str) : str :=
  rev (lstrip_by p (rev (lstrip_by p s))).

(** [s.strip()] *)
Definition strip (s : str) : str := strip_by isspace s.

(** [s.strip(chars)] *)
Definition strip_chars (chars : str) (s : str) : str :=
  strip_by (fun c => existsb (N.eqb c) chars) s.

(** [s.lower()], on the letters A to Z.  The source only tests the result
    against the ASCII prefix [json]; no other code point has a lower-case
    form that starts with one of these four letters. *)
Definition lower (s : str) : str :=
  map (fun c => if ((65 <=? c) && (c <=? 90))%N then (c + 32)%N else c) s.

(** [sep.join(parts)] *)
Fixpoint join (sep : str) (parts : list str) : str :=
  match parts with
  | [] => []
  | [p] => p
  | p :: rest => p ++ sep ++ join sep rest
  end.

(** Exceptions that the modelled code can meet. *)
Inductive exn : Set :=
| JSONDecodeError | KeyError | TypeError | ValueError | IndexError
| OSError | APIError | RecursionError | OverflowError | MemoryError.

(** The limits of the interpreter and of the machine that the modelled
    code can reach.

    - [int_max_str_digits] is [sys.get_int_max_str_digits()]: the longest
      decimal text that [int] converts (4300 unless it is configured; 0
      lifts the limit, and no other value below 640 can be set);
    - [recursion_headroom] is the number of nested calls that the recursion
      limit of the interpreter still allows where [json.loads], called by
      the agent, starts to scan the text, beyond the three that it takes to
      build a [JSONDecodeError]: an interpreter that runs the agent has
      these three;
    - [array_capacity] is the largest number of [float32] entries of an
      array that the machine allocates. *)
Record limits : Set := {
  int_max_str_digits : nat;
  recursion_headroom : nat;
  array_capacity : N
}.

(** An interpreter for examples: CPython 3.11 as it starts (integers of up
    to 4300 digits; a recursion limit of 1000, which leaves 993 calls where
    [main] has called the agent and the agent [json.loads], three of them
    counted apart), on a machine that allocates arrays of up to 2^32
    entries. *)
Definition cpython : limits :=
  {| int_max_str_digits := 4300;
     recursion_headroom := 990;
     array_capacity := 2 ^ 32 |}.

Inductive result (A : Type) : Type :=
| Ok (a : A)
| Raise (e : exn).
Arguments Ok {A} a.
Arguments Raise {A} e.

Definition bind {A B} (m : result A) (k : A -> result B) : result B :=
  match m with
  | Ok a => k a
  | Raise e => Raise e
  end.

(** Python objects as the decoder builds them.  A float is kept as the
    literal it was read from ([float(lit)]); a [dict] keeps insertion order. *)
#[local] Unset Elimination Schemes.
Inductive pyval : Type :=
| PNone
| PBool (b : bool)
| PInt (z : Z)
| PFloat (literal : str)
| PStr (s : str)
| PList (items : list pyval)
| PDict (entries : list (str * pyval)).
#[local] Set Elimination Schemes.

Definition dict := list (str * pyval).

(** [d.get(k)]: the entry under [k], if any. *)
Fixpoint dict_get (d : dict) (k : str) : option pyval :=
  match d with
  | [] => None
  | (k', v) :: d' => if str_eqb k' k then Some v else dict_get d' k
  end.

(** [d[k] = v]: an existing key keeps its place, a new one goes last. *)
Fixpoint dict_set (d : dict) (k : str) (v : pyval) : dict :=
  match d with
  | [] => [(k, v)]
  | (k', v') :: d' =>
      if str_eqb k' k then (k', v) :: d' else (k', v') :: dict_set d' k v
  end.

(** [d.get(k, default)] *)
Definition get_or (d : dict) (k : str) (default : pyval) : pyval :=
  match dict_get d k with
  | Some v => v
  | None => default
  end.

(** [d[k]] *)
Definition getitem (d : dict) (k : str) : result pyval :=
  match dict_get d k with
  | Some v => Ok v
  | None => Raise KeyError
  end.

(** [x[k]] on an arbitrary object that is expected to be a dict. *)
Definition subscript (x : pyval) (k : str) : result pyval :=
  match x with
  | PDict d => getitem d k
  | _ => Raise TypeError
  end.

(** [x[k] = v] on an arbitrary object that is expected to be a dict. *)
Definition store (x : pyval) (k : str) (v : pyval) : result pyval :=
  match x with
  | PDict d => Ok (PDict (dict_set d k v))
  | _ => Raise TypeError
  end.

(** [len(x)] *)
Definition len (x : pyval) : result nat :=
  match x with
  | PList l => Ok (length l)
  | PStr s => Ok (length s)
  | PDict d => Ok (length d)
  | _ => Raise TypeError
  end.

(** [x + y] for two lists or two strings, the operands the modelled code
    adds; no other pair of types is computed here. *)
Definition add (x y : pyval) : result pyval :=
  match x, y with
  | PList a, PList b => Ok (PList (a ++ b))
  | PStr a, PStr b => Ok (PStr (a ++ b))
  | _, _ => Raise TypeError
  end.

(** [x[:n]] for a list or a string and [n >= 0]. *)
Definition upto (x : pyval) (n : nat) : result pyval :=
  match x with
  | PList l => Ok (PList (firstn n l))
  | PStr s => Ok (PStr (firstn n s))
  | _ => Raise TypeError
  end.

(** Truth value of an object, as [if x:] tests it. *)
Definition truthy (x : pyval) : bool :=
  match x with
  | PNone => false
  | PBool b => b
  | PInt z => negb (z =? 0)%Z
  | PFloat _ => true
  | PStr s => negb (length s =? 0)
  | PList l => negb (length l =? 0)
  | PDict d => negb (length d =? 0)
  end.

(** A list of strings as a Python list. *)
Definition strs (l : list str) : pyval := PList (map PStr l).

(** [str(z)] for an [int]. *)
Definition str_of_int (z : Z) : str := lit (NilZero.string_of_int (Z.to_int z)).

End Py.

Import Py.

Declare Scope py_scope.
Delimit Scope py_scope with py.
Notation "x <- m ;; k" := (bind m (fun x => k))
  (at level 61, m at next level, right associativity) : py_scope.
Local Open Scope py_scope.

(* ================================================================= *)
(** ** [json.loads]

    The decoder of the standard library: whitespace is space, tab, line feed
    and carriage return; strings are decoded in strict mode; [NaN],
    [Infinity] and [-Infinity] are accepted; a number with a fraction or an
    exponent is a float and any other an [int]; duplicate keys keep the last
    value.  A text that is not JSON is a [JSONDecodeError].  Two limits of
    the interpreter end the decoding with another exception at the place
    where they are met: an integer literal with more digits than [int]
    converts is a [ValueError], and a call beyond the recursion limit is a
    [RecursionError].  The scanner spends one call on each array and
    object that it enters, until it leaves it, and one on each of [NaN],
    [Infinity] and [-Infinity]; where it finds the text malformed it builds
    the [JSONDecodeError] on the spot, which takes three calls. *)

Module Json.

Definition is_ws (c : N) : bool :=
  ((c =? 32) || (c =? 9) || (c =? 10) || (c =? 13))%N.

Fixpoint skip_ws (s : str) : str :=
  match s with
  | c :: s' => if is_ws c then skip_ws s' else s
  | [] => []
  end.

Definition is_digit (c : N) : bool := ((48 <=? c) && (c <=? 57))%N.

Definition hex_val (c : N) : option N :=
  if is_digit c then Some (c - 48)%N
  else if ((97 <=? c) && (c <=? 102))%N then Some (c - 87)%N
  else if ((65 <=? c) && (c <=? 70))%N then Some (c - 55)%N
  else None.

Definition hex4 (a b c d : N) : option N :=
  match hex_val a, hex_val b, hex_val c, hex_val d with
  | Some x, Some y, Some z, Some w => Some (((x * 16 + y) * 16 + z) * 16 + w)%N
  | _, _, _, _ => None
  end.

(** The character a one-letter escape stands for. *)
Definition simple_escape (e : N) : option N :=
  if (e =? 34)%N then Some 34%N          (* quote *)
  else if (e =? 92)%N then Some 92%N     (* backslash *)
  else if (e =? 47)%N then Some 47%N     (* slash *)
  else if (e =? 98)%N then Some 8%N      (* b *)
  else if (e =? 102)%N then Some 12%N    (* f *)
  else if (e =? 110)%N then Some 10%N    (* n *)
  else if (e =? 114)%N then Some 13%N    (* r *)
  else if (e =? 116)%N then Some 9%N     (* t *)
  else None.

(** What a string body is made of: a character, or a four-digit escape,
    which may be half of a surrogate pair. *)
Inductive piece : Set :=
| Raw (c : N)
| Esc (c : N).

(** The body of a string, from after its opening quote to its closing one. *)
Fixpoint scan_pieces (s : str) : option (list piece * str) :=
  match s with
  | [] => None
  | c :: s1 =>
      if (c =? 34)%N then Some ([], s1)
      else if (c =? 92)%N then
        match s1 with
        | [] => None
        | e :: s2 =>
            if (e =? 117)%N then
              match s2 with
              | h1 :: h2 :: h3 :: h4 :: s3 =>
                  match hex4 h1 h2 h3 h4 with
                  | Some u =>
                      match scan_pieces s3 with
                      | Some (ps, r) => Some (Esc u :: ps, r)
                      | None => None
                      end
                  | None => None
                  end
              | _ => None
              end
            else
              match simple_escape e with
              | Some x =>
                  match scan_pieces s2 with
                  | Some (ps, r) => Some (Raw x :: ps, r)
                  | None => None
                  end
              | None => None
              end
        end
      else if (c <? 32)%N then None
      else
        match scan_pieces s1 with
        | Some (ps, r) => Some (Raw c :: ps, r)
        | None => None
        end
  end.

Definition is_high (c : N) : bool := ((55296 <=? c) && (c <=? 56319))%N.
Definition is_low (c : N) : bool := ((56320 <=? c) && (c <=? 57343))%N.

(** An escaped high surrogate directly followed by an escaped low one is
    one code point. *)
Fixpoint join_surrogates (ps : list piece) : str :=
  match ps with
  | [] => []
  | Raw c :: r => c :: join_surrogates r
  | Esc h :: r =>
      match r with
      | Esc l :: r' =>
          if is_high h && is_low l
          then (65536 + (h - 55296) * 1024 + (l - 56320))%N :: join_surrogates r'
          else h :: join_surrogates r
      | _ => h :: join_surrogates r
      end
  end.

Definition scanstring (s : str) : option (str * str) :=
  match scan_pieces s with
  | Some (ps, r) => Some (join_surrogates ps, r)
  | None => None
  end.

Fixpoint span_digits (s : str) : str * str :=
  match s with
  | c :: s' =>
      if is_digit c then let (ds, r) := span_digits s' in (c :: ds, r)
      else ([], s)
  | [] => ([], [])
  end.

Definition digits_value (ds : str) : Z :=
  fold_left (fun acc c => (acc * 10 + Z.of_N (c - 48))%Z) ds 0%Z.

(** The integer part of a number: an optional minus, then a zero or a
    non-zero digit followed by digits. *)
Definition match_integer (s : str) : option (bool * str * str) :=
  let (neg, s1) :=
    match s with
    | c :: r => if (c =? 45)%N then (true, r) else (false, s)
    | [] => (false, s)
    end in
  match s1 with
  | d :: r =>
      if (d =? 48)%N then Some (neg, [d], r)
      else if is_digit d then
        let (ds, r') := span_digits r in Some (neg, d :: ds, r')
      else None
  | [] => None
  end.

(** An optional fraction: a dot and at least one digit. *)
Definition match_frac (s : str) : str * str :=
  match s with
  | c :: r =>
      if (c =? 46)%N then
        match span_digits r with
        | ([], _) => ([], s)
        | (ds, r') => (c :: ds, r')
        end
      else ([], s)
  | [] => ([], s)
  end.

(** An optional exponent: e or E, an optional sign, at least one digit. *)
Definition match_exp (s : str) : str * str :=
  match s with
  | c :: r =>
      if ((c =? 101) || (c =? 69))%N then
        let (sign, r1) :=
          match r with
          | g :: r0 => if ((g =? 43) || (g =? 45))%N then ([g], r0) else ([], r)
          | [] => ([], r)
          end in
        match span_digits r1 with
        | ([], _) => ([], s)
        | (ds, r') => (c :: sign ++ ds, r')
        end
      else ([], s)
  | [] => ([], s)
  end.

(** [int(text)] refuses a text of [digits] digits: there are more than the
    limit, which is in force ([PyLong_FromString] tests it on texts of more
    than 640 digits). *)
Definition too_many_digits (max_digits digits : nat) : bool :=
  (640 <? digits) && (0 <? max_digits) && (max_digits <? digits).

(** A number: a float when it has a fraction or an exponent, and an [int]
    otherwise, when [int] converts its digits. *)
Definition match_number (max_digits : nat) (s : str)
  : option (result pyval * str) :=
  match match_integer s with
  | None => None
  | Some (neg, ds, r) =>
      let (frac, r1) := match_frac r in
      let (ex, r2) := match_exp r1 in
      let integer := (if neg then [45%N] else []) ++ ds in
      match frac, ex with
      | [], [] =>
          if too_many_digits max_digits (length ds) then Some (Raise ValueError, r2)
          else
            Some (Ok (PInt (if neg then - digits_value ds else digits_value ds)%Z), r2)
      | _, _ => Some (Ok (PFloat (integer ++ frac ++ ex)), r2)
      end
  end.

(** [s] starts with [word]: the rest of [s]. *)
Fixpoint after (word s : str) : option str :=
  match word, s with
  | [], _ => Some s
  | w :: word', c :: s' => if (w =? c)%N then after word' s' else None
  | _ :: _, [] => None
  end.

(** The outcome of scanning one value: the value and the rest of the text;
    no value starts here (the scanner stops the iteration, and the decoder
    raises [JSONDecodeError] once the scanner has returned); the text is
    malformed (the scanner raises [JSONDecodeError]); an exception other
    than [JSONDecodeError]; no fuel left. *)
Inductive scan : Type :=
| Scanned (v : pyval) (rest : str)
| NoValue
| Reject
| Raised (e : exn)
| Starved.

(** The scanner raises [JSONDecodeError] with [depth] calls left: the
    exception is built where the scanner stands, which takes three. *)
Definition malformed_at (depth : nat) : scan :=
  if 3 <=? depth then Reject else Raised RecursionError.

(** One of the constants [NaN], [Infinity], [-Infinity], with [depth] calls
    left: [parse_constant] is called. *)
Definition constant (depth : nat) (name : str) (rest : str) : scan :=
  match depth with
  | O => Raised RecursionError
  | S _ => Scanned (PFloat name) rest
  end.

Definition scan_atom (max_digits : nat) (depth : nat) (s : str) : scan :=
  match after (lit "null") s with
  | Some r => Scanned PNone r
  | None =>
  match after (lit "true") s with
  | Some r => Scanned (PBool true) r
  | None =>
  match after (lit "false") s with
  | Some r => Scanned (PBool false) r
  | None =>
  match match_number max_digits s with
  | Some (Ok v, r) => Scanned v r
  | Some (Raise e, _) => Raised e
  | None =>
  match after (lit "NaN") s with
  | Some r => constant depth (lit "NaN") r
  | None =>
  match after (lit "Infinity") s with
  | Some r => constant depth (lit "Infinity") r
  | None =>
  match after (lit "-Infinity") s with
  | Some r => constant depth (lit "-Infinity") r
  | None => NoValue
  end end end end end end end.

Section Decoder.

(** The longest integer literal that [int] converts. *)
Variable max_digits : nat.

(** [scan_once], with the array and the object loops.  [depth] is the
    number of nested calls that the interpreter still allows: the scanner
    enters one at every opening bracket or brace, before it reads on, and
    leaves it when the array or object is closed.  Each call of the model
    spends one unit of [fuel]; [JsonFacts.fuel_enough] shows that more
    than twice the length of the text is always enough. *)
Fixpoint scan_once (fuel : nat) (depth : nat) (s : str) {struct fuel} : scan :=
  match fuel with
  | O => Starved
  | S fuel' =>
      match s with
      | [] => NoValue
      | c :: s1 =>
          if (c =? 34)%N then
            match scanstring s1 with
            | Some (v, r) => Scanned (PStr v) r
            | None => malformed_at depth
            end
          else if (c =? 123)%N then
            match depth with
            | O => Raised RecursionError
            | S depth' =>
                match skip_ws s1 with
                | c2 :: r =>
                    if (c2 =? 125)%N then Scanned (PDict []) r
                    else parse_members fuel' depth' (c2 :: r) []
                | [] => malformed_at depth'
                end
            end
          else if (c =? 91)%N then
            match depth with
            | O => Raised RecursionError
            | S depth' =>
                match skip_ws s1 with
                | c2 :: r =>
                    if (c2 =? 93)%N then Scanned (PList []) r
                    else parse_items fuel' depth' (c2 :: r) []
                | [] => NoValue
                end
            end
          else scan_atom max_digits depth s
      end
  end

with parse_items (fuel : nat) (depth : nat) (s : str) (acc : list pyval)
  {struct fuel} : scan :=
  match fuel with
  | O => Starved
  | S fuel' =>
      match scan_once fuel' depth s with
      | Scanned v r =>
          match skip_ws r with
          | c :: r2 =>
              if (c =? 93)%N then Scanned (PList (rev (v :: acc))) r2
              else if (c =? 44)%N then
                parse_items fuel' depth (skip_ws r2) (v :: acc)
              else malformed_at depth
          | [] => malformed_at depth
          end
      | NoValue => NoValue
      | Reject => Reject
      | Raised e => Raised e
      | Starved => Starved
      end
  end

with parse_members (fuel : nat) (depth : nat) (s : str) (acc : dict)
  {struct fuel} : scan :=
  match fuel with
  | O => Starved
  | S fuel' =>
      match s with
      | q :: s1 =>
          if (q =? 34)%N then
            match scanstring s1 with
            | Some (key, r) =>
                match skip_ws r with
                | colon :: r1 =>
                    if (colon =? 58)%N then
                      match scan_once fuel' depth (skip_ws r1) with
                      | Scanned v r2 =>
                          match skip_ws r2 with
                          | c :: r3 =>
                              if (c =? 125)%N then
                                Scanned (PDict (dict_set acc key v)) r3
                              else if (c =? 44)%N then
                                parse_members fuel' depth (skip_ws r3)
                                  (dict_set acc key v)
                              else malformed_at depth
                          | [] => malformed_at depth
                          end
                      | NoValue => NoValue
                      | Reject => Reject
                      | Raised e => Raised e
                      | Starved => Starved
                      end
                    else malformed_at depth
                | [] => malformed_at depth
                end
            | None => malformed_at depth
            end
          else malformed_at depth
      | [] => malformed_at depth
      end
  end.

End Decoder.

(** [json.loads(s)].  The decoder raises its own [JSONDecodeError]s (a
    byte order mark, no value, text after the value) once the scanner has
    returned, with calls to spare. *)
Definition loads (lim : limits) (s : str) : result pyval :=
  if startswith [65279%N] s then Raise JSONDecodeError
  else
    match scan_once (int_max_str_digits lim) (2 * length s + 1)
            (3 + recursion_headroom lim) (skip_ws s) with
    | Scanned v r =>
        match skip_ws r with
        | [] => Ok v
        | _ :: _ => Raise JSONDecodeError
        end
    | Raised e => Raise e
    | NoValue | Reject | Starved => Raise JSONDecodeError
    end.

End Json.


(* ================================================================= *)
(** ** The outside world: the chat service and the standard output

    A computation that talks to the outside returns, with its result, the
    events it caused, oldest first.  The chat service is a function from
    requests to responses; a transport failure is a [Raise]. *)

Module World.

(** What a chat request is made of: the parts that the two prompt
    templates are filled with (the fixed text of the templates is not
    modelled). *)
Inductive request : Type :=
| SinglePrompt (action_label action_hint : str)
| TemporalPrompt (history_str : str).

Inductive event : Type :=
| Sent (r : request)                    (* [client.chat.completions.create] *)
| Print (text : str)                    (* [print(text)] *)
| PrintCounts (text : str) (counts : dict)  (* [print(f"text{counts}")] *)
| PrintJson (v : pyval).                (* [print(json.dumps(v, indent=2))] *)

Definition io (A : Type) : Type := (list event * result A)%type.

Definition ret {A} (a : A) : io A := ([], Ok a).

Definition lift {A} (r : result A) : io A := ([], r).

Definition emit (e : event) : io unit := ([e], Ok tt).

Definition iobind {A B} (m : io A) (k : A -> io B) : io B :=
  match m with
  | (tr, Ok a) => let (tr', r) := k a in (tr ++ tr', r)
  | (tr, Raise e) => (tr, Raise e)
  end.

(** The events of [m] after the events [tr]. *)
Definition after_events {A} (tr : list event) (m : io A) : io A :=
  (tr ++ fst m, snd m).

Definition requests_of (tr : list event) : list request :=
  flat_map (fun e => match e with Sent r => [r] | _ => [] end) tr.

Definition dumps_of (tr : list event) : list pyval :=
  flat_map (fun e => match e with PrintJson v => [v] | _ => [] end) tr.

End World.

Import World.

Notation "x <~ m ;; k" := (iobind m (fun x => k))
  (at level 61, m at next level, right associativity) : py_scope.
Notation "m ;;; k" := (iobind m (fun _ => k))
  (at level 61, right associativity) : py_scope.

(* ================================================================= *)
(** ** [reasoning_agent.py] *)

Module Agent.

Definition ACTION_HINTS : list (str * str) :=
  [ (lit "open_door",
     lit "Usually involves approaching a door and opening it. Common scenes include rooms, corridors, offices, or classrooms.");
    (lit "pick_book",
     lit "Usually involves picking up a book from a shelf or table. Common scenes include libraries, study rooms, or offices.");
    (lit "pour_water",
     lit "Usually involves pouring liquid from a container into a cup. Common scenes include kitchens, pantries, or office break rooms.");
    (lit "walk_stop",
     lit "Usually involves walking and then stopping briefly. Common scenes include corridors, indoor spaces, sidewalks, or open areas.") ].

Definition VALID_ACTIONS : list str := map fst ACTION_HINTS.

(** [ACTION_HINTS.get(action_label, default)] *)
Fixpoint hint_or (hints : list (str * str)) (action_label default : str) : str :=
  match hints with
  | [] => default
  | (k, h) :: hints' => if str_eqb k action_label then h else hint_or hints' action_label default
  end.

Definition _strip_code_fences (text : str) : str :=
  let t := strip text in
  if startswith (lit "```") t then
    let t := strip (strip_chars (lit "`") t) in
    if startswith (lit "json") (lower t) then strip (skipn 4 t) else t
  else t.

Section Normalizer.

(** The limits of the interpreter that runs the agent. *)
Variable lim : limits.

(** [str(x)] of a float, a list or a dict is left to the interpreter. *)
Variable repr : pyval -> str.

(** The builtin [str(x)]. *)
Definition to_str (x : pyval) : str :=
  match x with
  | PStr s => s
  | PNone => lit "None"
  | PBool true => lit "True"
  | PBool false => lit "False"
  | PInt z => str_of_int z
  | PFloat _ | PList _ | PDict _ => repr x
  end.

Definition is_none (x : pyval) : bool :=
  match x with
  | PNone => true
  | _ => false
  end.

(** The strings of [[str(i) for i in x if i is not None]]. *)
Definition list_text (x : pyval) : list str :=
  match x with
  | PList l => map to_str (filter (fun i => negb (is_none i)) l)
  | _ => []
  end.

Definition _ensure_list_of_str (x : pyval) : pyval := strs (list_text x).

(** The string that [_ensure_str] returns. *)
Definition str_text (x : pyval) : str :=
  match x with
  | PNone => []
  | _ => to_str x
  end.

Definition _ensure_str (x : pyval) : pyval := PStr (str_text x).

(** [if not isinstance(data, dict): data = {}] *)
Definition dict_or_empty (data : pyval) : dict :=
  match data with
  | PDict d => d
  | _ => []
  end.

Definition string_keys : list str :=
  [ lit "intent"; lit "next_step"; lit "explanation";
    lit "agent_state"; lit "task_goal"; lit "current_step" ].

(** The base skeleton [out] of the single-action normalizer. *)
Definition single_skeleton : pyval :=
  PDict
    [ (lit "intent", PStr []);
      (lit "next_step", PStr []);
      (lit "explanation", PStr []);
      (lit "environment",
       PDict [ (lit "scene_type", PStr []); (lit "key_objects", PList []) ]);
      (lit "agent_state", PStr []);
      (lit "affordances", PList []);
      (lit "constraints", PList []);
      (lit "task_goal", PStr []);
      (lit "current_step", PStr []);
      (lit "future_steps", PList []);
      (lit "target_objects", PList []) ].

(** [for k in keys: out[k] = _ensure_str(data.get(k, out[k]))] *)
Fixpoint fill_strings (keys : list str) (data : dict) (out : pyval) : result pyval :=
  match keys with
  | [] => Ok out
  | k :: keys' =>
      cur <- subscript out k ;;
      out <- store out k (_ensure_str (get_or data k cur)) ;;
      fill_strings keys' data out
  end.

(** [out[outer][inner] = v]: the nested dict is updated in place. *)
Definition store_nested (out : pyval) (outer inner : str) (v : pyval) : result pyval :=
  nested <- subscript out outer ;;
  nested <- store nested inner v ;;
  store out outer nested.

(** [if len(out[k]) < minimum: out[k] = (out[k] + canned)[:cap]] *)
Definition backfill (out : pyval) (k : str) (minimum : nat)
  (canned : list str) (cap : nat) : result pyval :=
  cur <- subscript out k ;;
  n <- len cur ;;
  if n <? minimum then
    cur <- subscript out k ;;
    sum <- add cur (strs canned) ;;
    cut <- upto sum cap ;;
    store out k cut
  else Ok out.

Definition canned_affordances : list str :=
  [ lit "approach relevant object safely";
    lit "grasp/manipulate the object";
    lit "move to the next location or step" ].

Definition canned_constraints : list str :=
  [ lit "avoid collisions with people/objects";
    lit "ensure stable footing and safe motion" ].

Definition canned_future_steps : list str :=
  [ lit "complete the immediate subtask";
    lit "transition to the next goal-oriented action" ].

Definition canned_targets : list str :=
  [ lit "relevant object"; lit "destination" ].

(** The last block of the normalizer: [target_objects] borrows the
    environment's [key_objects] when there are any, and takes the canned
    pair otherwise. *)
Definition fill_targets (out : pyval) : result pyval :=
  cur <- subscript out (lit "target_objects") ;;
  n <- len cur ;;
  if n <? 2 then
    env <- subscript out (lit "environment") ;;
    candidates <- subscript env (lit "key_objects") ;;
    cur <- subscript out (lit "target_objects") ;;
    if truthy candidates then
      sum <- add cur candidates ;;
      cut <- upto sum 4 ;;
      store out (lit "target_objects") cut
    else
      sum <- add cur (strs canned_targets) ;;
      cut <- upto sum 4 ;;
      store out (lit "target_objects") cut
  else Ok out.

Definition _normalize_single_action_json (data : pyval) : result pyval :=
  let out := single_skeleton in
  let data := dict_or_empty data in
  (* Strings *)
  out <- fill_strings string_keys data out ;;
  (* Environment *)
  let env := dict_or_empty (get_or data (lit "environment") (PDict [])) in
  out <- store_nested out (lit "environment") (lit "scene_type")
           (_ensure_str (get_or env (lit "scene_type") (PStr []))) ;;
  out <- store_nested out (lit "environment") (lit "key_objects")
           (_ensure_list_of_str (get_or env (lit "key_objects") (PList []))) ;;
  (* Lists *)
  out <- store out (lit "affordances")
           (_ensure_list_of_str (get_or data (lit "affordances") (PList []))) ;;
  out <- store out (lit "constraints")
           (_ensure_list_of_str (get_or data (lit "constraints") (PList []))) ;;
  out <- store out (lit "future_steps")
           (_ensure_list_of_str (get_or data (lit "future_steps") (PList []))) ;;
  out <- store out (lit "target_objects")
           (_ensure_list_of_str (get_or data (lit "target_objects") (PList []))) ;;
  (* Minimal defaults if the model returns too little *)
  out <- backfill out (lit "affordances") 3 canned_affordances 5 ;;
  out <- backfill out (lit "constraints") 2 canned_constraints 4 ;;
  out <- backfill out (lit "future_steps") 2 canned_future_steps 4 ;;
  fill_targets out.

Definition temporal_skeleton : pyval :=
  PDict
    [ (lit "overall_task", PStr []);
      (lit "step_roles", PList []);
      (lit "possible_goal", PStr []);
      (lit "future_plan", PList []);
      (lit "uncertainty_notes", PList []) ].

Definition _normalize_temporal_json (data : pyval) : result pyval :=
  let out := temporal_skeleton in
  let data := dict_or_empty data in
  out <- store out (lit "overall_task")
           (_ensure_str (get_or data (lit "overall_task") (PStr []))) ;;
  out <- store out (lit "possible_goal")
           (_ensure_str (get_or data (lit "possible_goal") (PStr []))) ;;
  out <- store out (lit "step_roles")
           (_ensure_list_of_str (get_or data (lit "step_roles") (PList []))) ;;
  out <- store out (lit "future_plan")
           (_ensure_list_of_str (get_or data (lit "future_plan") (PList []))) ;;
  let notes := get_or data (lit "uncertainty_notes") (PList []) in
  store out (lit "uncertainty_notes") (_ensure_list_of_str notes).

(** The fallback of [llm_reasoning] when the text is not JSON: the raw
    text is kept in [explanation]. *)
Definition single_fallback (content : str) : pyval :=
  PDict
    [ (lit "intent", PStr []);
      (lit "next_step", PStr []);
      (lit "explanation", PStr content);
      (lit "environment",
       PDict [ (lit "scene_type", PStr []); (lit "key_objects", PList []) ]);
      (lit "agent_state", PStr []);
      (lit "affordances", PList []);
      (lit "constraints", PList []);
      (lit "task_goal", PStr []);
      (lit "current_step", PStr []);
      (lit "future_steps", PList []);
      (lit "target_objects", PList []) ].

(** The fallback of [llm_temporal_reasoning]. *)
Definition temporal_fallback (content : str) : pyval :=
  PDict
    [ (lit "overall_task", PStr []);
      (lit "step_roles", PList []);
      (lit "possible_goal", PStr []);
      (lit "future_plan", PList []);
      (lit "uncertainty_notes", PList [PStr content]) ].

(** [try: data = json.loads(content) except json.JSONDecodeError: data =
    fallback]; any other exception is not caught. *)
Definition loads_or (fallback : str -> pyval) (content : str) : result pyval :=
  match Json.loads lim content with
  | Ok data => Ok data
  | Raise JSONDecodeError => Ok (fallback content)
  | Raise e => Raise e
  end.

(** What [llm_reasoning] does with the text of the response. *)
Definition normalizeSingle (rawText : str) : result pyval :=
  let content := _strip_code_fences rawText in
  data <- loads_or single_fallback content ;;
  _normalize_single_action_json data.

(** What [llm_temporal_reasoning] does with the text of the response. *)
Definition normalizeTemporal (rawText : str) : result pyval :=
  let content := _strip_code_fences rawText in
  data <- loads_or temporal_fallback content ;;
  _normalize_temporal_json data.

(** The chat service: the content of the first choice of the response
    ([None] when the message has no content). *)
Variable chat : request -> result (option str).

(** [response.choices[0].message.content or ""] *)
Definition content_or_empty (content : option str) : str :=
  match content with
  | Some ((_ :: _) as c) => c
  | _ => []
  end.

Definition llm_reasoning (action_label : str) : io pyval :=
  let action_hint := hint_or ACTION_HINTS action_label [] in
  let prompt := SinglePrompt action_label action_hint in
  emit (Sent prompt) ;;;
  response <~ lift (chat prompt) ;;
  lift (normalizeSingle (content_or_empty response)).

Definition llm_temporal_reasoning (action_history : list str) : io pyval :=
  match action_history with
  | [] => lift (_normalize_temporal_json (PDict []))
  | _ :: _ =>
      let history_str := join (lit " -> ") action_history in
      let prompt := TemporalPrompt history_str in
      emit (Sent prompt) ;;;
      response <~ lift (chat prompt) ;;
      lift (normalizeTemporal (content_or_empty response))
  end.

(** *** The declared schemas, as typed records *)

Record Environment : Type := {
  scene_type : str;
  key_objects : list str
}.

Record ReasoningObject : Type := {
  intent : str;
  next_step : str;
  explanation : str;
  environment : Environment;
  agent_state : str;
  affordances : list str;
  constraints : list str;
  task_goal : str;
  current_step : str;
  future_steps : list str;
  target_objects : list str
}.

(** The Python object with the eleven keys of the single-action schema,
    each holding a value of its declared type. *)
Definition single_dict (i n e sc : str) (ko : list str) (ag : str)
  (af co : list str) (tg cu : str) (fu ta : list str) : pyval :=
  PDict
    [ (lit "intent", PStr i);
      (lit "next_step", PStr n);
      (lit "explanation", PStr e);
      (lit "environment",
       PDict [ (lit "scene_type", PStr sc); (lit "key_objects", strs ko) ]);
      (lit "agent_state", PStr ag);
      (lit "affordances", strs af);
      (lit "constraints", strs co);
      (lit "task_goal", PStr tg);
      (lit "current_step", PStr cu);
      (lit "future_steps", strs fu);
      (lit "target_objects", strs ta) ].

Definition reasoning_object (r : ReasoningObject) : pyval :=
  single_dict (intent r) (next_step r) (explanation r)
    (scene_type (environment r)) (key_objects (environment r))
    (agent_state r) (affordances r) (constraints r)
    (task_goal r) (current_step r) (future_steps r) (target_objects r).

Record TemporalObject : Type := {
  overall_task : str;
  step_roles : list str;
  possible_goal : str;
  future_plan : list str;
  uncertainty_notes : list str
}.

Definition temporal_object (t : TemporalObject) : pyval :=
  PDict
    [ (lit "overall_task", PStr (overall_task t));
      (lit "step_roles", strs (step_roles t));
      (lit "possible_goal", PStr (possible_goal t));
      (lit "future_plan", strs (future_plan t));
      (lit "uncertainty_notes", strs (uncertainty_notes t)) ].

(** The field [k] of [data] coerced to a string, and to a list of strings. *)
Definition str_field (data : pyval) (k : str) : str :=
  str_text (get_or (dict_or_empty data) k (PStr [])).

Definition list_field (data : pyval) (k : str) : list str :=
  list_text (get_or (dict_or_empty data) k (PList [])).

(** The [environment] of [data], or the empty dict. *)
Definition env_of (data : pyval) : pyval :=
  PDict (dict_or_empty (get_or (dict_or_empty data) (lit "environment") (PDict []))).

(** A list brought up to its minimum with canned entries. *)
Definition top_up (minimum : nat) (canned : list str) (cap : nat) (l : list str) : list str :=
  if length l <? minimum then firstn cap (l ++ canned) else l.

(** The targets, topped up from the key objects or from the canned pair. *)
Definition top_up_targets (key_objs l : list str) : list str :=
  if length l <? 2 then
    match key_objs with
    | _ :: _ => firstn 4 (l ++ key_objs)
    | [] => firstn 4 (l ++ canned_targets)
    end
  else l.

(** The typed reading of what the single-action normalizer returns. *)
Definition single_view (data : pyval) : ReasoningObject :=
  let key_objs := list_field (env_of data) (lit "key_objects") in
  {| intent := str_field data (lit "intent");
     next_step := str_field data (lit "next_step");
     explanation := str_field data (lit "explanation");
     environment :=
       {| scene_type := str_field (env_of data) (lit "scene_type");
          key_objects := key_objs |};
     agent_state := str_field data (lit "agent_state");
     affordances :=
       top_up 3 canned_affordances 5 (list_field data (lit "affordances"));
     constraints :=
       top_up 2 canned_constraints 4 (list_field data (lit "constraints"));
     task_goal := str_field data (lit "task_goal");
     current_step := str_field data (lit "current_step");
     future_steps :=
       top_up 2 canned_future_steps 4 (list_field data (lit "future_steps"));
     target_objects :=
       top_up_targets key_objs (list_field data (lit "target_objects")) |}.

Definition temporal_view (data : pyval) : TemporalObject :=
  {| overall_task := str_field data (lit "overall_task");
     step_roles := list_field data (lit "step_roles");
     possible_goal := str_field data (lit "possible_goal");
     future_plan := list_field data (lit "future_plan");
     uncertainty_notes := list_field data (lit "uncertainty_notes") |}.

(** The object that [json.loads] or its fallback hands to a normalizer. *)
Definition decoded (fallback : str -> pyval) (rawText : str) : pyval :=
  match Json.loads lim (_strip_code_fences rawText) with
  | Ok data => data
  | Raise _ => fallback (_strip_code_fences rawText)
  end.


(** A field that gives the normalizer no list: it is missing, or it holds
    a value of another type. *)
Definition no_list (x : option pyval) : bool :=
  match x with
  | Some (PList _) => false
  | _ => true
  end.

(** Decoded data without any usable list: not an object at all, or an
    object in which each of the four list fields, and [key_objects] in the
    environment, is missing or of the wrong type. *)
Definition no_usable_list (data : pyval) : bool :=
  let d := dict_or_empty data in
  no_list (dict_get d (lit "affordances"))
  && no_list (dict_get d (lit "constraints"))
  && no_list (dict_get d (lit "future_steps"))
  && no_list (dict_get d (lit "target_objects"))
  && match dict_get d (lit "environment") with
     | Some (PDict e) => no_list (dict_get e (lit "key_objects"))
     | _ => true
     end.

(** The malformed responses: text that is not JSON (the empty string and
    truncated JSON among them), and JSON without any usable list (an object
    that misses all keys, or whose fields have the wrong types). *)
Definition malformed (rawText : str) : bool :=
  match Json.loads lim (_strip_code_fences rawText) with
  | Raise _ => true
  | Ok data => no_usable_list data
  end.

(** The decoder stays within the limits of the interpreter on a response:
    it returns a value, or it raises [JSONDecodeError]. *)
Definition within_limits (rawText : str) : bool :=
  match Json.loads lim (_strip_code_fences rawText) with
  | Ok _ | Raise JSONDecodeError => true
  | Raise _ => false
  end.

(** The object that the normalizer makes of the empty placeholder, with
    [e] as its explanation: empty strings and the canned entries. *)
Definition degraded_object (e : str) : ReasoningObject :=
  {| intent := []; next_step := []; explanation := e;
     environment := {| scene_type := []; key_objects := [] |};
     agent_state := [];
     affordances := canned_affordances;
     constraints := canned_constraints;
     task_goal := []; current_step := [];
     future_steps := canned_future_steps;
     target_objects := canned_targets |}.

(** [needle in haystack] *)
Fixpoint contains (needle haystack : str) : bool :=
  startswith needle haystack
  || match haystack with
     | [] => false
     | _ :: rest => contains needle rest
     end.

End Normalizer.

(** *** Responses for examples

    In these texts the apostrophe stands for the double quote. *)

(** A stand-in for the interpreter's [str] of floats, lists and dicts, for
    examples whose data has none of them where a string is read. *)
Definition no_repr (x : pyval) : str := [].

(** The malformed responses of the four kinds: the empty string, truncated
    JSON, JSON that misses all keys, JSON whose fields have wrong types. *)
Definition empty_response : str := [].

Definition truncated_response : str :=
  dq "{'intent': 'enter the room', 'affordances': ['push the door', 'grasp the han".

Definition keyless_response : str := dq "{}".

Definition mistyped_response : str :=
  dq "{'intent': 42, 'environment': 'office', 'affordances': 'push', 'constraints': 7, 'future_steps': {'first': 'walk'}, 'target_objects': null}".

(** One key object and no target object. *)
Definition one_key_object_response : str :=
  dq "{'environment': {'scene_type': 'corridor', 'key_objects': ['door']}}".

(** More affordances than the cap of five. *)
Definition six_affordances_response : str :=
  dq "{'affordances': ['walk', 'reach', 'grasp', 'turn', 'push', 'enter']}".

(** Valid JSON that is not an object. *)
Definition json_array_response : str := dq "['open_door', 'walk_stop']".





(** A response with every key, of the declared types and cardinalities. *)
Definition well_formed_response : str :=
  dq "{'intent': 'enter the room', 'next_step': 'walk through the door', 'explanation': 'The person opens a door.', 'environment': {'scene_type': 'corridor', 'key_objects': ['door', 'handle']}, 'agent_state': 'standing', 'affordances': ['reach the handle', 'turn the handle', 'push the door', 'walk through'], 'constraints': ['door may be locked', 'avoid people behind the door'], 'task_goal': 'enter', 'current_step': 'opening', 'future_steps': ['walk in', 'close the door'], 'target_objects': ['door', 'handle']}".

End Agent.

(* ================================================================= *)
(** ** [build_dataset.py]: the feature encoder *)

Module Dataset.

(** *** Numbers

    A number of a pose file, as [json.load] gives it: an [int], or a
    [float], which is a binary64 value.  The values of a feature vector are
    [numpy.float32], binary32 values.  Both kinds of floating-point values
    are [spec_float]s of the Standard Library, with the rounding to nearest,
    ties to even, of [binary_round]. *)
Inductive number : Type :=
| Int (z : Z)
| Float (x : spec_float).

Definition float32 : Type := spec_float.

(** [0.0] *)
Definition zero : float32 := S754_zero false.

(** [float(z)] as the conversion of an [int] by the interpreter computes
    it: the nearest binary64 value, an infinity standing for a result out
    of range. *)
Definition to_double (z : Z) : spec_float := binary_normalize 53 1024 z 0 false.

(** The cast of a binary64 value to binary32: the nearest value, an
    infinity when it is out of range. *)
Definition narrow (x : spec_float) : float32 :=
  match x with
  | S754_finite s m e => binary_round 24 128 s m e
  | _ => x
  end.

(** The conversion of one number into an array of [dtype=np.float32]: an
    [int] is converted to a [float] first, which raises [OverflowError]
    when it is too large, and the [float] is then cast. *)
Definition np_float32 (x : number) : result float32 :=
  match x with
  | Int z =>
      match to_double z with
      | S754_infinity _ => Raise OverflowError
      | d => Ok (narrow d)
      end
  | Float d => Ok (narrow d)
  end.

(** The [float32] value of a small integer, to write vectors down. *)
Definition of_int (z : Z) : float32 := binary_normalize 24 128 z 0 false.

(** The integer part of a [float32] value (zero for what is not finite). *)
Definition to_int (x : float32) : Z :=
  match x with
  | S754_finite s m e => cond_Zopp s (Z.shiftl (Zpos m) e)
  | _ => 0
  end.

(** *** The encoder *)

(** The conversions of the values of a list, in order, up to the first
    one that raises. *)
Fixpoint convert (values : list number) : result (list float32) :=
  match values with
  | [] => Ok []
  | x :: values' =>
      y <- np_float32 x ;;
      ys <- convert values' ;;
      Ok (y :: ys)
  end.

Section Vectors.

(** The limits of the machine. *)
Variable lim : limits.

(** [np.zeros(dim, dtype=np.float32)]: a negative dimension and a
    dimension whose 4-byte entries do not fit the index range of a 64-bit
    machine are a [ValueError]; an array that the machine does not allocate
    is a [MemoryError]. *)
Definition np_zeros (dim : Z) : result (list float32) :=
  if (dim <? 0)%Z then Raise ValueError
  else if (2 ^ 61 <=? dim)%Z then Raise ValueError
  else if (Z.of_N (array_capacity lim) <? dim)%Z then Raise MemoryError
  else Ok (repeat zero (Z.to_nat dim)).

(** [np.array(keypoints, dtype=np.float32).reshape(-1, 3).flatten()]: the
    rows must have one length; each value is converted to [float32]; the
    number of values must be a multiple of 3; the values then come row by
    row. *)
Definition flatten3 (keypoints : list (list number)) : result (list float32) :=
  match keypoints with
  | [] => Ok []
  | row :: _ =>
      if forallb (fun r => length r =? length row) keypoints then
        flat <- convert (concat keypoints) ;;
        if length flat mod 3 =? 0 then Ok flat else Raise ValueError
      else Raise ValueError
  end.

(** [flat[:dim]]; a negative [dim] counts from the end. *)
Definition prefix (flat : list float32) (dim : Z) : list float32 :=
  if (0 <=? dim)%Z then firstn (Z.to_nat dim) flat
  else firstn (length flat - Z.to_nat (- dim)) flat.

Definition keypoints_to_vector (keypoints : option (list (list number))) (dim : Z)
  : result (list float32) :=
  match keypoints with
  | None => np_zeros dim
  | Some rows =>
      flat <- flatten3 rows ;;
      if (dim <=? Z.of_nat (length flat))%Z then Ok (prefix flat dim)
      else
        (* Pad with zeros if fewer than dim values *)
        output <- np_zeros dim ;;
        Ok (flat ++ skipn (length flat) output)
  end.

End Vectors.

(** *** The vocabulary of the statements about the encoder *)

(** A detection: each keypoint is a triple (x, y, confidence). *)
Definition triples (keypoints : option (list (list number))) : Prop :=
  match keypoints with
  | None => True
  | Some rows => Forall (fun r => length r = 3) rows
  end.

(** A number that the conversion to [float32] takes: a [float], or an
    [int] within the range of a [float]. *)
Definition convertible (x : number) : Prop :=
  match x with
  | Int z => forall s, to_double z <> S754_infinity s
  | Float _ => True
  end.

(** The numbers of a detection, row by row. *)
Definition values_of (keypoints : option (list (list number))) : list number :=
  match keypoints with
  | None => []
  | Some rows => concat rows
  end.

(** The [float32] values of numbers that are convertible. *)
Definition rounded (values : list number) : list float32 :=
  map (fun x => match x with
                | Int z => narrow (to_double z)
                | Float d => narrow d
                end) values.

(** A detection that the encoder takes: it is missing, or made of triples
    of convertible numbers. *)
Definition encodable (keypoints : option (list (list number))) : Prop :=
  triples keypoints /\ Forall convertible (values_of keypoints).

(** A dimension that is not too large for [np.zeros]. *)
Definition allocatable (lim : limits) (dim : Z) : Prop :=
  (dim < 2 ^ 61)%Z /\ (dim <= Z.of_N (array_capacity lim))%Z.

End Dataset.

(* ================================================================= *)
(** ** [full_pipeline.py] *)

Module Pipeline.

Import Agent Dataset.

Definition NEW_POSE_DIR : str := lit "new_pose_keypoints".

Definition ACTIONS : list str :=
  [ lit "open_door"; lit "pick_book"; lit "pour_water"; lit "walk_stop" ].

(** [enumerate(labels)], counting from [i]. *)
Fixpoint enumerate_from (i : Z) (labels : list str) : list (Z * str) :=
  match labels with
  | [] => []
  | l :: labels' => (i, l) :: enumerate_from (i + 1) labels'
  end.

Definition IDX_TO_LABEL : list (Z * str) := enumerate_from 0 ACTIONS.

(** [table[k]] *)
Fixpoint label_at (table : list (Z * str)) (k : Z) : result str :=
  match table with
  | [] => Raise KeyError
  | (i, l) :: table' => if (i =? k)%Z then Ok l else label_at table' k
  end.

(** [os.path.join(a, b)] *)
Definition path_join (a b : str) : str :=
  if startswith (lit "/") b then b
  else if (length a =? 0) || endswith (lit "/") a then a ++ b
  else a ++ lit "/" ++ b.

(** The order of [str]: by code points, a prefix first. *)
Fixpoint str_leb (a b : str) : bool :=
  match a, b with
  | [], _ => true
  | _ :: _, [] => false
  | x :: a', y :: b' =>
      if (x <? y)%N then true else if (y <? x)%N then false else str_leb a' b'
  end.

Fixpoint insert_name (x : str) (l : list str) : list str :=
  match l with
  | [] => [x]
  | y :: l' => if str_leb x y then x :: l else y :: insert_name x l'
  end.

(** [sorted(names)] *)
Definition sorted (names : list str) : list str := fold_right insert_name [] names.

(** [f.endswith(".json") and not f.startswith(".")] *)
Definition is_pose_file (f : str) : bool :=
  endswith (lit ".json") f && negb (startswith (lit ".") f).

(** *** [np.unique] and [np.argmax] *)

Fixpoint insert (x : Z) (l : list Z) : list Z :=
  match l with
  | [] => [x]
  | y :: l' => if (x <=? y)%Z then x :: l else y :: insert x l'
  end.

(** The sorted array. *)
Definition np_sort (ar : list Z) : list Z := fold_right insert [] ar.

(** The runs of equal values of an array, each with its length. *)
Fixpoint runs (ar : list Z) : list (Z * nat) :=
  match ar with
  | [] => []
  | x :: ar' =>
      match runs ar' with
      | (y, c) :: rs => if (x =? y)%Z then (y, S c) :: rs else (x, 1) :: (y, c) :: rs
      | [] => [(x, 1)]
      end
  end.

(** [np.unique(ar, return_counts=True)]: the sorted distinct values, and
    how often each occurs. *)
Definition np_unique_counts (ar : list Z) : list Z * list nat :=
  let rs := runs (np_sort ar) in (map fst rs, map snd rs).

(** The position of the first element that satisfies [p]. *)
Fixpoint index_of (p : nat -> bool) (l : list nat) : option nat :=
  match l with
  | [] => None
  | x :: l' => if p x then Some 0 else option_map S (index_of p l')
  end.

(** [np.argmax(a)]: the position of the first occurrence of the maximum;
    an empty array is an error. *)
Definition np_argmax (a : list nat) : result nat :=
  match a with
  | [] => Raise ValueError
  | _ :: _ =>
      match index_of (Nat.eqb (list_max a)) a with
      | Some i => Ok i
      | None => Raise ValueError
      end
  end.

(** [a[i]] *)
Definition item (a : list Z) (i : nat) : result Z :=
  match nth_error a i with
  | Some x => Ok x
  | None => Raise IndexError
  end.

(** [{IDX_TO_LABEL[int(k)]: int(v) for k, v in pairs}] *)
Fixpoint count_labels (pairs : list (Z * nat)) (acc : dict) : result dict :=
  match pairs with
  | [] => Ok acc
  | (k, v) :: pairs' =>
      label <- label_at IDX_TO_LABEL k ;;
      count_labels pairs' (dict_set acc label (PInt (Z.of_nat v)))
  end.

(** The majority vote of [classify_video], from the frame-level
    predictions on. *)
Definition majority_vote (frame_preds : list Z) : result (str * dict) :=
  let (unique, counts) := np_unique_counts frame_preds in
  count_dict <- count_labels (combine unique counts) [] ;;
  i <- np_argmax counts ;;
  majority_idx <- item unique i ;;
  majority_label <- label_at IDX_TO_LABEL majority_idx ;;
  Ok (majority_label, count_dict).

(** *** The vocabulary of the statements about the vote *)

(** The number of frames predicted as the index [k]. *)
Definition count (l : list Z) (k : Z) : nat := count_occ Z.eq_dec l k.

(** The label indices of the roster. *)
Definition in_roster (k : Z) : Prop := (0 <= k < 4)%Z.

(** The observed indices of the roster, in increasing order. *)
Definition observed (frame_preds : list Z) : list Z :=
  filter (fun k => 0 <? count frame_preds k) [0; 1; 2; 3]%Z.

(** The label of a roster index. *)
Definition label_of (k : Z) : str := nth (Z.to_nat k) ACTIONS [].

(** The mapping from each observed label to the number of frames predicted
    as that label, in roster order. *)
Definition tally (frame_preds : list Z) : dict :=
  map (fun k => (label_of k, PInt (Z.of_nat (count frame_preds k))))
      (observed frame_preds).

(** A folder of the pose store: its file names, each with the value under
    [keypoints] in the JSON content of the file ([None] for null or no such
    key). *)
Definition folder : Type := list (str * option (list (list number))).

(** [json.load(open(os.path.join(pose_dir, fname))).get("keypoints", None)] *)
Fixpoint read_keypoints (dir : folder) (fname : str)
  : result (option (list (list number))) :=
  match dir with
  | [] => Raise OSError
  | (name, keypoints) :: dir' =>
      if str_eqb name fname then Ok keypoints else read_keypoints dir' fname
  end.

(** [np.stack(features, axis=0)]: at least one array, all of one shape. *)
Definition np_stack (features : list (list float32)) : result (list (list float32)) :=
  match features with
  | [] => Raise ValueError
  | v :: _ =>
      if forallb (fun w => length w =? length v) features then Ok features
      else Raise ValueError
  end.

Section Run.

(** The limits of the interpreter and of the machine. *)
Variable lim : limits.

(** The pose store: the folders that exist, by path. *)
Variable fs : str -> option folder.

(** The trained artifacts: [scaler.transform] and [model.predict]. *)
Variable transform : list (list float32) -> list (list float32).
Variable predict : list (list float32) -> list Z.

(** The interpreter's [str] and the chat service, for the agent. *)
Variable repr : pyval -> str.
Variable chat : request -> result (option str).

(** The loop over the pose files: one 51-D feature vector per file. *)
Fixpoint load_features (dir : folder) (json_files : list str)
  : result (list (list float32)) :=
  match json_files with
  | [] => Ok []
  | fname :: rest =>
      keypoints <- read_keypoints dir fname ;;
      feature_vec <- keypoints_to_vector lim keypoints 51 ;;
      features <- load_features dir rest ;;
      Ok (feature_vec :: features)
  end.

(** The pose files of an action folder, sorted; [None] when the folder
    does not exist. *)
Definition pose_files (action_name : str) : option (list str) :=
  match fs (path_join NEW_POSE_DIR action_name) with
  | None => None
  | Some dir => Some (sorted (filter is_pose_file (map fst dir)))
  end.

Definition newline : str := [10%N].

Definition classify_video (action_name : str) : io (option str * dict) :=
  let pose_dir := path_join NEW_POSE_DIR action_name in
  match fs pose_dir with
  | None =>
      emit (Print (lit "[WARNING] Directory not found: " ++ pose_dir)) ;;;
      ret (None, [])
  | Some dir =>
      let json_files := sorted (filter is_pose_file (map fst dir)) in
      match json_files with
      | [] =>
          emit (Print (lit "[WARNING] No pose files found in " ++ pose_dir)) ;;;
          ret (None, [])
      | _ :: _ =>
          features <~ lift (load_features dir json_files) ;;
          X <~ lift (np_stack features) ;;
          let X_scaled := transform X in
          (* Frame-level predictions *)
          let frame_preds := predict X_scaled in
          (* Majority vote *)
          vote <~ lift (majority_vote frame_preds) ;;
          ret (Some (fst vote), snd vote)
      end
  end.

(** The loop of [main] over the roster, with the history so far. *)
Fixpoint for_actions (actions : list str) (action_history : list str)
  : io (list str) :=
  match actions with
  | [] => ret action_history
  | action :: rest =>
      emit (Print (lit "[INFO] Processing video for action folder: " ++ action)) ;;;
      classified <~ classify_video action ;;
      match classified with
      | (None, _) =>
          emit (Print (lit "[WARNING] Skipping due to missing or invalid data."
                       ++ newline)) ;;;
          for_actions rest action_history
      | (Some predicted_label, frame_counts) =>
          let action_history := action_history ++ [predicted_label] in
          emit (Print (lit "[INFO] Majority prediction: " ++ predicted_label)) ;;;
          emit (PrintCounts (lit "[INFO] Frame-level counts: ") frame_counts) ;;;
          (* Per-action reasoning *)
          reasoning <~ llm_reasoning lim repr chat predicted_label ;;
          emit (Print (lit "=== Per-action Reasoning ===")) ;;;
          emit (PrintJson reasoning) ;;;
          emit (Print (newline ++ repeat 45%N 50 ++ newline)) ;;;
          for_actions rest action_history
      end
  end.

Definition main : io unit :=
  emit (Print (lit "=== Human Action Reasoning Pipeline ===" ++ newline)) ;;;
  action_history <~ for_actions ACTIONS [] ;;
  (* Temporal reasoning over the full action sequence *)
  match action_history with
  | [] => ret tt
  | _ :: _ =>
      emit (Print (lit "=== Temporal Reasoning Over Action Sequence ===")) ;;;
      temporal_result <~ llm_temporal_reasoning lim repr chat action_history ;;
      emit (PrintJson temporal_result) ;;;
      emit (Print (newline ++ repeat 61%N 70 ++ newline))
  end ;;;
  emit (Print (lit "[INFO] Pipeline completed successfully.")).

(** The frame-level predictions of a clip that has pose files and whose
    features load: what [classify_video] hands to the majority vote. *)
Definition frame_predictions (action_name : str) : option (list Z) :=
  match fs (path_join NEW_POSE_DIR action_name) with
  | None => None
  | Some dir =>
      match sorted (filter is_pose_file (map fst dir)) with
      | [] => None
      | (_ :: _) as json_files =>
          match (features <- load_features dir json_files ;; np_stack features) with
          | Ok X => Some (predict (transform X))
          | Raise _ => None
          end
      end
  end.

(** The action has no frames: its folder is missing or has no pose file. *)
Definition no_frames (action_name : str) : bool :=
  match pose_files action_name with
  | None | Some [] => true
  | Some (_ :: _) => false
  end.

End Run.


(** The request of the per-action reasoning about a label. *)
Definition single_request (label : str) : request :=
  SinglePrompt label (hint_or ACTION_HINTS label []).

(** The request of the temporal reasoning over a history. *)
Definition temporal_request (history : list str) : request :=
  TemporalPrompt (join (lit " -> ") history).

(** *** A pose store and artifacts for examples *)

(** A pose file whose single keypoint has [x] as its first coordinate. *)
Definition pose_file (name : string) (x : Z)
  : str * option (list (list number)) :=
  (lit name, Some [[Int x; Float (S754_zero false); Int 1]]).

(** Ten frames for open_door, one pose file among other files for
    pour_water, a folder without pose files for walk_stop, and no folder
    for pick_book. *)
Definition example_store (path : str) : option folder :=
  if str_eqb path (lit "new_pose_keypoints/open_door") then
    Some [ pose_file "frame_0007.json" 3; pose_file "frame_0001.json" 0;
           pose_file "frame_0002.json" 0; pose_file "frame_0003.json" 3;
           pose_file "frame_0004.json" 0; pose_file "frame_0005.json" 0;
           pose_file "frame_0006.json" 0; pose_file "frame_0000.json" 0;
           pose_file "frame_0008.json" 0; pose_file "frame_0009.json" 3 ]
  else if str_eqb path (lit "new_pose_keypoints/pour_water") then
    Some [ (lit "frame_0002.txt", None); pose_file "frame_0001.json" 2;
           (lit ".frame_0003.json", None) ]
  else if str_eqb path (lit "new_pose_keypoints/walk_stop") then
    Some [ (lit "README.txt", None) ]
  else None.

Definition example_transform (X : list (list float32)) : list (list float32) := X.

(** A classifier that reads the label index off the first feature. *)
Definition example_predict (X : list (list float32)) : list Z :=
  map (fun v => to_int (hd zero v)) X.

Definition example_chat (r : request) : result (option str) :=
  Ok (Some (dq "```json {'intent': 'go on', 'affordances': ['walk']} ```")).

End Pipeline.

(* ================================================================= *)
(** ** String methods of the scripts, and the vocabulary of the
    statements about text *)

Module Text.

(** The first code point of [s], if there is one, does not satisfy [p]: a
    strip of the code points that satisfy [p] leaves the start of [s]. *)
Definition edge (p : N -> bool) (s : str) : bool :=
  match s with
  | [] => true
  | c :: _ => negb (p c)
  end.

(** Whitespace only. *)
Definition blank (s : str) : bool := forallb isspace s.

(** The code points that [strip("`")] removes. *)
Definition backtick (c : N) : bool := existsb (N.eqb c) (lit "`").

(** [s.split(sep)] for a separator of one code point. *)
Fixpoint split (sep : N) (s : str) : list str :=
  match s with
  | [] => [[]]
  | c :: s' =>
      if (c =? sep)%N then [] :: split sep s'
      else
        match split sep s' with
        | piece :: pieces => (c :: piece) :: pieces
        | [] => [[c]]
        end
  end.

(** A response without text: no content at all, or whitespace only. *)
Definition no_text (content : option str) : bool :=
  match content with
  | None => true
  | Some c => blank c
  end.

End Text.

(* ================================================================= *)
(** ** [reasoning_agent.py]: the command line *)

Module Cli.

Import Agent Text.

(** The parsed arguments: [--action] and [--sequence], [None] by default.
    The model name of [--model] is no part of a [request]. *)
Record Args : Type := {
  action : option str;
  sequence : option str
}.

(** [[s.strip() for s in sequence.split(",") if s.strip()]] *)
Definition parse_sequence (sequence : str) : list str :=
  map strip
    (filter (fun s => truthy (PStr (strip s))) (split 44 sequence)).

(** A label as the command line can pass it on: not empty, without
    whitespace at its ends and without a comma. *)
Definition passable (l : str) : Prop :=
  l <> [] /\ strip l = l /\ ~ In 44%N l.

Section Main.

Variable lim : limits.
Variable repr : pyval -> str.
Variable chat : request -> result (option str).

(** [input(prompt)]: the line that is read from the standard input. *)
Variable input : str -> result str.

Definition main (args : Args) : io unit :=
  match sequence args with
  | Some ((_ :: _) as sequence) =>
      (* a sequence: temporal reasoning *)
      let seq := parse_sequence sequence in
      result <~ llm_temporal_reasoning lim repr chat seq ;;
      emit (PrintJson result)
  | _ =>
      (* otherwise single-action reasoning *)
      action <~ match action args with
                | Some ((_ :: _) as action) => ret action
                | _ =>
                    emit (Print (lit "=== Human Action Reasoning Agent ===")) ;;;
                    emit (Print (lit "Available labels: "
                                 ++ join (lit ", ") VALID_ACTIONS)) ;;;
                    line <~ lift (input (lit "Enter action label (e.g., open_door): ")) ;;
                    ret (strip line)
                end ;;
      match action with
      | [] => emit (Print (lit "[ERROR] Empty action label."))
      | _ :: _ =>
          result <~ llm_reasoning lim repr chat action ;;
          emit (PrintJson result)
      end
  end.

End Main.

End Cli.

(* ================================================================= *)
(** ** [full_pipeline.py]: the vocabulary of further statements *)

Module Clip.

Import Pipeline.

(** The sum of the counts of a mapping from labels to counts. *)
Fixpoint total (counts : dict) : Z :=
  match counts with
  | [] => 0
  | (_, PInt n) :: counts' => n + total counts'
  | _ :: counts' => total counts'
  end.

(** The pose files of a folder, each with its content. *)
Definition pose_entries (dir : folder) : folder :=
  filter (fun entry => is_pose_file (fst entry)) dir.

(** A computation stops at the first request that fails: a request of its
    trace on which the chat service raises is the last one sent, and the
    computation raises that exception. *)
Definition stops_at_failure {A : Type} (chat : request -> result (option str))
  (m : io A) : Prop :=
  forall before req after e,
    requests_of (fst m) = before ++ req :: after ->
    chat req = Raise e ->
    after = [] /\ snd m = Raise e.

(** A request about the roster: the per-action request for one of its
    labels, or the temporal request over a history of its labels that is
    not empty. *)
Definition about_roster (req : request) : Prop :=
  (exists l, In l ACTIONS /\ req = single_request l)
  \/ (exists history,
        history <> [] /\ Forall (fun l => In l ACTIONS) history
        /\ req = temporal_request history).

(** *** Stores and a service for examples *)

(** A store whose every folder holds one frame, predicted as index 7 by
    the example classifier. *)
Definition stray_store (path : str) : option folder :=
  Some [ pose_file "00000.json" 7 ].

(** A folder as the system may list it, with other files among the pose
    files, and the same pose files alone, in another order. *)
Definition listed_store (path : str) : option folder :=
  Some [ (lit "notes.txt", None); pose_file "00001.json" 1;
         pose_file "00000.json" 0; (lit ".00002.json", None) ].

Definition relisted_store (path : str) : option folder :=
  Some [ pose_file "00000.json" 0; pose_file "00001.json" 1 ].

(** A chat service that is down. *)
Definition failing_chat (r : request) : result (option str) := Raise APIError.

End Clip.

(* ================================================================= *)
(** ** [build_dataset.py]: the script *)

Module Builder.

Import Dataset Pipeline.

(** Directory containing pose keypoints extracted from training videos. *)
Definition POSE_DIR : str := lit "pose_keypoints".

Definition ACTIONS : list str :=
  [ lit "open_door"; lit "pick_book"; lit "pour_water"; lit "walk_stop" ].

(** [d[k] = v] for a dict from action names to label indices. *)
Fixpoint index_set (d : list (str * Z)) (k : str) (v : Z) : list (str * Z) :=
  match d with
  | [] => [(k, v)]
  | (k', v') :: d' =>
      if str_eqb k' k then (k', v) :: d' else (k', v') :: index_set d' k v
  end.

(** [{action: idx for idx, action in enumerate(ACTIONS)}] *)
Definition LABEL_MAP : list (str * Z) :=
  fold_left (fun d p => index_set d (snd p) (fst p)) (enumerate_from 0 ACTIONS) [].

(** [d[k]] *)
Fixpoint index_at (d : list (str * Z)) (k : str) : result Z :=
  match d with
  | [] => Raise KeyError
  | (k', v) :: d' => if str_eqb k' k then Ok v else index_at d' k
  end.

Section Script.

(** The limits of the machine. *)
Variable lim : limits.

(** The pose store of the training videos. *)
Variable fs : str -> option folder.

(** The loop over the pose files of one action: a feature vector and a
    label are appended for each file. *)
Fixpoint for_files (dir : folder) (action : str) (json_files : list str)
  (X_list : list (list float32)) (y_list : list Z)
  : result (list (list float32) * list Z) :=
  match json_files with
  | [] => Ok (X_list, y_list)
  | fname :: rest =>
      keypoints <- read_keypoints dir fname ;;
      feature_vec <- keypoints_to_vector lim keypoints 51 ;;
      let X_list := X_list ++ [feature_vec] in
      label <- index_at LABEL_MAP action ;;
      let y_list := y_list ++ [label] in
      for_files dir action rest X_list y_list
  end.

(** The loop over the actions. *)
Fixpoint for_actions (actions : list str) (X_list : list (list float32))
  (y_list : list Z) : io (list (list float32) * list Z) :=
  match actions with
  | [] => ret (X_list, y_list)
  | action :: rest =>
      let action_dir := path_join POSE_DIR action in
      match fs action_dir with
      | None =>
          emit (Print (lit "[WARNING] Directory not found, skipping: "
                       ++ action_dir)) ;;;
          for_actions rest X_list y_list
      | Some dir =>
          let json_files := sorted (filter is_pose_file (map fst dir)) in
          emit (Print (lit "[INFO] Processing action '" ++ action ++ lit "' ("
                       ++ str_of_int (Z.of_nat (length json_files))
                       ++ lit " frames)")) ;;;
          lists <~ lift (for_files dir action json_files X_list y_list) ;;
          for_actions rest (fst lists) (snd lists)
      end
  end.

(** [str(X.shape)] of a matrix and [str(y.shape)] of a vector. *)
Definition shape2 (X : list (list float32)) : str :=
  lit "(" ++ str_of_int (Z.of_nat (length X)) ++ lit ", "
  ++ str_of_int (Z.of_nat (length (hd [] X))) ++ lit ")".

Definition shape1 (y : list Z) : str :=
  lit "(" ++ str_of_int (Z.of_nat (length y)) ++ lit ",)".

(** The script.  Its result is the pair of arrays that it hands to
    [np.savez], which is taken to write them. *)
Definition build_dataset : io (list (list float32) * list Z) :=
  lists <~ for_actions ACTIONS [] [] ;;
  (* Stack dataset *)
  X <~ lift (np_stack (fst lists)) ;;
  let y := snd lists in
  emit (Print (lit "[INFO] Dataset built successfully")) ;;;
  emit (Print (lit "[INFO] X shape: " ++ shape2 X)) ;;;
  emit (Print (lit "[INFO] y shape: " ++ shape1 y)) ;;;
  emit (Print (lit "[INFO] Saved dataset to pose_dataset.npz")) ;;;
  ret (X, y).

(** *** The vocabulary of the statements about the script *)

(** The number of pose files of an action (none when it has no folder). *)
Definition pose_count (action : str) : nat :=
  match fs (path_join POSE_DIR action) with
  | Some dir => length (filter is_pose_file (map fst dir))
  | None => 0
  end.

(** The feature vectors of the pose files of an action, in the sorted order
    of the file names. *)
Definition features_of (action : str) : list (list float32) :=
  match fs (path_join POSE_DIR action) with
  | Some dir =>
      match load_features lim dir (sorted (filter is_pose_file (map fst dir))) with
      | Ok features => features
      | Raise _ => []
      end
  | None => []
  end.

(** Every stored detection of the roster is one that the encoder takes:
    it is missing, or made of triples of convertible numbers. *)
Definition store_encodable : Prop :=
  forall action dir,
    In action ACTIONS -> fs (path_join POSE_DIR action) = Some dir ->
    Forall (fun entry => encodable (snd entry)) dir.

End Script.


(** *** A store for examples *)

(** Two pose files for open_door, one of them without a detection; a pose
    file and a hidden file for walk_stop; no other folder. *)
Definition training_store (path : str) : option folder :=
  if str_eqb path (lit "pose_keypoints/open_door") then
    Some [ pose_file "00001.json" 5; (lit "00000.json", None) ]
  else if str_eqb path (lit "pose_keypoints/walk_stop") then
    Some [ pose_file "00000.json" 9; (lit ".DS_Store", None) ]
  else None.

(** No folder at all. *)
Definition empty_store (path : str) : option folder := None.

End Builder.

(* ================================================================= *)
(** ** [test_new_actions.py] *)

Module Tester.

Import Dataset Pipeline.

Definition NEW_POSE_DIR : str := lit "new_pose_keypoints".

Definition ACTIONS : list str :=
  [ lit "open_door"; lit "pick_book"; lit "pour_water"; lit "walk_stop" ].

(** [{i: a for i, a in enumerate(ACTIONS)}] *)
Definition label_map : list (Z * str) := enumerate_from 0 ACTIONS.

(** [counts[k] += 1]: a new key goes last. *)
Fixpoint counter_add (counts : list (Z * nat)) (k : Z) : list (Z * nat) :=
  match counts with
  | [] => [(k, 1)]
  | (k', n) :: counts' =>
      if (k' =? k)%Z then (k', S n) :: counts' else (k', n) :: counter_add counts' k
  end.

(** [Counter(preds)]: the distinct values with their counts, in the order
    in which they first appear. *)
Definition Counter (preds : list Z) : list (Z * nat) :=
  fold_left counter_add preds [].

(** [max(items, key=itemgetter(1))] with [best] the largest so far: a later
    item replaces it only when its count is larger. *)
Fixpoint max_by_count (best : Z * nat) (items : list (Z * nat)) : Z * nat :=
  match items with
  | [] => best
  | item :: items' =>
      max_by_count (if snd best <? snd item then item else best) items'
  end.

(** [counts.most_common(1)] *)
Definition most_common_1 (counts : list (Z * nat)) : list (Z * nat) :=
  match counts with
  | [] => []
  | item :: items => [max_by_count item items]
  end.

(** [items[0]] *)
Definition first_item (items : list (Z * nat)) : result (Z * nat) :=
  match items with
  | item :: _ => Ok item
  | [] => Raise IndexError
  end.

(** [{label_map[k]: v for k, v in counts.items()}] *)
Fixpoint label_counts (items : list (Z * nat)) (acc : dict) : result dict :=
  match items with
  | [] => Ok acc
  | (k, v) :: items' =>
      label <- label_at label_map k ;;
      label_counts items' (dict_set acc label (PInt (Z.of_nat v)))
  end.

Section Script.

Variable lim : limits.
Variable fs : str -> option folder.
Variable transform : list (list float32) -> list (list float32).
Variable predict : list (list float32) -> list Z.

Definition kp_to_vector (kps : option (list (list number))) (dim : Z)
  : result (list float32) :=
  match kps with
  | None => np_zeros lim dim
  | Some rows =>
      flat <- flatten3 rows ;;
      if (dim <=? Z.of_nat (length flat))%Z then Ok (prefix flat dim)
      else
        out <- np_zeros lim dim ;;
        Ok (flat ++ skipn (length flat) out)
  end.

(** The loop over the pose files of one action. *)
Fixpoint load_frames (dir : folder) (files : list str)
  : result (list (list float32)) :=
  match files with
  | [] => Ok []
  | fname :: rest =>
      kps <- read_keypoints dir fname ;;
      vec <- kp_to_vector kps 51 ;;
      X_frames <- load_frames dir rest ;;
      Ok (vec :: X_frames)
  end.

(** The loop over the actions. *)
Fixpoint for_actions (actions : list str) : io unit :=
  match actions with
  | [] => ret tt
  | action :: rest =>
      let action_dir := path_join NEW_POSE_DIR action in
      match fs action_dir with
      | None =>
          emit (Print (lit "Warning: " ++ action_dir ++ lit " not found, skip")) ;;;
          for_actions rest
      | Some dir =>
          let files := sorted (filter is_pose_file (map fst dir)) in
          emit (Print (lit "Processing new action video: " ++ action ++ lit " ("
                       ++ str_of_int (Z.of_nat (length files)) ++ lit " frames)")) ;;;
          X_frames <~ lift (load_frames dir files) ;;
          X_frames <~ lift (np_stack X_frames) ;;
          let X_frames_scaled := transform X_frames in
          (* frame-level predictions *)
          let preds := predict X_frames_scaled in
          let counts := Counter preds in
          top <~ lift (first_item (most_common_1 counts)) ;;
          let majority_label := fst top in
          majority_action <~ lift (label_at label_map majority_label) ;;
          emit (Print (lit "  Majority prediction: " ++ majority_action)) ;;;
          frame_label_counts <~ lift (label_counts counts []) ;;
          emit (PrintCounts (lit "  Frame label counts: ") frame_label_counts) ;;;
          for_actions rest
      end
  end.

Definition test_new_actions : io unit :=
  emit (Print (lit "Testing on NEW videos..." ++ newline)) ;;;
  for_actions ACTIONS.

End Script.


End Tester.

(* ================================================================= *)
(** * Properties of the embedding *)

Module JsonFacts.

Import Json.

(** *** The fuel of [loads] is enough *)

Lemma skip_ws_length (s : str) : length (skip_ws s) <= length s.
Proof.
  induction s as [| c s IH]; cbn; [ lia |].
  destruct (is_ws c); cbn; lia.
Qed.

Lemma scan_pieces_shorter_upto (n : nat) (s : str) :
  length s <= n ->
  forall ps r, scan_pieces s = Some (ps, r) -> length r < length s.
Proof.
  revert s. induction n as [| n IH]; intros s Hn ps r.
  { destruct s; [ discriminate | cbn in Hn; lia ]. }
  destruct s as [| c s1]; cbn [scan_pieces]; [ discriminate |].
  cbn [length] in Hn.
  destruct (c =? 34)%N.
  { intros [= <- <-]. cbn. lia. }
  destruct (c =? 92)%N.
  - destruct s1 as [| e s2]; [ discriminate |].
    destruct (e =? 117)%N.
    + destruct s2 as [| h1 [| h2 [| h3 [| h4 s3]]]]; try discriminate.
      destruct (hex4 h1 h2 h3 h4); [| discriminate ].
      destruct (scan_pieces s3) as [[ps' r'] |] eqn:E; [| discriminate ].
      intros [= <- <-]. apply IH in E; cbn in *; lia.
    + destruct (simple_escape e); [| discriminate ].
      destruct (scan_pieces s2) as [[ps' r'] |] eqn:E; [| discriminate ].
      intros [= <- <-]. apply IH in E; cbn in *; lia.
  - destruct (c <? 32)%N; [ discriminate |].
    destruct (scan_pieces s1) as [[ps' r'] |] eqn:E; [| discriminate ].
    intros [= <- <-]. apply IH in E; cbn in *; lia.
Qed.

Lemma scan_pieces_shorter (s : str) ps r :
  scan_pieces s = Some (ps, r) -> length r < length s.
Proof. now apply (scan_pieces_shorter_upto (length s)). Qed.

Lemma scanstring_shorter (s v r : str) :
  scanstring s = Some (v, r) -> length r < length s.
Proof.
  unfold scanstring. destruct (scan_pieces s) as [[ps r'] |] eqn:E; [| discriminate ].
  intros [= <- <-]. now apply scan_pieces_shorter in E.
Qed.

Lemma span_digits_length (s : str) : length (snd (span_digits s)) <= length s.
Proof.
  induction s as [| c s IH]; cbn; [ lia |].
  destruct (is_digit c); cbn; [| lia ].
  destruct (span_digits s); cbn in *; lia.
Qed.

Lemma after_length (word s r : str) :
  after word s = Some r -> length s = length word + length r.
Proof.
  revert s. induction word as [| w word IH]; intros s; cbn.
  - now intros [= ->].
  - destruct s as [| c s]; [ discriminate |].
    destruct (w =? c)%N; [| discriminate ].
    intros H. apply IH in H. cbn. lia.
Qed.

Lemma match_frac_length (s : str) : length (snd (match_frac s)) <= length s.
Proof.
  destruct s as [| c r]; cbn; [ lia |].
  destruct (c =? 46)%N; cbn; [| lia ].
  pose proof (span_digits_length r) as H.
  destruct (span_digits r) as [[| d ds] r']; cbn in *; lia.
Qed.

Lemma match_exp_length (s : str) : length (snd (match_exp s)) <= length s.
Proof.
  destruct s as [| c r]; cbn; [ lia |].
  destruct ((c =? 101) || (c =? 69))%N; cbn; [| lia ].
  destruct r as [| g r0]; cbn; [ lia |].
  destruct ((g =? 43) || (g =? 45))%N.
  - pose proof (span_digits_length r0) as H.
    destruct (span_digits r0) as [[| d ds] r']; cbn in *; lia.
  - pose proof (span_digits_length (g :: r0)) as H.
    destruct (span_digits (g :: r0)) as [[| d ds] r']; cbn in *; lia.
Qed.

Lemma match_integer_shorter (s : str) neg ds r :
  match_integer s = Some (neg, ds, r) -> length r < length s.
Proof.
  unfold match_integer.
  assert (G : forall s1, length s1 <= length s ->
            match s1 with
            | [] => None
            | d :: r0 =>
                if (d =? 48)%N then Some (neg, [d], r0)
                else if is_digit d
                     then let (ds0, r') := span_digits r0 in Some (neg, d :: ds0, r')
                     else None
            end = Some (neg, ds, r) -> length r < length s).
  { intros [| d r0] Hl; [ discriminate |]. cbn in Hl.
    destruct (d =? 48)%N; [ intros [= <- <-]; lia |].
    destruct (is_digit d); [| discriminate ].
    pose proof (span_digits_length r0) as H.
    destruct (span_digits r0) as [ds0 r']. intros [= <- <-]. cbn in H. lia. }
  destruct s as [| c r0]; [ discriminate |].
  destruct (c =? 45)%N.
  - intros H. destruct r0 as [| d r1]; [ discriminate |].
    revert H. destruct (d =? 48)%N; [ intros [= <- <- <-]; cbn; lia |].
    destruct (is_digit d); [| discriminate ].
    pose proof (span_digits_length r1) as Hs.
    destruct (span_digits r1) as [ds0 r']. intros [= <- <- <-]. cbn in *. lia.
  - intros H. revert H. destruct (c =? 48)%N; [ intros [= <- <- <-]; cbn; lia |].
    destruct (is_digit c); [| discriminate ].
    pose proof (span_digits_length r0) as Hs.
    destruct (span_digits r0) as [ds0 r']. intros [= <- <- <-]. cbn in *. lia.
Qed.

Lemma match_number_shorter (max_digits : nat) (s : str) v r :
  match_number max_digits s = Some (v, r) -> length r < length s.
Proof.
  unfold match_number.
  destruct (match_integer s) as [[[neg ds] r0] |] eqn:E; [| discriminate ].
  apply match_integer_shorter in E.
  pose proof (match_frac_length r0) as Hf.
  destruct (match_frac r0) as [frac r1]. cbn in Hf.
  pose proof (match_exp_length r1) as He.
  destruct (match_exp r1) as [ex r2]. cbn in He.
  destruct frac, ex; try destruct (too_many_digits _ _); intros [= <- <-]; lia.
Qed.

Lemma scan_atom_shorter (max_digits depth : nat) (s : str) v r :
  scan_atom max_digits depth s = Scanned v r -> length r < length s.
Proof.
  unfold scan_atom, constant.
  repeat match goal with
  | |- context [after ?w s] =>
      let E := fresh "E" in
      destruct (after w s) eqn:E;
      [ apply after_length in E; cbn in E;
        try (destruct depth; [ discriminate |]); intros [= <- <-]; lia |]
  | |- context [match_number max_digits s] =>
      let E := fresh "E" in
      destruct (match_number max_digits s) as [[[v' | e'] r'] |] eqn:E;
      [ apply match_number_shorter in E; intros [= <- <-]; lia
      | discriminate |]
  end.
  discriminate.
Qed.

Lemma scan_atom_fed (max_digits depth : nat) (s : str) :
  scan_atom max_digits depth s <> Starved.
Proof.
  unfold scan_atom, constant.
  repeat match goal with
  | |- context [after ?w s] =>
      destruct (after w s); [ try destruct depth; discriminate |]
  | |- context [match_number max_digits s] =>
      destruct (match_number max_digits s) as [[[v' | e'] r'] |];
      [ discriminate | discriminate |]
  end.
  discriminate.
Qed.

Lemma malformed_at_fed (depth : nat) : malformed_at depth <> Starved.
Proof. unfold malformed_at. destruct (3 <=? depth); discriminate. Qed.

Lemma malformed_at_scanned (depth : nat) v r : malformed_at depth <> Scanned v r.
Proof. unfold malformed_at. destruct (3 <=? depth); discriminate. Qed.

Lemma malformed_at_raises (depth : nat) (e : exn) :
  malformed_at depth = Raised e -> e = RecursionError.
Proof. unfold malformed_at. destruct (3 <=? depth); [ discriminate | now intros [= <-] ]. Qed.

(** What the scan of an atom raises is the [ValueError] of an integer
    literal that is too long, or the [RecursionError] of a constant. *)
Lemma scan_atom_raises (max_digits depth : nat) (s : str) (e : exn) :
  scan_atom max_digits depth s = Raised e -> e = ValueError \/ e = RecursionError.
Proof.
  unfold scan_atom, constant.
  repeat match goal with
  | |- context [after ?w s] => destruct (after w s); [ discriminate |]
  end.
  unfold match_number.
  destruct (match_integer s) as [[[neg ds] r0] |].
  2:{ repeat match goal with
      | |- context [after ?w s] =>
          destruct (after w s);
          [ destruct depth; [ intros [= <-]; now right | discriminate ] |]
      end. discriminate. }
  destruct (match_frac r0) as [frac r1]. destruct (match_exp r1) as [ex r2].
  destruct frac, ex; try destruct (too_many_digits _ _); try discriminate.
  intros [= <-]. now left.
Qed.

Section Fuel.

Variable max_digits : nat.

Ltac stuck :=
  split; [ first [ discriminate | apply malformed_at_fed ]
         | intros ? ? H; first [ discriminate H
                               | now destruct (malformed_at_scanned _ _ _ H) ] ].

(** With more than twice the length of the text as fuel no scan starves,
    and what a scan leaves is shorter than what it was given. *)
Lemma fuel_enough (fuel : nat) :
  (forall depth s, 2 * length s < fuel ->
     scan_once max_digits fuel depth s <> Starved /\
     forall v r, scan_once max_digits fuel depth s = Scanned v r ->
                 length r < length s) /\
  (forall depth s acc, 2 * length s + 1 < fuel ->
     parse_items max_digits fuel depth s acc <> Starved /\
     forall v r, parse_items max_digits fuel depth s acc = Scanned v r ->
                 length r < length s) /\
  (forall depth s acc, 2 * length s + 1 < fuel ->
     parse_members max_digits fuel depth s acc <> Starved /\
     forall v r, parse_members max_digits fuel depth s acc = Scanned v r ->
                 length r < length s).
Proof.
  induction fuel as [| fuel (IHv & IHi & IHm)].
  { repeat split; intros; lia. }
  split; [| split ].
  - intros depth s Hf. cbn [scan_once].
    destruct s as [| c s1]; [ stuck |].
    cbn [length] in Hf.
    destruct (c =? 34)%N.
    { destruct (scanstring s1) as [[v0 r0] |] eqn:E; [| stuck ].
      apply scanstring_shorter in E.
      split; [ discriminate | intros v r [= <- <-]; cbn; lia ]. }
    destruct (c =? 123)%N.
    { destruct depth as [| depth']; [ stuck |].
      pose proof (skip_ws_length s1) as Hw.
      destruct (skip_ws s1) as [| c2 r0]; [ stuck |].
      destruct (c2 =? 125)%N.
      - split; [ discriminate | intros v r [= <- <-]; cbn in *; lia ].
      - destruct (IHm depth' (c2 :: r0) []) as [H1 H2]; [ cbn in *; lia |].
        split; [ exact H1 |].
        intros v r H. apply H2 in H. cbn in *. lia. }
    destruct (c =? 91)%N.
    { destruct depth as [| depth']; [ stuck |].
      pose proof (skip_ws_length s1) as Hw.
      destruct (skip_ws s1) as [| c2 r0]; [ stuck |].
      destruct (c2 =? 93)%N.
      - split; [ discriminate | intros v r [= <- <-]; cbn in *; lia ].
      - destruct (IHi depth' (c2 :: r0) []) as [H1 H2]; [ cbn in *; lia |].
        split; [ exact H1 |].
        intros v r H. apply H2 in H. cbn in *. lia. }
    split; [ apply scan_atom_fed |].
    intros v r H. apply scan_atom_shorter in H. exact H.
  - intros depth s acc Hf. cbn [parse_items].
    destruct (IHv depth s) as [H1 H2]; [ lia |].
    destruct (scan_once max_digits fuel depth s) as [v0 r0 | | | e0 |] eqn:E;
      [| stuck | stuck | stuck | now destruct H1 ].
    specialize (H2 _ _ eq_refl).
    pose proof (skip_ws_length r0) as Hw.
    destruct (skip_ws r0) as [| c r2]; [ stuck |].
    destruct (c =? 93)%N.
    { split; [ discriminate | intros v r [= <- <-]; cbn in *; lia ]. }
    destruct (c =? 44)%N; [| stuck ].
    pose proof (skip_ws_length r2) as Hw2.
    destruct (IHi depth (skip_ws r2) (v0 :: acc)) as [H3 H4]; [ cbn in *; lia |].
    split; [ exact H3 |].
    intros v r H. apply H4 in H. cbn in *. lia.
  - intros depth s acc Hf. cbn [parse_members].
    destruct s as [| q s1]; [ stuck |].
    destruct (q =? 34)%N; [| stuck ].
    destruct (scanstring s1) as [[key r0] |] eqn:E; [| stuck ].
    apply scanstring_shorter in E.
    pose proof (skip_ws_length r0) as Hw.
    destruct (skip_ws r0) as [| colon r1]; [ stuck |].
    destruct (colon =? 58)%N; [| stuck ].
    pose proof (skip_ws_length r1) as Hw1.
    destruct (IHv depth (skip_ws r1)) as [H1 H2]; [ cbn in *; lia |].
    destruct (scan_once max_digits fuel depth (skip_ws r1))
      as [v0 r2 | | | e0 |] eqn:E2;
      [| stuck | stuck | stuck | now destruct H1 ].
    specialize (H2 _ _ eq_refl).
    pose proof (skip_ws_length r2) as Hw2.
    destruct (skip_ws r2) as [| c r3]; [ stuck |].
    destruct (c =? 125)%N.
    { split; [ discriminate | intros v r [= <- <-]; cbn in *; lia ]. }
    destruct (c =? 44)%N; [| stuck ].
    pose proof (skip_ws_length r3) as Hw3.
    destruct (IHm depth (skip_ws r3) (dict_set acc key v0)) as [H3 H4];
      [ cbn in *; lia |].
    split; [ exact H3 |].
    intros v r H. apply H4 in H. cbn in *. lia.
Qed.

(** [loads] never stops for lack of fuel: a [JSONDecodeError] of the model
    is a text that the decoder rejects. *)
Lemma loads_fed (depth : nat) (s : str) :
  scan_once max_digits (2 * length s + 1) depth (skip_ws s) <> Starved.
Proof.
  apply fuel_enough. pose proof (skip_ws_length s). lia.
Qed.

Ltac raised :=
  first [ discriminate
        | intros H; right; exact (malformed_at_raises _ _ H) ].

(** A scan raises nothing but the two exceptions of the limits. *)
Lemma scan_raises (fuel : nat) :
  (forall depth s e, scan_once max_digits fuel depth s = Raised e ->
     e = ValueError \/ e = RecursionError) /\
  (forall depth s acc e, parse_items max_digits fuel depth s acc = Raised e ->
     e = ValueError \/ e = RecursionError) /\
  (forall depth s acc e, parse_members max_digits fuel depth s acc = Raised e ->
     e = ValueError \/ e = RecursionError).
Proof.
  induction fuel as [| fuel (IHv & IHi & IHm)].
  { repeat split; intros; discriminate. }
  split; [| split ].
  - intros depth s e. cbn [scan_once].
    destruct s as [| c s1]; [ discriminate |].
    destruct (c =? 34)%N.
    { destruct (scanstring s1) as [[v0 r0] |]; raised. }
    destruct (c =? 123)%N.
    { destruct depth as [| depth']; [ intros [= <-]; now right |].
      destruct (skip_ws s1) as [| c2 r0]; [ raised |].
      destruct (c2 =? 125)%N; [ discriminate | apply IHm ]. }
    destruct (c =? 91)%N.
    { destruct depth as [| depth']; [ intros [= <-]; now right |].
      destruct (skip_ws s1) as [| c2 r0]; [ discriminate |].
      destruct (c2 =? 93)%N; [ discriminate | apply IHi ]. }
    apply scan_atom_raises.
  - intros depth s acc e. cbn [parse_items].
    destruct (scan_once max_digits fuel depth s) as [v0 r0 | | | e0 |] eqn:E;
      try discriminate.
    + destruct (skip_ws r0) as [| c r2]; [ raised |].
      destruct (c =? 93)%N; [ discriminate |].
      destruct (c =? 44)%N; [ apply IHi | raised ].
    + intros [= <-]. exact (IHv _ _ _ E).
  - intros depth s acc e. cbn [parse_members].
    destruct s as [| q s1]; [ raised |].
    destruct (q =? 34)%N; [| raised ].
    destruct (scanstring s1) as [[key r0] |]; [| raised ].
    destruct (skip_ws r0) as [| colon r1]; [ raised |].
    destruct (colon =? 58)%N; [| raised ].
    destruct (scan_once max_digits fuel depth (skip_ws r1))
      as [v0 r2 | | | e0 |] eqn:E;
      try discriminate.
    + destruct (skip_ws r2) as [| c r3]; [ raised |].
      destruct (c =? 125)%N; [ discriminate |].
      destruct (c =? 44)%N; [ apply IHm | raised ].
    + intros [= <-]. exact (IHv _ _ _ E).
Qed.

End Fuel.

(** [json.loads] raises [JSONDecodeError], or one of the two exceptions
    of the limits. *)
Lemma loads_raises (lim : limits) (s : str) (e : exn) :
  loads lim s = Raise e ->
  e = JSONDecodeError \/ e = ValueError \/ e = RecursionError.
Proof.
  unfold loads. destruct (startswith _ _); [ intros [= <-]; now left |].
  destruct (scan_once _ _ _ _) as [v r | | | e0 |] eqn:E.
  - destruct (skip_ws r); [ discriminate | intros [= <-]; now left ].
  - intros [= <-]. now left.
  - intros [= <-]. now left.
  - intros [= <-]. right. exact (proj1 (scan_raises _ _) _ _ _ E).
  - intros [= <-]. now left.
Qed.

End JsonFacts.

Module AgentFacts.

Import Agent.

Arguments get_or : simpl never.
Arguments str_text : simpl never.
Arguments list_text : simpl never.

Lemma bind_ok A B (m : result A) (a : A) (k : A -> result B) :
  m = Ok a -> bind m k = k a.
Proof. now intros ->. Qed.

Section NormalizerFacts.

Variable lim : limits.
Variable repr : pyval -> str.

Lemma strs_upto_add (l extra : list str) (n : nat) :
  PList (firstn n (map PStr l ++ map PStr extra)) = strs (firstn n (l ++ extra)).
Proof. unfold strs. now rewrite <- map_app, firstn_map. Qed.

Lemma backfill_affordances i n e sc ko ag af co tg cu fu ta :
  backfill (single_dict i n e sc ko ag af co tg cu fu ta)
    (lit "affordances") 3 canned_affordances 5
  = Ok (single_dict i n e sc ko ag (top_up 3 canned_affordances 5 af) co tg cu fu ta).
Proof.
  unfold backfill, top_up. cbn -[Nat.ltb firstn app]. rewrite length_map.
  destruct (length af <? 3); [| reflexivity].
  unfold single_dict. now rewrite <- strs_upto_add.
Qed.

Lemma backfill_constraints i n e sc ko ag af co tg cu fu ta :
  backfill (single_dict i n e sc ko ag af co tg cu fu ta)
    (lit "constraints") 2 canned_constraints 4
  = Ok (single_dict i n e sc ko ag af (top_up 2 canned_constraints 4 co) tg cu fu ta).
Proof.
  unfold backfill, top_up. cbn -[Nat.ltb firstn app]. rewrite length_map.
  destruct (length co <? 2); [| reflexivity].
  unfold single_dict. now rewrite <- strs_upto_add.
Qed.

Lemma backfill_future_steps i n e sc ko ag af co tg cu fu ta :
  backfill (single_dict i n e sc ko ag af co tg cu fu ta)
    (lit "future_steps") 2 canned_future_steps 4
  = Ok (single_dict i n e sc ko ag af co tg cu (top_up 2 canned_future_steps 4 fu) ta).
Proof.
  unfold backfill, top_up. cbn -[Nat.ltb firstn app]. rewrite length_map.
  destruct (length fu <? 2); [| reflexivity].
  unfold single_dict. now rewrite <- strs_upto_add.
Qed.

Lemma fill_targets_view i n e sc ko ag af co tg cu fu ta :
  fill_targets (single_dict i n e sc ko ag af co tg cu fu ta)
  = Ok (single_dict i n e sc ko ag af co tg cu fu (top_up_targets ko ta)).
Proof.
  unfold fill_targets, top_up_targets. cbn -[Nat.ltb firstn app]. rewrite length_map.
  destruct (length ta <? 2); [| reflexivity].
  destruct ko as [| k ko']; cbn -[firstn app];
    unfold single_dict; now rewrite <- strs_upto_add.
Qed.

(** The single-action normalizer never raises: it returns the object of
    the declared schema that [single_view] describes. *)
Lemma normalize_single_view (data : pyval) :
  _normalize_single_action_json repr data
  = Ok (reasoning_object (single_view repr data)).
Proof.
  unfold _normalize_single_action_json.
  cbn -[backfill fill_targets].
  erewrite bind_ok; [| apply backfill_affordances ].
  erewrite bind_ok; [| apply backfill_constraints ].
  erewrite bind_ok; [| apply backfill_future_steps ].
  rewrite fill_targets_view.
  reflexivity.
Qed.

Lemma normalize_temporal_view (data : pyval) :
  _normalize_temporal_json repr data
  = Ok (temporal_object (temporal_view repr data)).
Proof. reflexivity. Qed.

(** Within the limits the handler of [JSONDecodeError] leaves a value. *)
Lemma loads_or_decoded (fallback : str -> pyval) (rawText : str) :
  within_limits lim rawText = true ->
  loads_or lim fallback (_strip_code_fences rawText)
  = Ok (decoded lim fallback rawText).
Proof.
  unfold within_limits, loads_or, decoded.
  destruct (Json.loads lim (_strip_code_fences rawText)) as [data | []];
    try reflexivity; discriminate.
Qed.


Lemma normalizeSingle_view (rawText : str) :
  within_limits lim rawText = true ->
  normalizeSingle lim repr rawText
  = Ok (reasoning_object (single_view repr (decoded lim single_fallback rawText))).
Proof.
  intros H. unfold normalizeSingle. rewrite (loads_or_decoded _ _ H).
  apply normalize_single_view.
Qed.

Lemma normalizeTemporal_view (rawText : str) :
  within_limits lim rawText = true ->
  normalizeTemporal lim repr rawText
  = Ok (temporal_object (temporal_view repr (decoded lim temporal_fallback rawText))).
Proof.
  intros H. unfold normalizeTemporal. rewrite (loads_or_decoded _ _ H).
  apply normalize_temporal_view.
Qed.


(** The empty text is not JSON, whatever the limits. *)
Lemma loads_empty : Json.loads lim [] = Raise JSONDecodeError.
Proof. reflexivity. Qed.

End NormalizerFacts.

Section NormalizerTheorems.

Variable repr : pyval -> str.

Lemma top_up_lower minimum canned cap l :
  minimum <= length canned -> minimum <= cap ->
  minimum <= length (top_up minimum canned cap l).
Proof.
  intros Hc Hcap. unfold top_up.
  destruct (length l <? minimum) eqn:E.
  - rewrite length_firstn, length_app. lia.
  - apply Nat.ltb_ge in E. exact E.
Qed.

Lemma top_up_upper minimum canned cap l :
  length l <= cap -> length (top_up minimum canned cap l) <= cap.
Proof.
  intros H. unfold top_up. destruct (length l <? minimum); [| exact H].
  rewrite length_firstn. lia.
Qed.

Lemma top_up_keeps minimum canned cap l :
  minimum <= length l -> top_up minimum canned cap l = l.
Proof.
  intros H. unfold top_up. apply Nat.ltb_ge in H. now rewrite H.
Qed.

Lemma top_up_prefix minimum canned cap l :
  minimum <= cap ->
  exists extra, top_up minimum canned cap l = l ++ extra.
Proof.
  intros Hcap. unfold top_up. destruct (length l <? minimum) eqn:E.
  - apply Nat.ltb_lt in E. rewrite firstn_app.
    rewrite firstn_all2 by lia. eauto.
  - exists []. now rewrite app_nil_r.
Qed.


Lemma top_up_targets_upper ko l :
  length l <= 4 -> length (top_up_targets ko l) <= 4.
Proof.
  intros H. unfold top_up_targets. destruct (length l <? 2); [| exact H].
  destruct ko; rewrite length_firstn; lia.
Qed.

Lemma top_up_targets_keeps ko l :
  2 <= length l -> top_up_targets ko l = l.
Proof.
  intros H. unfold top_up_targets. apply Nat.ltb_ge in H. now rewrite H.
Qed.

Lemma top_up_targets_prefix ko l :
  exists extra, top_up_targets ko l = l ++ extra.
Proof.
  unfold top_up_targets. destruct (length l <? 2) eqn:E.
  - apply Nat.ltb_lt in E.
    destruct ko; rewrite firstn_app; rewrite firstn_all2 by lia; eauto.
  - exists []. now rewrite app_nil_r.
Qed.







End NormalizerTheorems.

(** *** The single-action normalizer on malformed responses *)

Example malformed_empty : malformed cpython empty_response = true.
Proof. reflexivity. Qed.

Example malformed_truncated : malformed cpython truncated_response = true.
Proof. vm_compute. reflexivity. Qed.

Example malformed_keyless : malformed cpython keyless_response = true.
Proof. vm_compute. reflexivity. Qed.

Example malformed_mistyped : malformed cpython mistyped_response = true.
Proof. vm_compute. reflexivity. Qed.




(** *** The target objects *)

(** C2.  The code at the failing input: the response names one key object
    and no target object; the normalizer borrows the key object and stops,
    and [target_objects] is returned with a single entry. *)
Theorem target_objects_one_borrowed (lim : limits) (repr : pyval -> str) :
  normalizeSingle lim repr one_key_object_response
  = Ok (reasoning_object
          {| intent := []; next_step := []; explanation := [];
             environment := {| scene_type := lit "corridor";
                               key_objects := [lit "door"] |};
             agent_state := [];
             affordances := canned_affordances;
             constraints := canned_constraints;
             task_goal := []; current_step := [];
             future_steps := canned_future_steps;
             target_objects := [lit "door"] |}).
Proof. destruct lim as [digits depth capacity]. vm_compute. reflexivity. Qed.

(** *** The temporal normalizer on the empty string *)

(** C3, as the code has it.  [normalizeTemporal] applied to the empty
    string does not raise; it returns the object whose strings are empty,
    whose [step_roles] and [future_plan] are empty, and whose
    [uncertainty_notes] holds one entry, the (empty) raw text. *)
Theorem normalizeTemporal_empty (lim : limits) (repr : pyval -> str) :
  normalizeTemporal lim repr []
  = Ok (temporal_object
          {| overall_task := []; step_roles := []; possible_goal := [];
             future_plan := []; uncertainty_notes := [ [] ] |}).
Proof.
  rewrite normalizeTemporal_view by reflexivity.
  (* the decoder rejects the empty text, so the fallback is normalized *)
  change (decoded lim temporal_fallback []) with (temporal_fallback []).
  reflexivity.
Qed.

(** C3 as stated fails: the result is not the object with empty lists. *)
Lemma normalizeTemporal_empty_not_default :
  normalizeTemporal cpython no_repr []
  <> Ok (temporal_object
           {| overall_task := []; step_roles := []; possible_goal := [];
              future_plan := []; uncertainty_notes := [] |}).
Proof. vm_compute. discriminate. Qed.

(** *** Cardinalities for every response *)

(** C4 as stated fails: six affordances of the response are all returned. *)
Lemma six_affordances_kept :
  normalizeSingle cpython no_repr six_affordances_response
  = Ok (reasoning_object
          {| intent := []; next_step := []; explanation := [];
             environment := {| scene_type := []; key_objects := [] |};
             agent_state := [];
             affordances := [ lit "walk"; lit "reach"; lit "grasp";
                              lit "turn"; lit "push"; lit "enter" ];
             constraints := canned_constraints;
             task_goal := []; current_step := [];
             future_steps := canned_future_steps;
             target_objects := canned_targets |})
  /\ ~ (length [ lit "walk"; lit "reach"; lit "grasp";
                 lit "turn"; lit "push"; lit "enter" ] <= 5).
Proof. split; [ vm_compute; reflexivity | cbn; lia ]. Qed.

(** C4, as the code has it.  For every text on which the decoder stays
    within the limits of the interpreter, the returned object has at least
    3 affordances, 2 constraints and 2 future steps, and each of the four
    lists starts with the entries of the response, none dropped.  A list
    is within its cap (5, 4, 4, 4) exactly when the response gives at most
    that many entries for it; a longer list is returned as it is. *)
Theorem normalizeSingle_cardinality (lim : limits) (repr : pyval -> str)
  (rawText : str) :
  within_limits lim rawText = true ->
  exists r : ReasoningObject,
    normalizeSingle lim repr rawText = Ok (reasoning_object r) /\
    let given := list_field repr (decoded lim single_fallback rawText) in
    (3 <= length (affordances r) /\ 2 <= length (constraints r)
     /\ 2 <= length (future_steps r)) /\
    ((length (affordances r) <= 5 <-> length (given (lit "affordances")) <= 5)
     /\ (length (constraints r) <= 4 <-> length (given (lit "constraints")) <= 4)
     /\ (length (future_steps r) <= 4 <-> length (given (lit "future_steps")) <= 4)
     /\ (length (target_objects r) <= 4 <-> length (given (lit "target_objects")) <= 4)) /\
    ((exists extra, affordances r = given (lit "affordances") ++ extra)
     /\ (exists extra, constraints r = given (lit "constraints") ++ extra)
     /\ (exists extra, future_steps r = given (lit "future_steps") ++ extra)
     /\ (exists extra, target_objects r = given (lit "target_objects") ++ extra)).
Proof.
  intros Hw.
  exists (single_view repr (decoded lim single_fallback rawText)).
  split; [ now apply normalizeSingle_view |].
  cbn zeta. set (data := decoded lim single_fallback rawText).
  cbn [single_view affordances constraints future_steps target_objects].
  split; [| split].
  - repeat split; apply top_up_lower; cbn; lia.
  - assert (cap : forall minimum canned n l, minimum <= n ->
              (length (top_up minimum canned n l) <= n <-> length l <= n)).
    { intros m c n l Hm. split; [| apply top_up_upper ].
      destruct (top_up_prefix m c n l Hm) as [x ->]. rewrite length_app. lia. }
    repeat split; try (apply cap; lia); try (apply top_up_targets_upper).
    all: destruct (top_up_targets_prefix
                     (list_field repr (env_of data) (lit "key_objects"))
                     (list_field repr data (lit "target_objects"))) as [x ->];
      rewrite length_app; lia.
  - repeat split; try (apply top_up_prefix; lia); apply top_up_targets_prefix.
Qed.

Lemma normalizeSingle_cardinality_witness :
  exists r : ReasoningObject,
    normalizeSingle cpython no_repr well_formed_response = Ok (reasoning_object r) /\
    3 <= length (affordances r) /\ 2 <= length (constraints r)
    /\ 2 <= length (future_steps r).
Proof.
  destruct (normalizeSingle_cardinality cpython no_repr well_formed_response)
    as (r & H & Hlow & _).
  - vm_compute. reflexivity.
  - exists r. split; [ exact H | exact Hlow ].
Defined.

(** *** Text that is not a JSON object *)

(** C5 as stated fails: a JSON array is no JSON object, and its text is
    not kept in the explanation, which is empty. *)
Lemma json_array_text_lost :
  (forall d, Json.loads cpython (_strip_code_fences json_array_response)
             <> Ok (PDict d))
  /\ normalizeSingle cpython no_repr json_array_response
     = Ok (reasoning_object (degraded_object []))
  /\ contains (_strip_code_fences json_array_response)
       (explanation (degraded_object [])) = false.
Proof.
  split; [| split ].
  - intros d. vm_compute. discriminate.
  - vm_compute. reflexivity.
  - vm_compute. reflexivity.
Qed.

(** C5, as the code has it.  For a text that does not decode to a JSON
    object: when the text is not JSON at all (the decoder raises
    [JSONDecodeError]) nothing is raised and the empty placeholder is
    normalized, with the sanitized text as the explanation; when the text
    is JSON of another kind (an array, a string, a number, a literal)
    nothing is raised either and the explanation is empty; every other
    string is empty and the lists are the canned ones.  Only
    [JSONDecodeError] is handled: when the decoder meets a limit of the
    interpreter its [ValueError] or [RecursionError] is raised on. *)
Theorem normalizeSingle_not_an_object (lim : limits) (repr : pyval -> str)
  (rawText : str) :
  (forall d, Json.loads lim (_strip_code_fences rawText) <> Ok (PDict d)) ->
  normalizeSingle lim repr rawText
  = match Json.loads lim (_strip_code_fences rawText) with
    | Ok _ => Ok (reasoning_object (degraded_object []))
    | Raise JSONDecodeError =>
        Ok (reasoning_object (degraded_object (_strip_code_fences rawText)))
    | Raise e => Raise e
    end
  /\ forall e, Json.loads lim (_strip_code_fences rawText) = Raise e ->
               e = JSONDecodeError \/ e = ValueError \/ e = RecursionError.
Proof.
  intros H. split; [| intros e; apply JsonFacts.loads_raises ].
  unfold normalizeSingle, loads_or.
  destruct (Json.loads lim (_strip_code_fences rawText)) as [data | e] eqn:E.
  - cbn [bind]. rewrite normalize_single_view.
    destruct data; try reflexivity. now destruct (H entries).
  - destruct (JsonFacts.loads_raises _ _ _ E) as [-> | [-> | ->]];
      cbn [bind]; [| reflexivity | reflexivity ].
    rewrite normalize_single_view. reflexivity.
Qed.

Lemma normalizeSingle_not_an_object_witness :
  normalizeSingle cpython no_repr truncated_response
  = Ok (reasoning_object (degraded_object truncated_response)).
Proof.
  apply (normalizeSingle_not_an_object cpython no_repr truncated_response).
  intros d. vm_compute. discriminate.
Defined.

(** *** Further properties of the agent *)

(** X1.  When the response gives at least 3 affordances they are returned
    as they are: no canned entry is added and none is dropped. *)
Theorem affordances_preserved (lim : limits) (repr : pyval -> str)
  (rawText : str) :
  3 <= length (list_field repr (decoded lim single_fallback rawText)
                 (lit "affordances")) ->
  exists r : ReasoningObject,
    normalizeSingle lim repr rawText = Ok (reasoning_object r) /\
    affordances r
    = list_field repr (decoded lim single_fallback rawText) (lit "affordances").
Proof.
  intros H.
  exists (single_view repr (decoded lim single_fallback rawText)).
  split; [| cbn [single_view affordances]; now apply top_up_keeps ].
  apply normalizeSingle_view.
  (* a response with affordances has been decoded *)
  unfold within_limits. unfold decoded in H.
  destruct (Json.loads lim (_strip_code_fences rawText)) as [data | []];
    try reflexivity;
    unfold list_field, get_or, list_text in H; cbn in H; lia.
Qed.

Lemma affordances_preserved_witness :
  exists r : ReasoningObject,
    normalizeSingle cpython no_repr well_formed_response = Ok (reasoning_object r) /\
    affordances r
    = [ lit "reach the handle"; lit "turn the handle";
        lit "push the door"; lit "walk through" ].
Proof.
  destruct (affordances_preserved cpython no_repr well_formed_response)
    as (r & H & Ha).
  - vm_compute. lia.
  - exists r. split; [ exact H |]. rewrite Ha. vm_compute. reflexivity.
Defined.

(** X2.  On the empty history [llm_temporal_reasoning] sends no request
    and returns the temporal object with empty strings and empty lists. *)
Theorem llm_temporal_reasoning_empty_history (lim : limits)
  (repr : pyval -> str) (chat : request -> result (option str)) :
  llm_temporal_reasoning lim repr chat []
  = ([], Ok (temporal_object
               {| overall_task := []; step_roles := []; possible_goal := [];
                  future_plan := []; uncertainty_notes := [] |})).
Proof.
  unfold llm_temporal_reasoning, lift.
  rewrite normalize_temporal_view. reflexivity.
Qed.

(** X4.  When the text of the response is not JSON, [normalizeTemporal]
    returns the object with empty strings and empty lists but for
    [uncertainty_notes], whose single entry is the sanitized raw text. *)
Theorem normalizeTemporal_not_json (lim : limits) (repr : pyval -> str)
  (rawText : str) :
  Json.loads lim (_strip_code_fences rawText) = Raise JSONDecodeError ->
  normalizeTemporal lim repr rawText
  = Ok (temporal_object
          {| overall_task := []; step_roles := []; possible_goal := [];
             future_plan := [];
             uncertainty_notes := [ _strip_code_fences rawText ] |}).
Proof.
  intros H. rewrite normalizeTemporal_view by (unfold within_limits; now rewrite H).
  unfold decoded. rewrite H. reflexivity.
Qed.

Lemma normalizeTemporal_not_json_witness :
  normalizeTemporal cpython no_repr (lit "```The person opens the door and walks.```")
  = Ok (temporal_object
          {| overall_task := []; step_roles := []; possible_goal := [];
             future_plan := [];
             uncertainty_notes := [ lit "The person opens the door and walks." ] |}).
Proof.
  apply (normalizeTemporal_not_json cpython no_repr
           (lit "```The person opens the door and walks.```")).
  vm_compute. reflexivity.
Defined.

Lemma str_eqb_eq (a b : str) : str_eqb a b = true <-> a = b.
Proof.
  revert b. induction a as [| x a IH]; intros [| y b]; cbn; try easy.
  rewrite andb_true_iff, N.eqb_eq, IH. split.
  - now intros [-> ->].
  - now intros [= -> ->].
Qed.

(** X3.  For a label outside the closed action set the hint of the
    single-action prompt is the empty string. *)
Theorem unknown_label_hint (action_label : str) :
  ~ In action_label VALID_ACTIONS ->
  hint_or ACTION_HINTS action_label [] = [].
Proof.
  unfold VALID_ACTIONS. induction ACTION_HINTS as [| [k h] hints IH]; cbn;
    [ reflexivity |].
  intros H. destruct (str_eqb k action_label) eqn:E.
  - apply str_eqb_eq in E. destruct H. now left.
  - apply IH. intros Hin. apply H. now right.
Qed.

Lemma unknown_label_hint_witness :
  hint_or ACTION_HINTS (lit "jump") [] = [].
Proof.
  apply (unknown_label_hint (lit "jump")).
  intros [H | [H | [H | [H | []]]]]; vm_compute in H; discriminate.
Defined.

End AgentFacts.

Module DatasetFacts.

Import Dataset.

Lemma concat_triples_length (A : Type) (rows : list (list A)) :
  Forall (fun r => length r = 3) rows -> length (concat rows) = 3 * length rows.
Proof.
  induction 1 as [| r rows Hr _ IH]; cbn; [ reflexivity |].
  rewrite length_app, IH, Hr. lia.
Qed.

Lemma skipn_repeat (A : Type) (x : A) (n m : nat) :
  skipn n (repeat x m) = repeat x (m - n).
Proof.
  revert m. induction n as [| n IH]; intros m; cbn.
  - now rewrite Nat.sub_0_r.
  - destruct m; cbn; [ reflexivity | apply IH ].
Qed.

(** *** The conversion to [float32] *)

Lemma np_float32_convertible (x : number) :
  convertible x -> np_float32 x = Ok (hd zero (rounded [x])).
Proof.
  destruct x as [z | d]; cbn; [| reflexivity ].
  intros H. destruct (to_double z) as [| s | |] eqn:E; try reflexivity.
  now destruct (H s).
Qed.

Lemma np_float32_raises (x : number) (e : exn) :
  np_float32 x = Raise e -> e = OverflowError /\ ~ convertible x.
Proof.
  destruct x as [z | d]; cbn; [| discriminate ].
  destruct (to_double z) as [| s | |] eqn:E; try discriminate.
  intros [= <-]. split; [ reflexivity |]. intros H. now destruct (H s).
Qed.

(** Numbers that are all convertible are converted, each to its nearest
    [float32] value. *)
Lemma convert_rounded (values : list number) :
  Forall convertible values -> convert values = Ok (rounded values).
Proof.
  induction 1 as [| x values Hx _ IH]; [ reflexivity |].
  cbn [convert]. rewrite (np_float32_convertible x Hx), IH. reflexivity.
Qed.

(** What the conversion returns are the rounded values of convertible
    numbers. *)
Lemma convert_returns (values : list number) (flat : list float32) :
  convert values = Ok flat -> Forall convertible values /\ flat = rounded values.
Proof.
  revert flat. induction values as [| x values IH]; intros flat.
  - intros [= <-]. split; [ constructor | reflexivity ].
  - cbn [convert]. destruct (np_float32 x) as [y | e] eqn:Ex; [| discriminate ].
    cbn [bind]. destruct (convert values) as [ys | e]; [| discriminate ].
    cbn [bind]. intros [= <-]. destruct (IH ys eq_refl) as [Hv ->].
    assert (Hx : convertible x).
    { destruct x as [z | d]; cbn in *; [| exact I ].
      intros s Hs. rewrite Hs in Ex. discriminate. }
    split; [ now constructor |].
    rewrite (np_float32_convertible x Hx) in Ex. now injection Ex as <-.
Qed.

(** The conversion raises nothing but [OverflowError], on an integer that
    is beyond the range of a float. *)
Lemma convert_raises (values : list number) (e : exn) :
  convert values = Raise e -> e = OverflowError /\ ~ Forall convertible values.
Proof.
  induction values as [| x values IH]; [ discriminate |].
  cbn [convert]. destruct (np_float32 x) as [y | e'] eqn:Ex; cbn [bind].
  - destruct (convert values) as [ys | e'']; cbn [bind]; [ discriminate |].
    intros [= <-]. destruct (IH eq_refl) as [-> Hn].
    split; [ reflexivity |]. intros H. apply Hn. now inversion H.
  - intros [= <-]. destruct (np_float32_raises x e' Ex) as [-> Hn].
    split; [ reflexivity |]. intros H. apply Hn. now inversion H.
Qed.

Lemma rounded_length (values : list number) :
  length (rounded values) = length values.
Proof. apply length_map. Qed.

(** A detection made of triples of convertible numbers is flattened row by
    row, without error. *)
Lemma flatten3_triples (rows : list (list number)) :
  Forall (fun r => length r = 3) rows -> Forall convertible (concat rows) ->
  flatten3 rows = Ok (rounded (concat rows)).
Proof.
  intros H Hc. unfold flatten3. destruct rows as [| row rest]; [ reflexivity |].
  assert (Hrow : length row = 3) by now inversion H.
  assert (Hall : forallb (fun r => length r =? length row) (row :: rest) = true).
  { apply forallb_forall. intros r Hin. rewrite Forall_forall in H.
    rewrite (H r Hin), Hrow. reflexivity. }
  rewrite Hall, (convert_rounded _ Hc). cbn [bind].
  rewrite rounded_length, (concat_triples_length _ _ H).
  replace (3 * length (row :: rest)) with (length (row :: rest) * 3) by lia.
  now rewrite Nat.Div0.mod_mul.
Qed.

(** What the flattening returns are the rounded values, row by row. *)
Lemma flatten3_returns (rows : list (list number)) (flat : list float32) :
  flatten3 rows = Ok flat ->
  Forall convertible (concat rows) /\ flat = rounded (concat rows).
Proof.
  unfold flatten3. destruct rows as [| row rest].
  { intros [= <-]. split; [ constructor | reflexivity ]. }
  destruct (forallb _ _); [| discriminate ].
  destruct (convert (concat (row :: rest))) as [ys | e] eqn:E; [| discriminate ].
  cbn [bind]. destruct (_ =? 0); [| discriminate ].
  intros [= <-]. exact (convert_returns _ _ E).
Qed.

(** The flattening raises [OverflowError] on an integer beyond the range
    of a float, and [ValueError] on rows that are not triples. *)
Lemma flatten3_raises (rows : list (list number)) (e : exn) :
  flatten3 rows = Raise e ->
  (e = ValueError /\ ~ Forall (fun r => length r = 3) rows)
  \/ (e = OverflowError /\ ~ Forall convertible (concat rows)).
Proof.
  intros H.
  destruct (convert (concat rows)) as [ys | e'] eqn:Ec.
  - left. destruct (convert_returns _ _ Ec) as [Hc _]. split.
    + unfold flatten3 in H. destruct rows as [| row rest]; [ discriminate |].
      destruct (forallb _ _); [| congruence ].
      rewrite Ec in H. cbn [bind] in H. destruct (_ =? 0); congruence.
    + intros Ht. rewrite (flatten3_triples rows Ht Hc) in H. discriminate.
  - destruct (convert_raises _ _ Ec) as [-> Hn].
    unfold flatten3 in H. destruct rows as [| row rest]; [ discriminate |].
    destruct (forallb (fun r => length r =? length row) (row :: rest)) eqn:Ef.
    + rewrite Ec in H. cbn [bind] in H. injection H as <-. right. now split.
    + injection H as <-. left. split; [ reflexivity |].
      intros Ht. assert (Hrow : length row = 3) by now inversion Ht.
      assert (forallb (fun r => length r =? length row) (row :: rest) = true).
      { apply forallb_forall. intros r Hin. rewrite Forall_forall in Ht.
        rewrite (Ht r Hin), Hrow. reflexivity. }
      congruence.
Qed.

(** *** [np.zeros] *)

Lemma np_zeros_allocatable (lim : limits) (dim : Z) :
  (0 <= dim)%Z -> allocatable lim dim ->
  np_zeros lim dim = Ok (repeat zero (Z.to_nat dim)).
Proof.
  intros H0 [H61 Hcap]. unfold np_zeros.
  replace (dim <? 0)%Z with false by (symmetry; apply Z.ltb_ge; lia).
  replace (2 ^ 61 <=? dim)%Z with false by (symmetry; apply Z.leb_gt; lia).
  replace (Z.of_N (array_capacity lim) <? dim)%Z with false
    by (symmetry; apply Z.ltb_ge; lia).
  reflexivity.
Qed.

Lemma np_zeros_returns (lim : limits) (dim : Z) (v : list float32) :
  np_zeros lim dim = Ok v ->
  (0 <= dim)%Z /\ allocatable lim dim /\ v = repeat zero (Z.to_nat dim).
Proof.
  unfold np_zeros, allocatable.
  destruct (dim <? 0)%Z eqn:E0; [ discriminate |].
  destruct (2 ^ 61 <=? dim)%Z eqn:E1; [ discriminate |].
  destruct (Z.of_N (array_capacity lim) <? dim)%Z eqn:E2; [ discriminate |].
  intros [= <-]. apply Z.ltb_ge in E0, E2. apply Z.leb_gt in E1.
  repeat split; lia || reflexivity.
Qed.

Lemma np_zeros_raises (lim : limits) (dim : Z) (e : exn) :
  np_zeros lim dim = Raise e ->
  (e = ValueError /\ (dim < 0 \/ 2 ^ 61 <= dim)%Z)
  \/ (e = MemoryError /\ (Z.of_N (array_capacity lim) < dim < 2 ^ 61)%Z).
Proof.
  unfold np_zeros.
  destruct (dim <? 0)%Z eqn:E0.
  { intros [= <-]. left. apply Z.ltb_lt in E0. split; [ reflexivity | lia ]. }
  destruct (2 ^ 61 <=? dim)%Z eqn:E1.
  { intros [= <-]. left. apply Z.leb_le in E1. split; [ reflexivity | lia ]. }
  destruct (Z.of_N (array_capacity lim) <? dim)%Z eqn:E2; [| discriminate ].
  intros [= <-]. right. apply Z.ltb_lt in E2. apply Z.leb_gt in E1.
  split; [ reflexivity | lia ].
Qed.

(** *** The encoder *)




End DatasetFacts.

Module PipelineFacts.

Import Agent Dataset Pipeline AgentFacts.

(** *** Facts about [np.unique] *)

Lemma insert_perm (x : Z) (l : list Z) : Permutation (insert x l) (x :: l).
Proof.
  induction l as [| y l IH]; cbn; [ reflexivity |].
  destruct (x <=? y)%Z; [ reflexivity |].
  rewrite IH. apply perm_swap.
Qed.

Lemma np_sort_perm (l : list Z) : Permutation (np_sort l) l.
Proof.
  induction l as [| x l IH]; cbn; [ reflexivity |].
  rewrite insert_perm. now constructor.
Qed.

Lemma insert_sorted (x : Z) (l : list Z) :
  StronglySorted Z.le l -> StronglySorted Z.le (insert x l).
Proof.
  induction 1 as [| y l Hs IH Hy]; cbn; [ repeat constructor |].
  destruct (x <=? y)%Z eqn:E.
  - apply Z.leb_le in E. constructor; [ now constructor |].
    constructor; [ exact E |].
    eapply Forall_impl; [| exact Hy ]. intros; lia.
  - apply Z.leb_gt in E. constructor; [ exact IH |].
    apply Forall_forall. intros z Hz.
    apply (Permutation_in _ (insert_perm x l)) in Hz.
    destruct Hz as [<- | Hz]; [ lia |].
    rewrite Forall_forall in Hy. now apply Hy.
Qed.

Lemma np_sort_sorted (l : list Z) : StronglySorted Z.le (np_sort l).
Proof.
  induction l as [| x l IH]; cbn; [ constructor | now apply insert_sorted ].
Qed.



Lemma runs_head (x : Z) (ar : list Z) :
  exists c rs, runs (x :: ar) = (x, S c) :: rs.
Proof.
  cbn. destruct (runs ar) as [| [y c] rs]; [ now exists 0, [] |].
  destruct (x =? y)%Z eqn:E.
  - apply Z.eqb_eq in E. subst. now exists c, rs.
  - now exists 0, ((y, c) :: rs).
Qed.

Lemma runs_keys_in (ar : list Z) (k : Z) :
  In k (map fst (runs ar)) -> In k ar.
Proof.
  revert k. induction ar as [| x ar IH]; intros k; cbn; [ tauto |].
  destruct (runs ar) as [| [y c] rs].
  - cbn. tauto.
  - destruct (x =? y)%Z eqn:E; cbn; intros H.
    + right. apply IH. exact H.
    + destruct H as [H | H]; [ now left | right; apply IH; exact H ].
Qed.

(** The runs of a sorted array: the keys increase strictly, each key comes
    with the number of its occurrences, and no element is left out. *)
Lemma runs_sorted (ar : list Z) :
  StronglySorted Z.le ar ->
  StronglySorted Z.lt (map fst (runs ar)) /\
  (forall k c, In (k, c) (runs ar) -> c = count ar k) /\
  (forall k, In k ar -> In k (map fst (runs ar))).
Proof.
  unfold count. induction 1 as [| x ar Hs (IHs & IHc & IHk) Hx].
  { cbn. split; [ constructor | split; intros; contradiction ]. }
  rewrite Forall_forall in Hx.
  assert (Hkeys : forall k, In k (map fst (runs ar)) -> (x <= k)%Z).
  { intros k Hk. apply Hx. now apply runs_keys_in. }
  cbn [runs]. destruct (runs ar) as [| [y c] rs] eqn:Er.
  - (* the rest is empty *)
    assert (ar = []) as ->.
    { destruct ar as [| z ar']; [ reflexivity |].
      destruct (runs_head z ar') as (c & rs & H). congruence. }
    split; [ repeat constructor |]. split.
    + intros k c [[= <- <-] | []]. cbn. now destruct (Z.eq_dec x x).
    + intros k [<- | []]. now left.
  - destruct (x =? y)%Z eqn:E.
    + (* the first run grows *)
      apply Z.eqb_eq in E. subst y. split; [ exact IHs |]. split.
      * intros k c' [[= <- <-] | Hin].
        -- cbn [count_occ]. destruct (Z.eq_dec x x); [| congruence ].
           f_equal. apply IHc. now left.
        -- assert (x <> k).
           { cbn in IHs. apply StronglySorted_inv in IHs. destruct IHs as [_ Hlt].
             rewrite Forall_forall in Hlt.
             specialize (Hlt k (in_map fst _ _ Hin)). cbn in Hlt. lia. }
           cbn [count_occ]. destruct (Z.eq_dec x k); [ contradiction |].
           apply IHc. now right.
      * intros k [<- | Hin]; [ now left | now apply IHk ].
    + (* a new run starts *)
      apply Z.eqb_neq in E.
      assert (Hlt : forall k, In k (map fst ((y, c) :: rs)) -> (x < k)%Z).
      { intros k Hk. cbn in IHs. apply StronglySorted_inv in IHs.
        destruct IHs as [_ Hy]. rewrite Forall_forall in Hy.
        assert (x <= y)%Z by (apply Hkeys; now left).
        destruct Hk as [<- | Hk]; [ cbn; lia |].
        specialize (Hy _ Hk). lia. }
      split; [| split ].
      * cbn [map fst]. constructor; [ exact IHs |].
        apply Forall_forall. exact Hlt.
      * intros k c' [[= <- <-] | Hin].
        -- cbn [count_occ]. destruct (Z.eq_dec x x); [| congruence ].
           f_equal. symmetry. apply count_occ_not_In. intros Hin.
           specialize (Hlt _ (IHk _ Hin)). lia.
        -- assert (x <> k).
           { specialize (Hlt k (in_map fst _ _ Hin)). cbn in Hlt. lia. }
           cbn [count_occ]. destruct (Z.eq_dec x k); [ contradiction |].
           now apply IHc.
      * intros k [<- | Hin]; [ now left | right; now apply IHk ].
Qed.

(** A strictly increasing list is determined by its elements. *)
Lemma strict_sorted_ext (a b : list Z) :
  StronglySorted Z.lt a -> StronglySorted Z.lt b ->
  (forall x, In x a <-> In x b) -> a = b.
Proof.
  intros Ha. revert b. induction Ha as [| x a Hs IH Hx]; intros b Hb Hab.
  - destruct b as [| y b]; [ reflexivity |].
    destruct (proj2 (Hab y) (or_introl eq_refl)).
  - destruct b as [| y b].
    { destruct (proj1 (Hab x) (or_introl eq_refl)). }
    apply StronglySorted_inv in Hb. destruct Hb as [Hsb Hy].
    rewrite Forall_forall in Hx, Hy.
    assert (x = y).
    { destruct (proj1 (Hab x) (or_introl eq_refl)) as [-> | Hin]; [ reflexivity |].
      destruct (proj2 (Hab y) (or_introl eq_refl)) as [-> | Hin']; [ reflexivity |].
      specialize (Hx _ Hin'). specialize (Hy _ Hin). lia. }
    subst y. f_equal. apply IH; [ exact Hsb |].
    intros z. split; intros Hz.
    + destruct (proj1 (Hab z) (or_intror Hz)) as [<- | H]; [| exact H ].
      specialize (Hx _ Hz). lia.
    + destruct (proj2 (Hab z) (or_intror Hz)) as [<- | H]; [| exact H ].
      specialize (Hy _ Hz). lia.
Qed.

Lemma pairs_of_keys (f : Z -> nat) (rs : list (Z * nat)) :
  (forall k c, In (k, c) rs -> c = f k) ->
  rs = map (fun k => (k, f k)) (map fst rs).
Proof.
  induction rs as [| [k c] rs IH]; intros H; cbn; [ reflexivity |].
  rewrite <- IH by (intros; apply H; now right).
  now rewrite <- (H k c (or_introl eq_refl)).
Qed.

Lemma observed_sorted (l : list Z) : StronglySorted Z.lt (observed l).
Proof.
  unfold observed. cbn [filter].
  repeat match goal with
  | |- context [0 <? ?c] => destruct (0 <? c)
  end; repeat constructor; lia.
Qed.

Lemma observed_in (l : list Z) (k : Z) :
  Forall in_roster l -> (In k (observed l) <-> In k l).
Proof.
  intros Hl. unfold observed, count. rewrite filter_In, Nat.ltb_lt.
  split.
  - intros [_ H]. now apply (count_occ_In Z.eq_dec).
  - intros H. split; [| now apply (count_occ_In Z.eq_dec) ].
    rewrite Forall_forall in Hl. specialize (Hl _ H). unfold in_roster in Hl.
    assert (k = 0 \/ k = 1 \/ k = 2 \/ k = 3)%Z as [-> | [-> | [-> | ->]]] by lia;
      cbn; tauto.
Qed.

(** [np.unique] on predictions of the roster: the observed indices in
    increasing order, each with the number of frames predicted as it. *)
Lemma runs_observed (l : list Z) :
  Forall in_roster l ->
  runs (np_sort l) = map (fun k => (k, count l k)) (observed l).
Proof.
  intros Hl.
  destruct (runs_sorted (np_sort l) (np_sort_sorted l)) as (Hs & Hc & Hk).
  assert (Hkeys : map fst (runs (np_sort l)) = observed l).
  { apply strict_sorted_ext; [ exact Hs | apply observed_sorted |].
    intros k. rewrite (observed_in l k Hl). split; intros H.
    - apply runs_keys_in in H. eapply Permutation_in; [ apply np_sort_perm | exact H ].
    - apply Hk. eapply Permutation_in; [ symmetry; apply np_sort_perm | exact H ]. }
  rewrite <- Hkeys. apply pairs_of_keys.
  intros k c H. rewrite (Hc k c H). unfold count.
  apply Permutation_count_occ, np_sort_perm.
Qed.

(** *** Facts about [np.argmax] *)

Lemma index_of_spec (p : nat -> bool) (l : list nat) (i : nat) :
  index_of p l = Some i ->
  exists c, nth_error l i = Some c /\ p c = true /\
    forall j c', j < i -> nth_error l j = Some c' -> p c' = false.
Proof.
  revert i. induction l as [| x l IH]; intros i; cbn; [ discriminate |].
  destruct (p x) eqn:E.
  - intros [= <-]. exists x. repeat split; trivial. intros j c' Hj. lia.
  - destruct (index_of p l) as [i' |]; [| discriminate ].
    intros [= <-]. destruct (IH i' eq_refl) as (c & Hn & Hp & Hb).
    exists c. repeat split; trivial.
    intros [| j] c' Hj; cbn.
    + now intros [= <-].
    + apply Hb. lia.
Qed.

Lemma index_of_exists (p : nat -> bool) (l : list nat) (x : nat) :
  In x l -> p x = true -> exists i, index_of p l = Some i.
Proof.
  induction l as [| y l IH]; cbn; [ tauto |].
  intros Hin Hp. destruct (p y) eqn:E; [ now exists 0 |].
  destruct Hin as [-> | Hin]; [ congruence |].
  destruct (IH Hin Hp) as [i ->]. now exists (S i).
Qed.

Lemma list_max_in (l : list nat) : l <> [] -> In (list_max l) l.
Proof.
  induction l as [| x l IH]; [ congruence |]. intros _.
  change (list_max (x :: l)) with (Nat.max x (list_max l)).
  destruct l as [| y l'].
  - cbn. left. lia.
  - destruct (Nat.max_spec x (list_max (y :: l'))) as [[_ ->] | [_ ->]].
    + right. apply IH. discriminate.
    + now left.
Qed.

(** [np.argmax] of a non-empty array: the position of a maximum, before
    which every count is smaller. *)
Lemma np_argmax_spec (a : list nat) :
  a <> [] ->
  exists i c, np_argmax a = Ok i /\ nth_error a i = Some c /\
    (forall j c', nth_error a j = Some c' -> c' <= c) /\
    (forall j c', j < i -> nth_error a j = Some c' -> c' < c).
Proof.
  intros Ha. unfold np_argmax. destruct a as [| x a']; [ congruence |].
  set (a := x :: a') in *.
  destruct (index_of_exists (Nat.eqb (list_max a)) a (list_max a)
              (list_max_in a Ha) (Nat.eqb_refl _)) as [i Hi].
  rewrite Hi. destruct (index_of_spec _ _ _ Hi) as (c & Hn & Hp & Hb).
  apply Nat.eqb_eq in Hp. subst c.
  assert (Hle : forall j c', nth_error a j = Some c' -> c' <= list_max a).
  { intros j c' Hj. apply nth_error_In in Hj.
    pose proof (proj1 (list_max_le a (list_max a)) (Nat.le_refl _)) as Hall.
    rewrite Forall_forall in Hall. now apply Hall. }
  exists i, (list_max a). repeat split; trivial.
  intros j c' Hj Hc. specialize (Hb j c' Hj Hc). apply Nat.eqb_neq in Hb.
  specialize (Hle j c' Hc). lia.
Qed.

Lemma sorted_nth_error (K : list Z) (i j : nat) (x y : Z) :
  StronglySorted Z.lt K -> i <= j ->
  nth_error K i = Some x -> nth_error K j = Some y -> (x <= y)%Z.
Proof.
  intros Hs. revert i j. induction Hs as [| k K Hs IH Hk]; intros i j Hij.
  { destruct i; discriminate. }
  destruct i as [| i]; cbn.
  - intros [= <-]. destruct j as [| j]; cbn.
    + intros [= <-]. lia.
    + intros Hy. apply nth_error_In in Hy.
      rewrite Forall_forall in Hk. specialize (Hk _ Hy). lia.
  - destruct j as [| j]; [ lia |]. cbn. apply IH. lia.
Qed.

Lemma label_at_roster (k : Z) :
  in_roster k -> label_at IDX_TO_LABEL k = Ok (label_of k).
Proof.
  unfold in_roster. intros H.
  assert (k = 0 \/ k = 1 \/ k = 2 \/ k = 3)%Z as [-> | [-> | [-> | ->]]] by lia;
    reflexivity.
Qed.

Lemma count_labels_observed (l : list Z) :
  count_labels (map (fun k => (k, count l k)) (observed l)) [] = Ok (tally l).
Proof.
  unfold tally, observed. cbn [filter].
  repeat match goal with
  | |- context [0 <? ?c] => destruct (0 <? c)
  end; reflexivity.
Qed.

Lemma combine_map_self (f : Z -> nat) (K : list Z) :
  combine K (map f K) = map (fun k => (k, f k)) K.
Proof. induction K as [| k K IH]; cbn; [ reflexivity | now rewrite IH ]. Qed.

(** The vote on predictions of the roster: the tally, and the least index
    among those with the largest number of frames. *)
Lemma majority_vote_spec (l : list Z) :
  l <> [] -> Forall in_roster l ->
  exists m,
    majority_vote l = Ok (label_of m, tally l) /\
    in_roster m /\ 0 < count l m /\
    (forall k, count l k <= count l m) /\
    (forall k, count l k = count l m -> (m <= k)%Z).
Proof.
  intros Hne Hl. unfold majority_vote, np_unique_counts.
  rewrite (runs_observed l Hl). set (K := observed l).
  rewrite !map_map. cbn [fst snd]. rewrite map_id, combine_map_self.
  fold K. unfold K at 1. rewrite count_labels_observed. cbn [bind].
  change (map (fun x => count l x) K) with (map (count l) K).
  assert (HK : forall k, In k K <-> In k l) by (intros; now apply observed_in).
  assert (Hcounts : map (count l) K <> []).
  { destruct l as [| x l']; [ congruence |].
    destruct K as [| k K'] eqn:EK; [| discriminate ].
    destruct (proj2 (HK x) (or_introl eq_refl)). }
  destruct (np_argmax_spec _ Hcounts) as (i & c & Hi & Hn & Hmax & Hfirst).
  rewrite Hi. cbn [bind].
  rewrite nth_error_map in Hn.
  destruct (nth_error K i) as [m |] eqn:Em; [| discriminate ].
  cbn in Hn. injection Hn as <-.
  unfold item. rewrite Em. cbn [bind].
  assert (Hm : In m l) by (apply HK; eapply nth_error_In; exact Em).
  assert (Hr : in_roster m) by (rewrite Forall_forall in Hl; now apply Hl).
  rewrite (label_at_roster m Hr). cbn [bind].
  exists m. split; [ reflexivity |]. split; [ exact Hr |].
  assert (Hpos : 0 < count l m) by (now apply (count_occ_In Z.eq_dec)).
  split; [ exact Hpos |].
  assert (Hat : forall k, 0 < count l k ->
            exists j, nth_error K j = Some k /\
                      nth_error (map (count l) K) j = Some (count l k)).
  { intros k Hk. apply (count_occ_In Z.eq_dec) in Hk. apply HK in Hk.
    destruct (In_nth_error _ _ Hk) as [j Hj]. exists j. split; [ exact Hj |].
    now apply map_nth_error. }
  split.
  - intros k. destruct (Nat.eq_dec (count l k) 0) as [-> | Hk]; [ lia |].
    destruct (Hat k) as (j & _ & Hj); [ lia |]. exact (Hmax _ _ Hj).
  - intros k Hk. destruct (Hat k) as (j & HjK & Hj); [ lia |].
    destruct (Nat.lt_ge_cases j i) as [Hlt | Hge].
    + specialize (Hfirst _ _ Hlt Hj). lia.
    + exact (sorted_nth_error K i j m k (observed_sorted l) Hge Em HjK).
Qed.

(** *** The vote of a clip *)

Lemma count_all_same (l : list Z) (k : Z) :
  Forall (eq k) l ->
  count l k = length l /\ forall k', k' <> k -> count l k' = 0.
Proof.
  unfold count. induction 1 as [| x l <- _ [IH1 IH2]]; cbn.
  - split; [ reflexivity | intros; reflexivity ].
  - split.
    + destruct (Z.eq_dec k k); [ now rewrite IH1 | congruence ].
    + intros k' Hk. destruct (Z.eq_dec k k'); [ congruence | now apply IH2 ].
Qed.

Lemma roster_counts_sum (l : list Z) :
  Forall in_roster l ->
  length l = count l 0 + count l 1 + count l 2 + count l 3.
Proof.
  unfold count, in_roster. induction 1 as [| x l Hx _ IH]; cbn; [ reflexivity |].
  rewrite IH.
  destruct (Z.eq_dec x 0), (Z.eq_dec x 1), (Z.eq_dec x 2), (Z.eq_dec x 3); lia.
Qed.

Lemma tally_get (l : list Z) (k : Z) :
  in_roster k ->
  dict_get (tally l) (label_of k)
  = if 0 <? count l k then Some (PInt (Z.of_nat (count l k))) else None.
Proof.
  unfold in_roster. intros H.
  assert (k = 0 \/ k = 1 \/ k = 2 \/ k = 3)%Z as [-> | [-> | [-> | ->]]] by lia;
    unfold tally, observed; cbn [filter];
    destruct (0 <? count l 0), (0 <? count l 1), (0 <? count l 2), (0 <? count l 3);
    reflexivity.
Qed.

Lemma tally_all_same (l : list Z) (k : Z) :
  l <> [] -> in_roster k -> Forall (eq k) l ->
  tally l = [(label_of k, PInt (Z.of_nat (length l)))].
Proof.
  intros Hne Hk Hall. destruct (count_all_same l k Hall) as [Hc H0].
  assert (Hpos : (0 <? length l) = true).
  { apply Nat.ltb_lt. destruct l; [ congruence | cbn; lia ]. }
  unfold in_roster in Hk.
  assert (k = 0 \/ k = 1 \/ k = 2 \/ k = 3)%Z as [-> | [-> | [-> | ->]]] by lia;
    unfold tally, observed; cbn [filter];
    rewrite ?Hc, ?H0 by lia; rewrite Hpos;
    cbn [Nat.ltb Nat.leb map]; rewrite Hc; reflexivity.
Qed.



Section RunFacts.

Variable lim : limits.
Variable fs : str -> option folder.
Variable transform : list (list float32) -> list (list float32).
Variable predict : list (list float32) -> list Z.

Lemma classify_video_votes (action_name : str) (frame_preds : list Z) :
  frame_predictions lim fs transform predict action_name = Some frame_preds ->
  classify_video lim fs transform predict action_name
  = ([], match majority_vote frame_preds with
         | Ok vote => Ok (Some (fst vote), snd vote)
         | Raise e => Raise e
         end).
Proof.
  unfold frame_predictions, classify_video.
  destruct (fs _) as [dir |]; [| discriminate ].
  destruct (sorted _) as [| f files]; [ discriminate |].
  destruct (load_features lim dir (f :: files)) as [features | e];
    cbn -[majority_vote np_stack]; [| discriminate ].
  destruct (np_stack features) as [X | e]; [| discriminate ].
  intros [= <-].
  destruct (majority_vote (predict (transform X))) as [vote | e]; reflexivity.
Qed.

(** C7.  For a clip with frames, whose frame-level predictions are indices
    of the roster: [classify_video] returns the label of an index [m] with
    the largest count (the index whose count is strictly the largest, when
    there is one) together with the mapping from each observed label to the
    number of frames predicted as it, and no other key.  In particular, when
    all N frames are predicted as one label it returns that label with count
    N, and on 10 frames of which 7 are predicted open_door and 3 walk_stop
    it returns open_door with the counts 7 and 3. *)
Theorem classify_video_majority (action_name : str) (frame_preds : list Z) :
  frame_predictions lim fs transform predict action_name = Some frame_preds ->
  frame_preds <> [] -> Forall in_roster frame_preds ->
  exists m,
    classify_video lim fs transform predict action_name
    = ([], Ok (Some (label_of m), tally frame_preds)) /\
    in_roster m /\
    (forall k, in_roster k ->
       dict_get (tally frame_preds) (label_of k)
       = if 0 <? count frame_preds k
         then Some (PInt (Z.of_nat (count frame_preds k))) else None) /\
    length (tally frame_preds) = length (observed frame_preds) /\
    (forall k, count frame_preds k <= count frame_preds m) /\
    (forall k, (forall k', k' <> k -> count frame_preds k' < count frame_preds k) ->
       m = k) /\
    (forall k, in_roster k -> Forall (eq k) frame_preds ->
       m = k /\
       tally frame_preds = [(label_of k, PInt (Z.of_nat (length frame_preds)))]) /\
    (count frame_preds 0 = 7 -> count frame_preds 3 = 3 ->
     length frame_preds = 10 ->
       label_of m = lit "open_door" /\
       tally frame_preds
       = [(lit "open_door", PInt 7); (lit "walk_stop", PInt 3)]).
Proof.
  intros Hp Hne Hl.
  destruct (majority_vote_spec frame_preds Hne Hl) as (m & Hv & Hr & Hpos & Hmax & Hmin).
  exists m. rewrite (classify_video_votes _ _ Hp), Hv. cbn [fst snd].
  split; [ reflexivity |]. split; [ exact Hr |].
  split; [ intros k Hk; now apply tally_get |].
  split; [ unfold tally; now rewrite length_map |].
  split; [ exact Hmax |].
  split; [| split ].
  - intros k Hk. destruct (Z.eq_dec m k) as [E | E]; [ exact E |].
    specialize (Hk m E). specialize (Hmax k). lia.
  - intros k Hk Hall. split; [| now apply tally_all_same ].
    apply (count_occ_In Z.eq_dec) in Hpos.
    rewrite Forall_forall in Hall. symmetry. now apply Hall.
  - intros H0 H3 Hlen. pose proof (roster_counts_sum frame_preds Hl) as Hsum.
    assert (H1 : count frame_preds 1 = 0) by lia.
    assert (H2 : count frame_preds 2 = 0) by lia.
    split.
    + pose proof (Hmax 0%Z) as Hm0. unfold in_roster in Hr.
      assert (m = 0 \/ m = 1 \/ m = 2 \/ m = 3)%Z as [-> | [-> | [-> | ->]]] by lia;
        [ reflexivity | lia | lia | lia ].
    + unfold tally, observed. cbn [filter]. rewrite H0, H1, H2, H3.
      cbn [Nat.ltb Nat.leb map]. rewrite H0, H3. reflexivity.
Qed.

End RunFacts.

(** *** The orchestrator *)

Lemma iobind_ok A B (tr : list event) (a : A) (k : A -> io B) :
  iobind (tr, Ok a) k = after_events tr (k a).
Proof. unfold iobind, after_events. now destruct (k a). Qed.

Lemma after_events_pair A (tr tr' : list event) (r : result A) :
  after_events tr (tr', r) = (tr ++ tr', r).
Proof. reflexivity. Qed.

Lemma requests_of_app (tr tr' : list event) :
  requests_of (tr ++ tr') = requests_of tr ++ requests_of tr'.
Proof. apply flat_map_app. Qed.

Lemma dumps_of_app (tr tr' : list event) :
  dumps_of (tr ++ tr') = dumps_of tr ++ dumps_of tr'.
Proof. apply flat_map_app. Qed.

Lemma requests_of_cons (e : event) (tr : list event) :
  requests_of (e :: tr)
  = match e with Sent r => [r] | _ => [] end ++ requests_of tr.
Proof. reflexivity. Qed.

Lemma dumps_of_cons (e : event) (tr : list event) :
  dumps_of (e :: tr)
  = match e with PrintJson v => [v] | _ => [] end ++ dumps_of tr.
Proof. reflexivity. Qed.


Ltac split_trace :=
  cbn [app];
  repeat first [ rewrite requests_of_app | rewrite requests_of_cons
               | rewrite dumps_of_app | rewrite dumps_of_cons ];
  cbn [app].

Section Orchestrator.

Variable lim : limits.
Variable fs : str -> option folder.
Variable transform : list (list float32) -> list (list float32).
Variable predict : list (list float32) -> list Z.
Variable repr : pyval -> str.
Variable chat : request -> result (option str).

Local Abbreviation classify := (classify_video lim fs transform predict).
Local Abbreviation loop := (for_actions lim fs transform predict repr chat).

(** The service answers every request, with a response on which the
    decoder stays within the limits of the interpreter. *)
Hypothesis chat_answers :
  forall r, exists content,
    chat r = Ok content /\ within_limits lim (content_or_empty content) = true.



Lemma classify_video_skips (action_name : str) :
  no_frames fs action_name = true ->
  exists warning, classify action_name = ([Print warning], Ok (None, [])).
Proof.
  unfold no_frames, pose_files, classify_video.
  destruct (fs _) as [dir |]; [| intros _; eexists; reflexivity ].
  destruct (sorted _) as [| f files]; [| discriminate ].
  intros _. eexists. reflexivity.
Qed.



(** C8.  On an action without frames (its folder is missing, or holds no
    pose file) [classify_video] returns the pair of [None] and the empty
    counts, without raising and with one warning; the loop of [main] prints
    that it skips the action and goes on with the rest of the roster, with
    the history as it was. *)
Theorem classify_video_no_frames (action_name : str) :
  no_frames fs action_name = true ->
  exists warning,
    classify_video lim fs transform predict action_name
    = ([Print warning], Ok (None, [])) /\
    forall rest history,
      for_actions lim fs transform predict repr chat (action_name :: rest) history
      = after_events
          [ Print (lit "[INFO] Processing video for action folder: " ++ action_name);
            Print warning;
            Print (lit "[WARNING] Skipping due to missing or invalid data."
                   ++ newline) ]
          (for_actions lim fs transform predict repr chat rest history).
Proof.
  intros H. destruct (classify_video_skips action_name H) as [w Hw].
  exists w. split; [ exact Hw |]. intros rest history.
  cbn [for_actions]. rewrite Hw.
  unfold emit. rewrite !iobind_ok.
  destruct (for_actions lim fs transform predict repr chat rest history).
  reflexivity.
Qed.


End Orchestrator.

Lemma classify_video_majority_witness :
  classify_video cpython example_store example_transform example_predict
    (lit "open_door")
  = ([], Ok (Some (lit "open_door"),
             [(lit "open_door", PInt 7); (lit "walk_stop", PInt 3)])).
Proof.
  destruct (classify_video_majority cpython example_store example_transform
              example_predict (lit "open_door") [0; 0; 0; 3; 0; 0; 0; 3; 0; 3]%Z)
    as (m & Hc & _ & _ & _ & _ & _ & _ & H73).
  - vm_compute. reflexivity.
  - discriminate.
  - repeat constructor; unfold in_roster; lia.
  - destruct H73 as [Hm Ht]; [ reflexivity | reflexivity | reflexivity |].
    rewrite Hc, Hm, Ht. reflexivity.
Defined.

Lemma classify_video_no_frames_witness :
  exists warning,
    classify_video cpython example_store example_transform example_predict
      (lit "pick_book")
    = ([Print warning], Ok (None, [])) /\
    forall rest history,
      for_actions cpython example_store example_transform example_predict
        no_repr example_chat (lit "pick_book" :: rest) history
      = after_events
          [ Print (lit "[INFO] Processing video for action folder: "
                   ++ lit "pick_book");
            Print warning;
            Print (lit "[WARNING] Skipping due to missing or invalid data."
                   ++ newline) ]
          (for_actions cpython example_store example_transform example_predict
             no_repr example_chat rest history).
Proof.
  apply (classify_video_no_frames cpython example_store example_transform
           example_predict no_repr example_chat (lit "pick_book")).
  reflexivity.
Defined.


(** The run on the example store: pick_book and walk_stop are passed over,
    and three requests are sent. *)
Example example_run_requests :
  requests_of (fst (main cpython example_store example_transform example_predict
                      no_repr example_chat))
  = [ single_request (lit "open_door"); single_request (lit "pour_water");
      temporal_request [lit "open_door"; lit "pour_water"] ].
Proof. vm_compute. reflexivity. Qed.

End PipelineFacts.

(** ** The sanitizer of responses *)

Module SanitizerFacts.

Import Agent AgentFacts Text.

Lemma lstrip_by_edge (p : N -> bool) (s : str) :
  edge p s = true -> lstrip_by p s = s.
Proof. destruct s as [| c s]; cbn; [ reflexivity |]. now destruct (p c). Qed.

Lemma lstrip_by_all (p : N -> bool) (a s : str) :
  forallb p a = true -> lstrip_by p (a ++ s) = lstrip_by p s.
Proof.
  induction a as [| c a IH]; cbn; [ reflexivity |].
  rewrite andb_true_iff. intros [-> H]. now apply IH.
Qed.

Lemma edge_lstrip_by (p : N -> bool) (s : str) : edge p (lstrip_by p s) = true.
Proof.
  induction s as [| c s IH]; cbn; [ reflexivity |].
  destruct (p c) eqn:E; [ exact IH | cbn; now rewrite E ].
Qed.

Lemma lstrip_by_length (p : N -> bool) (s : str) :
  length (lstrip_by p s) <= length s.
Proof.
  induction s as [| c s IH]; cbn; [ lia |]. destruct (p c); cbn; lia.
Qed.

Lemma lstrip_by_fixed (p : N -> bool) (s : str) :
  length (lstrip_by p s) = length s -> edge p s = true.
Proof.
  destruct s as [| c s]; cbn; [ reflexivity |].
  destruct (p c); [| reflexivity ].
  pose proof (lstrip_by_length p s). lia.
Qed.

Lemma edge_app (p : N -> bool) (a b : str) :
  edge p a = true -> edge p b = true -> edge p (a ++ b) = true.
Proof. destruct a; cbn; auto. Qed.

Lemma forallb_rev_true (p : N -> bool) (s : str) :
  forallb p s = true -> forallb p (rev s) = true.
Proof.
  rewrite !forallb_forall. intros H x Hx. apply H. now apply in_rev.
Qed.

(** A string with clean edges between two runs of strippable code points
    is what the strip returns. *)
Lemma strip_by_sandwich (p : N -> bool) (a s b : str) :
  forallb p a = true -> forallb p b = true ->
  edge p s = true -> edge p (rev s) = true ->
  strip_by p (a ++ s ++ b) = s.
Proof.
  intros Ha Hb Hs Hr. unfold strip_by.
  rewrite (lstrip_by_all p a _ Ha).
  destruct s as [| c s'].
  - cbn [app]. replace b with (b ++ []) by apply app_nil_r.
    rewrite (lstrip_by_all p b [] Hb). reflexivity.
  - rewrite (lstrip_by_edge p ((c :: s') ++ b)) by exact Hs.
    rewrite rev_app_distr, lstrip_by_all by (now apply forallb_rev_true).
    rewrite (lstrip_by_edge p _ Hr). apply rev_involutive.
Qed.

(** What a strip returns has clean edges. *)
Lemma strip_by_edges (p : N -> bool) (s : str) :
  edge p (strip_by p s) = true /\ edge p (rev (strip_by p s)) = true.
Proof.
  unfold strip_by. rewrite rev_involutive. split; [| apply edge_lstrip_by ].
  set (t := lstrip_by p s).
  assert (Ht : edge p t = true) by apply edge_lstrip_by.
  clearbody t. clear s.
  (* dropping strippable code points from the end keeps the first one *)
  induction t as [| c t IH] using rev_ind; [ reflexivity |].
  rewrite rev_app_distr. cbn [rev app lstrip_by].
  destruct (p c) eqn:E.
  - apply IH. destruct t; [ reflexivity | exact Ht ].
  - change (c :: rev t) with ([c] ++ rev t).
    rewrite <- (rev_involutive [c]) at 1.
    rewrite <- rev_app_distr, rev_involutive. exact Ht.
Qed.

Lemma strip_by_fixed (p : N -> bool) (s : str) :
  strip_by p s = s -> edge p s = true /\ edge p (rev s) = true.
Proof. intros H. rewrite <- H. apply strip_by_edges. Qed.

Lemma edge_app_l (p : N -> bool) (a b : str) :
  a <> [] -> edge p (a ++ b) = edge p a.
Proof. destruct a; [ congruence | reflexivity ]. Qed.

Lemma clean_app (p : N -> bool) (a b : str) :
  edge p a = true /\ edge p (rev a) = true ->
  edge p b = true /\ edge p (rev b) = true ->
  edge p (a ++ b) = true /\ edge p (rev (a ++ b)) = true.
Proof.
  intros [Ha Ha'] [Hb Hb']. split; [ now apply edge_app |].
  rewrite rev_app_distr. now apply edge_app.
Qed.

Lemma startswith_app (x y : str) : startswith x (x ++ y) = true.
Proof. induction x as [| c x IH]; cbn; [ reflexivity |]. now rewrite N.eqb_refl. Qed.

Lemma isspace_not_backtick (c : N) : isspace c = true -> backtick c = false.
Proof.
  intros H. unfold backtick. cbn. rewrite orb_false_r.
  destruct (N.eqb_spec c 96) as [-> |]; [ discriminate H | reflexivity ].
Qed.

(** Whitespace has clean edges for the strip of backticks. *)
Lemma blank_clean (ws : str) :
  blank ws = true -> edge backtick ws = true /\ edge backtick (rev ws) = true.
Proof.
  intros H.
  assert (Hall : forall s, blank s = true -> edge backtick s = true).
  { intros [| c s]; [ reflexivity |]. unfold blank. cbn [forallb edge].
    rewrite andb_true_iff. intros [Hc _].
    now rewrite (isspace_not_backtick c Hc). }
  split; apply Hall; [ exact H | now apply forallb_rev_true ].
Qed.

Lemma blank_app (a b : str) : blank a = true -> blank b = true -> blank (a ++ b) = true.
Proof. unfold blank. rewrite forallb_app. now intros -> ->. Qed.

Lemma strip_blank (ws : str) : blank ws = true -> strip ws = [].
Proof.
  intros H. unfold strip.
  replace ws with ([] ++ [] ++ ws) by reflexivity.
  now apply strip_by_sandwich.
Qed.

(** A language tag: the letters of [json], in either case. *)
Lemma json_tag (tag : str) :
  lower tag = lit "json" ->
  length tag = 4 /\
  (edge isspace tag = true /\ edge isspace (rev tag) = true) /\
  (edge backtick tag = true /\ edge backtick (rev tag) = true).
Proof.
  intros H.
  assert (Hc : forall c x : N,
             (if ((65 <=? c) && (c <=? 90))%N then (c + 32)%N else c) = x ->
             (x = 106 \/ x = 110)%N ->
             isspace c = false /\ backtick c = false).
  { intros c x Hx Hj.
    assert (c = 74 \/ c = 78 \/ c = 106 \/ c = 110)%N as [-> | [-> | [-> | ->]]].
    { destruct ((65 <=? c) && (c <=? 90))%N; lia. }
    all: split; reflexivity. }
  destruct tag as [| a [| b [| c [| d [| e tag]]]]]; try discriminate H.
  cbn in H. injection H as Ha Hb Hc' Hd.
  destruct (Hc a _ Ha) as [Ha1 Ha2]; [ now left |].
  destruct (Hc d _ Hd) as [Hd1 Hd2]; [ now right |].
  cbn. rewrite Ha1, Hd1. cbn. unfold backtick in Ha2, Hd2. cbn in Ha2, Hd2.
  rewrite Ha2, Hd2. repeat split.
Qed.

(** The text between the fences, for a fenced response with the language
    tag [json] (in any case) or without a tag. *)
Lemma fenced_text (pre ws0 tag ws1 body ws2 post : str) :
  blank pre = true -> blank ws0 = true -> blank ws1 = true ->
  blank ws2 = true -> blank post = true ->
  lower tag = lit "json"
  \/ (tag = [] /\ startswith (lit "json") (lower body) = false) ->
  strip body = body -> strip_chars (lit "`") body = body ->
  _strip_code_fences
    (pre ++ (lit "```" ++ (ws0 ++ tag ++ ws1 ++ body ++ ws2) ++ lit "```") ++ post)
  = body.
Proof.
  intros Hpre H0 H1 H2 Hpost Htag Hbody Hticks.
  apply strip_by_fixed in Hbody. destruct Hbody as [Hb Hb'].
  change (strip_chars (lit "`") body) with (strip_by backtick body) in Hticks.
  apply strip_by_fixed in Hticks.
  set (mid := ws0 ++ tag ++ ws1 ++ body ++ ws2).
  unfold _strip_code_fences.
  (* the outer strip leaves the fenced part *)
  assert (Hcore : strip (pre ++ (lit "```" ++ mid ++ lit "```") ++ post)
                  = lit "```" ++ mid ++ lit "```").
  { apply strip_by_sandwich; try assumption; [ reflexivity |].
    rewrite app_assoc, rev_app_distr. reflexivity. }
  rewrite Hcore. cbn zeta. rewrite startswith_app.
  (* the strip of backticks leaves what is between the fences *)
  assert (Htag' : edge backtick tag = true /\ edge backtick (rev tag) = true).
  { destruct Htag as [Htag | [-> _]]; [ now apply json_tag | now split ]. }
  assert (Hmid : strip_chars (lit "`") (lit "```" ++ mid ++ lit "```") = mid).
  { apply strip_by_sandwich; try reflexivity;
      apply (clean_app backtick ws0), (clean_app backtick tag),
        (clean_app backtick ws1), (clean_app backtick body);
      auto using blank_clean. }
  rewrite Hmid. unfold mid. clear Hcore Hmid mid.
  destruct Htag as [Htag | [-> Hjson]].
  - (* a tag: it is removed with the whitespace after it *)
    destruct (json_tag tag Htag) as (Hlen & [Ht Ht'] & _).
    assert (Hstrip : exists rest,
               strip (ws0 ++ tag ++ ws1 ++ body ++ ws2) = tag ++ rest /\
               strip rest = body).
    { destruct body as [| c body'].
      - exists []. split; [| reflexivity ].
        rewrite app_nil_r. cbn [app].
        apply strip_by_sandwich; auto using blank_app.
      - exists (ws1 ++ c :: body'). split.
        + replace (ws0 ++ tag ++ ws1 ++ (c :: body') ++ ws2)
            with (ws0 ++ (tag ++ ws1 ++ c :: body') ++ ws2)
            by (now rewrite <- !app_assoc).
          apply strip_by_sandwich; try assumption.
          * rewrite edge_app_l; [ exact Ht | now destruct tag ].
          * rewrite !rev_app_distr, <- app_assoc.
            rewrite edge_app_l; [ exact Hb' |].
            cbn [rev]. now destruct (rev body').
        + replace (ws1 ++ c :: body') with (ws1 ++ (c :: body') ++ [])
            by (now rewrite app_nil_r).
          now apply strip_by_sandwich. }
    destruct Hstrip as (rest & -> & Hrest).
    unfold lower. rewrite map_app. fold (lower tag). rewrite Htag, startswith_app.
    rewrite <- Hlen, skipn_app, skipn_all, Nat.sub_diag. exact Hrest.
  - (* no tag: the body is all that is left *)
    cbn [app].
    assert (Hstrip : strip (ws0 ++ ws1 ++ body ++ ws2) = body).
    { rewrite app_assoc. apply strip_by_sandwich; auto using blank_app. }
    rewrite Hstrip, Hjson. reflexivity.
Qed.

Lemma strip_code_fences_bare (body : str) :
  strip body = body -> strip_chars (lit "`") body = body ->
  _strip_code_fences body = body.
Proof.
  intros Hs Ht. unfold _strip_code_fences. rewrite Hs.
  change (strip_chars (lit "`") body) with (strip_by backtick body) in Ht.
  apply strip_by_fixed in Ht. destruct Ht as [Ht _].
  destruct body as [| c body']; [ reflexivity |].
  assert (Hc : (96 =? c)%N = false).
  { apply N.eqb_neq. intros <-. cbn in Ht. discriminate Ht. }
  cbn zeta. change (lit "```") with [96; 96; 96]%N.
  cbn [startswith]. now rewrite Hc.
Qed.

(** X5.  A response wrapped in a code fence, with the language tag [json] in
    any letter case or without a tag, and with any whitespace around the
    fence and around the body, is sanitized to its body; both normalizers
    return for it what they return for the bare body. *)
Theorem fenced_response_unwrapped (lim : limits) (repr : pyval -> str)
  (pre ws0 tag ws1 body ws2 post : str) :
  blank pre = true -> blank ws0 = true -> blank ws1 = true ->
  blank ws2 = true -> blank post = true ->
  lower tag = lit "json"
  \/ (tag = [] /\ startswith (lit "json") (lower body) = false) ->
  strip body = body -> strip_chars (lit "`") body = body ->
  let fenced :=
    pre ++ (lit "```" ++ (ws0 ++ tag ++ ws1 ++ body ++ ws2) ++ lit "```") ++ post in
  _strip_code_fences fenced = body /\
  normalizeSingle lim repr fenced = normalizeSingle lim repr body /\
  normalizeTemporal lim repr fenced = normalizeTemporal lim repr body.
Proof.
  intros Hpre H0 H1 H2 Hpost Htag Hs Ht fenced.
  assert (Hf : _strip_code_fences fenced = body) by now apply fenced_text.
  assert (Hb : _strip_code_fences body = body) by now apply strip_code_fences_bare.
  split; [ exact Hf |].
  unfold normalizeSingle, normalizeTemporal. rewrite Hf, Hb. now split.
Qed.

Lemma fenced_response_unwrapped_witness :
  _strip_code_fences
    (lit " " ++ (lit "```" ++ ([] ++ lit "JSON" ++ [10%N]
                               ++ dq "{'intent': 'go on'}" ++ [10%N])
                 ++ lit "```") ++ lit " ")
  = dq "{'intent': 'go on'}".
Proof.
  apply (fenced_response_unwrapped cpython no_repr (lit " ") [] (lit "JSON") [10%N]
           (dq "{'intent': 'go on'}") [10%N] (lit " "));
    try reflexivity.
  left. reflexivity.
Defined.

(** X6.  The sanitized text never begins or ends with whitespace: to strip
    it again changes nothing. *)
Theorem strip_code_fences_trimmed (text : str) :
  strip (_strip_code_fences text) = _strip_code_fences text /\
  edge isspace (_strip_code_fences text) = true /\
  edge isspace (rev (_strip_code_fences text)) = true.
Proof.
  assert (Hclean : edge isspace (_strip_code_fences text) = true /\
                   edge isspace (rev (_strip_code_fences text)) = true).
  { unfold _strip_code_fences, strip.
    destruct (startswith _ _); [| apply strip_by_edges ].
    destruct (startswith _ _); apply strip_by_edges. }
  split; [| exact Hclean ].
  destruct Hclean as [Hl Hr]. unfold strip.
  rewrite <- (app_nil_r (_strip_code_fences text)) at 1.
  now apply (strip_by_sandwich isspace []).
Qed.

End SanitizerFacts.

(** ** The normalizers on their own results *)

Module NormalizerLaws.

Import Agent AgentFacts.

Section Laws.

Variable repr : pyval -> str.

Lemma list_text_strs (l : list str) : list_text repr (strs l) = l.
Proof.
  unfold list_text, strs. induction l as [| s l IH]; cbn; [ reflexivity |].
  now rewrite IH.
Qed.

(** The normalizer reads a typed object back as it is, up to the top-ups. *)
Lemma single_view_object (r : ReasoningObject) :
  single_view repr (reasoning_object r)
  = {| intent := intent r; next_step := next_step r;
       explanation := explanation r;
       environment := environment r;
       agent_state := agent_state r;
       affordances := top_up 3 canned_affordances 5 (affordances r);
       constraints := top_up 2 canned_constraints 4 (constraints r);
       task_goal := task_goal r; current_step := current_step r;
       future_steps := top_up 2 canned_future_steps 4 (future_steps r);
       target_objects :=
         top_up_targets (key_objects (environment r)) (target_objects r) |}.
Proof.
  destruct r as [i n e [sc ko] ag af co tg cu fu ta].
  unfold single_view, reasoning_object, single_dict, str_field, list_field, env_of.
  unfold get_or, str_text.
  cbn -[top_up top_up_targets list_text strs].
  now rewrite !list_text_strs.
Qed.

Lemma temporal_view_object (t : TemporalObject) :
  temporal_view repr (temporal_object t) = t.
Proof.
  destruct t as [o s p f u].
  unfold temporal_view, temporal_object, str_field, list_field.
  unfold get_or, str_text. cbn -[list_text strs].
  now rewrite !list_text_strs.
Qed.

Lemma strs_inj (a b : list str) : map PStr a = map PStr b -> a = b.
Proof.
  revert b.
  induction a as [| x a IH]; intros [| y b]; cbn; try discriminate; [ reflexivity |].
  intros [= -> H]. f_equal. now apply IH.
Qed.

(** Topping up the targets a second time changes nothing exactly when the
    first time left at least two of them. *)
Lemma top_up_targets_again (ko l : list str) :
  top_up_targets ko (top_up_targets ko l) = top_up_targets ko l
  <-> 2 <= length (top_up_targets ko l).
Proof.
  split; [| apply top_up_targets_keeps ].
  unfold top_up_targets at 2 3 4.
  destruct (length l <? 2) eqn:E; [| apply Nat.ltb_ge in E; lia ].
  apply Nat.ltb_lt in E.
  destruct ko as [| k ko']; [ destruct l as [| x [| y l']]; cbn; intros; lia |].
  destruct l as [| x [| y l']]; [| | cbn in E; lia ].
  - destruct ko' as [| k' ko'']; [| cbn; intros; lia ].
    cbn. discriminate.
  - cbn. intros; lia.
Qed.

(** X7.  A typed object of the schema whose lists have their minimum sizes
    is returned as it is. *)
Theorem schema_object_unchanged (r : ReasoningObject) :
  3 <= length (affordances r) -> 2 <= length (constraints r) ->
  2 <= length (future_steps r) -> 2 <= length (target_objects r) ->
  _normalize_single_action_json repr (reasoning_object r) = Ok (reasoning_object r).
Proof.
  intros Ha Hc Hf Ht.
  rewrite normalize_single_view, single_view_object.
  rewrite !top_up_keeps, top_up_targets_keeps by assumption.
  now destruct r as [i n e [sc ko] ag af co tg cu fu ta].
Qed.

(** X8.  A second pass of the single-action normalizer changes nothing
    exactly when the first pass returned at least two target objects. *)
Theorem normalize_single_twice (data : pyval) :
  exists r : ReasoningObject,
    _normalize_single_action_json repr data = Ok (reasoning_object r) /\
    (_normalize_single_action_json repr (reasoning_object r) = Ok (reasoning_object r)
     <-> 2 <= length (target_objects r)).
Proof.
  exists (single_view repr data).
  split; [ apply normalize_single_view |].
  rewrite normalize_single_view, single_view_object.
  set (r := single_view repr data).
  assert (Ha : top_up 3 canned_affordances 5 (affordances r) = affordances r)
    by (apply top_up_keeps, top_up_lower; cbn; lia).
  assert (Hc : top_up 2 canned_constraints 4 (constraints r) = constraints r)
    by (apply top_up_keeps, top_up_lower; cbn; lia).
  assert (Hf : top_up 2 canned_future_steps 4 (future_steps r) = future_steps r)
    by (apply top_up_keeps, top_up_lower; cbn; lia).
  rewrite Ha, Hc, Hf.
  assert (Ht : top_up_targets (key_objects (environment r)) (target_objects r)
               = target_objects r <-> 2 <= length (target_objects r))
    by apply top_up_targets_again.
  rewrite <- Ht. clear Ha Hc Hf Ht. clearbody r.
  destruct r as [i n e [sc ko] ag af co tg cu fu ta].
  cbn -[strs top_up_targets].
  split.
  - intros [= H]. now apply strs_inj.
  - now intros ->.
Qed.

(** X9.  The temporal normalizer returns a typed object, and returns every
    typed object as it is: a second pass changes nothing. *)
Theorem normalize_temporal_idempotent (data : pyval) :
  (exists t : TemporalObject,
     _normalize_temporal_json repr data = Ok (temporal_object t)) /\
  (forall t : TemporalObject,
     _normalize_temporal_json repr (temporal_object t) = Ok (temporal_object t)).
Proof.
  split.
  - exists (temporal_view repr data). apply normalize_temporal_view.
  - intros t. rewrite normalize_temporal_view. now rewrite temporal_view_object.
Qed.

End Laws.

Lemma schema_object_unchanged_witness :
  _normalize_single_action_json no_repr (reasoning_object (degraded_object (lit "raw")))
  = Ok (reasoning_object (degraded_object (lit "raw"))).
Proof.
  apply (schema_object_unchanged no_repr (degraded_object (lit "raw"))); cbn; lia.
Defined.

End NormalizerLaws.

(** ** The command line of the agent *)

Module CliFacts.

Import Agent AgentFacts Pipeline PipelineFacts Text SanitizerFacts Cli.


Lemma split_whole (sep : N) (p : str) :
  ~ In sep p -> split sep p = [p].
Proof.
  induction p as [| c p IH]; cbn; [ reflexivity |]. intros H.
  destruct (N.eqb_spec c sep) as [-> | _]; [ tauto |].
  rewrite IH by tauto. reflexivity.
Qed.

Lemma split_at (sep : N) (p s : str) :
  ~ In sep p -> split sep (p ++ sep :: s) = p :: split sep s.
Proof.
  induction p as [| c p IH]; cbn; intros H.
  - now rewrite N.eqb_refl.
  - destruct (N.eqb_spec c sep) as [-> | _]; [ tauto |].
    rewrite IH by tauto. reflexivity.
Qed.

(** To split what was joined gives the pieces back. *)
Lemma split_join (sep : N) (pieces : list str) :
  pieces <> [] -> Forall (fun p => ~ In sep p) pieces ->
  split sep (join [sep] pieces) = pieces.
Proof.
  induction pieces as [| p pieces IH]; [ congruence |]. intros _ H.
  apply Forall_cons_iff in H. destruct H as [Hp H].
  destruct pieces as [| q pieces'].
  - cbn. now apply split_whole.
  - change (join [sep] (p :: q :: pieces')) with (p ++ sep :: join [sep] (q :: pieces')).
    rewrite split_at by exact Hp. f_equal. apply IH; [ discriminate | exact H ].
Qed.

Lemma split_pieces (sep : N) (s : str) :
  Forall (fun p => ~ In sep p) (split sep s).
Proof.
  induction s as [| c s IH]; cbn; [ repeat constructor; tauto |].
  destruct (N.eqb_spec c sep) as [-> | Hc].
  - constructor; [ tauto | exact IH ].
  - destruct (split sep s) as [| p ps]; [ repeat constructor; cbn; intuition |].
    apply Forall_cons_iff in IH. destruct IH as [Hp Hps].
    constructor; [| exact Hps ]. cbn. intuition.
Qed.

Lemma lstrip_by_nil (p : N -> bool) (s : str) :
  lstrip_by p s = [] -> forallb p s = true.
Proof.
  induction s as [| c s IH]; cbn; [ reflexivity |].
  destruct (p c); [ exact IH | discriminate ].
Qed.

(** The strip leaves nothing exactly of the blank strings. *)
Lemma strip_nil (s : str) : strip s = [] <-> blank s = true.
Proof.
  split; [| apply strip_blank ].
  unfold strip, strip_by, blank. intros H.
  apply (f_equal (@rev N)) in H. rewrite rev_involutive in H. cbn in H.
  apply lstrip_by_nil in H.
  assert (Ht : forallb isspace (lstrip_by isspace s) = true).
  { rewrite <- (rev_involutive (lstrip_by isspace s)). now apply forallb_rev_true. }
  pose proof (edge_lstrip_by isspace s) as He.
  destruct (lstrip_by isspace s) as [| c t] eqn:E.
  - now apply lstrip_by_nil.
  - cbn in Ht, He. destruct (isspace c); discriminate.
Qed.

Lemma truthy_strip (s : str) : truthy (PStr (strip s)) = negb (blank s).
Proof.
  cbn. destruct (blank s) eqn:E.
  - apply strip_nil in E. now rewrite E.
  - destruct (strip s) eqn:Es; [| reflexivity ].
    apply strip_nil in Es. congruence.
Qed.

Lemma strip_idempotent (s : str) : strip (strip s) = strip s.
Proof.
  destruct (strip_by_edges isspace s) as [Hl Hr]. unfold strip.
  rewrite <- (app_nil_r (strip_by isspace s)) at 1.
  now apply (strip_by_sandwich isspace []).
Qed.

Lemma lstrip_by_incl (p : N -> bool) (s : str) (x : N) :
  In x (lstrip_by p s) -> In x s.
Proof.
  induction s as [| c s IH]; cbn; [ tauto |].
  destruct (p c); [ auto | tauto ].
Qed.

Lemma strip_incl (s : str) (x : N) : In x (strip s) -> In x s.
Proof.
  unfold strip, strip_by. intros H.
  apply in_rev, lstrip_by_incl, in_rev, lstrip_by_incl in H. exact H.
Qed.

Lemma parse_sequence_pieces (pieces : list str) :
  Forall (fun p => ~ In 44%N p) pieces ->
  parse_sequence (join (lit ",") pieces)
  = map strip (filter (fun p => negb (blank p)) pieces).
Proof.
  intros H. unfold parse_sequence.
  assert (Hf : forall l, filter (fun s => truthy (PStr (strip s))) l
                         = filter (fun p => negb (blank p)) l).
  { intros l. apply filter_ext. intros a. apply truthy_strip. }
  rewrite Hf. destruct pieces as [| p pieces']; [ reflexivity |].
  change (lit ",") with [44%N]. rewrite split_join; [ reflexivity | discriminate | exact H ].
Qed.

(** X12.  Whatever the text given with [--sequence], every label that
    reaches the temporal reasoning is passable: not empty, trimmed,
    comma-free. *)
Theorem parse_sequence_passable (sequence : str) :
  Forall passable (parse_sequence sequence).
Proof.
  unfold parse_sequence. apply Forall_forall. intros l Hl.
  apply in_map_iff in Hl. destruct Hl as (p & <- & Hp).
  apply filter_In in Hp. destruct Hp as [Hp Ht].
  repeat split.
  - intros E. rewrite E in Ht. discriminate Ht.
  - apply strip_idempotent.
  - intros Hc. apply strip_incl in Hc.
    pose proof (split_pieces 44%N sequence) as Hall.
    rewrite Forall_forall in Hall. exact (Hall p Hp Hc).
Qed.

Lemma split_separators (sep : N) (p : N -> bool) (s : str) :
  forallb (fun c => (c =? sep)%N || p c) s = true ->
  Forall (fun piece => forallb p piece = true) (split sep s).
Proof.
  induction s as [| c s IH]; cbn; [ repeat constructor |].
  rewrite andb_true_iff. intros [Hc Hs]. specialize (IH Hs).
  destruct (c =? sep)%N; [ now constructor |].
  cbn in Hc. destruct (split sep s) as [| piece pieces].
  - repeat constructor. cbn. now rewrite Hc.
  - apply Forall_cons_iff in IH. destruct IH as [Hp Hps].
    constructor; [| exact Hps ]. cbn. now rewrite Hc.
Qed.

(** A text made of commas and whitespace names no label. *)
Lemma parse_sequence_separators (sequence : str) :
  forallb (fun c => (c =? 44)%N || isspace c) sequence = true ->
  parse_sequence sequence = [].
Proof.
  intros H. unfold parse_sequence.
  pose proof (split_separators 44%N isspace sequence H) as Hall.
  induction Hall as [| p ps Hp _ IH]; [ reflexivity |].
  cbn [filter]. rewrite truthy_strip. fold (blank p) in Hp. now rewrite Hp.
Qed.

Section MainFacts.

Variable lim : limits.
Variable repr : pyval -> str.
Variable chat : request -> result (option str).
Variable input : str -> result str.

(** X11.  The labels given with [--sequence], separated by commas, reach the
    temporal reasoning as they are, and one temporal request over them is
    all that is sent, whatever [--action] says. *)
Theorem sequence_round_trip (labels : list str) (a : option str) :
  labels <> [] -> Forall passable labels ->
  parse_sequence (join (lit ",") labels) = labels /\
  requests_of
    (fst (main lim repr chat input
            {| action := a; sequence := Some (join (lit ",") labels) |}))
  = [temporal_request labels].
Proof.
  intros Hne Hl.
  assert (Hparse : parse_sequence (join (lit ",") labels) = labels).
  { rewrite parse_sequence_pieces
      by (eapply Forall_impl; [| exact Hl ]; now intros l (_ & _ & H)).
    clear Hne. induction Hl as [| l labels (Hn & Hs & _) _ IH]; [ reflexivity |].
    cbn [filter]. destruct (blank l) eqn:E.
    - apply strip_nil in E. congruence.
    - cbn [negb map]. now rewrite Hs, IH. }
  split; [ exact Hparse |].
  destruct (join (lit ",") labels) as [| c text] eqn:Ej.
  { destruct labels as [| l labels']; [ congruence |].
    apply Forall_cons_iff in Hl. destruct Hl as [(Hn & _) _].
    destruct l; [ congruence |]. destruct labels'; discriminate Ej. }
  unfold main. cbn [sequence]. rewrite Hparse. unfold llm_temporal_reasoning.
  destruct labels as [| l labels']; [ congruence |].
  fold (temporal_request (l :: labels')).
  unfold emit, lift. rewrite iobind_ok.
  destruct (chat (temporal_request (l :: labels'))) as [content | e]; [| reflexivity ].
  rewrite iobind_ok.
  destruct (normalizeTemporal lim repr (content_or_empty content)); reflexivity.
Qed.

(** X13.  Without a label no request is sent. A [--sequence] made of commas
    and whitespace prints the temporal object with empty strings and empty
    lists; without [--sequence] and [--action], a blank line typed at the
    prompt prints the error line. *)
Theorem no_label_no_request (args : Args) :
  (forall text, sequence args = Some text ->
     text <> [] -> forallb (fun c => (c =? 44)%N || isspace c) text = true ->
     main lim repr chat input args
     = ([PrintJson
           (temporal_object
              {| overall_task := []; step_roles := []; possible_goal := [];
                 future_plan := []; uncertainty_notes := [] |})],
        Ok tt)) /\
  (forall line,
     (sequence args = None \/ sequence args = Some []) ->
     (action args = None \/ action args = Some []) ->
     input (lit "Enter action label (e.g., open_door): ") = Ok line ->
     blank line = true ->
     main lim repr chat input args
     = ([Print (lit "=== Human Action Reasoning Agent ===");
         Print (lit "Available labels: open_door, pick_book, pour_water, walk_stop");
         Print (lit "[ERROR] Empty action label.")],
        Ok tt)).
Proof.
  split.
  - intros text Hs Hne Hsep. unfold main. rewrite Hs.
    destruct text as [| c text']; [ congruence |].
    rewrite (parse_sequence_separators _ Hsep).
    unfold llm_temporal_reasoning, lift.
    now rewrite normalize_temporal_view.
  - intros line Hs Ha Hin Hblank. unfold main.
    assert (Hstrip : strip line = []) by now apply strip_nil.
    destruct Hs as [-> | ->], Ha as [-> | ->];
      rewrite Hin; unfold emit, lift, ret; cbn -[strip]; now rewrite Hstrip.
Qed.

End MainFacts.

Lemma sequence_round_trip_witness :
  parse_sequence (lit "open_door,walk_stop") = [lit "open_door"; lit "walk_stop"].
Proof.
  apply (sequence_round_trip cpython no_repr example_chat (fun _ => Raise OSError)
           [lit "open_door"; lit "walk_stop"] None).
  - discriminate.
  - repeat constructor; try discriminate; try reflexivity;
      cbn; intros H; repeat (destruct H as [H | H]; [ discriminate H |]); exact H.
Defined.

Lemma no_label_no_request_witness :
  main cpython no_repr example_chat (fun _ => Raise OSError)
    {| action := Some (lit "open_door"); sequence := Some (lit " , ,") |}
  = ([PrintJson
        (temporal_object
           {| overall_task := []; step_roles := []; possible_goal := [];
              future_plan := []; uncertainty_notes := [] |})],
     Ok tt).
Proof.
  apply (proj1 (no_label_no_request cpython no_repr example_chat
                  (fun _ => Raise OSError)
                  {| action := Some (lit "open_door");
                     sequence := Some (lit " , ,") |})
           (lit " , ,"));
    [ reflexivity | discriminate | reflexivity ].
Defined.

End CliFacts.

(** ** Responses without text *)

Module ServiceFacts.

Import Agent AgentFacts Pipeline PipelineFacts Text SanitizerFacts.

Section Service.

Variable lim : limits.
Variable repr : pyval -> str.
Variable chat : request -> result (option str).

Lemma sanitized_no_text (content : option str) :
  no_text content = true -> _strip_code_fences (content_or_empty content) = [].
Proof.
  intros H.
  assert (Hb : blank (content_or_empty content) = true).
  { destruct content as [[| c s] |]; try reflexivity. exact H. }
  unfold _strip_code_fences. now rewrite (strip_blank _ Hb).
Qed.

(** X10.  A response without text (no content, the empty string, or
    whitespace only) gives, for a single action, the object with empty
    strings and the canned lists, and for a history that is not empty, the
    temporal object whose only entry is the empty note; one request is sent
    in each case. *)
Theorem response_without_text (content : option str) :
  no_text content = true ->
  (forall label,
     chat (single_request label) = Ok content ->
     llm_reasoning lim repr chat label
     = ([Sent (single_request label)],
        Ok (reasoning_object (degraded_object [])))) /\
  (forall history,
     history <> [] ->
     chat (temporal_request history) = Ok content ->
     llm_temporal_reasoning lim repr chat history
     = ([Sent (temporal_request history)],
        Ok (temporal_object
              {| overall_task := []; step_roles := []; possible_goal := [];
                 future_plan := []; uncertainty_notes := [ [] ] |}))).
Proof.
  intros H. pose proof (sanitized_no_text content H) as Hs.
  split.
  - intros label Hc. unfold llm_reasoning. fold (single_request label).
    rewrite Hc. unfold emit, lift. rewrite !iobind_ok.
    rewrite normalizeSingle_view by (unfold within_limits; now rewrite Hs).
    unfold decoded. rewrite Hs. reflexivity.
  - intros history Hne Hc. unfold llm_temporal_reasoning.
    destruct history as [| l history']; [ congruence |].
    fold (temporal_request (l :: history')).
    rewrite Hc. unfold emit, lift. rewrite !iobind_ok.
    rewrite normalizeTemporal_view by (unfold within_limits; now rewrite Hs).
    unfold decoded. rewrite Hs. reflexivity.
Qed.

End Service.

Lemma response_without_text_witness :
  llm_reasoning cpython no_repr (fun _ => Ok (Some (lit "  "))) (lit "open_door")
  = ([Sent (single_request (lit "open_door"))],
     Ok (reasoning_object (degraded_object []))).
Proof.
  apply (response_without_text cpython no_repr (fun _ => Ok (Some (lit "  ")))
           (Some (lit "  "))); reflexivity.
Defined.

End ServiceFacts.

(** ** The encoder on every input *)

Module EncoderFacts.

Import Dataset DatasetFacts.

Lemma firstn_repeat (A : Type) (x : A) (n m : nat) :
  firstn n (repeat x m) = repeat x (Nat.min n m).
Proof.
  revert m. induction n as [| n IH]; intros [| m]; cbn; try reflexivity.
  now rewrite IH.
Qed.

Section Encoder.

Variable lim : limits.

(** For a dimension that is not negative, what the encoder returns has
    [dim] values. *)
Lemma encoder_length (keypoints : option (list (list number))) (dim : Z)
  (v : list float32) :
  (0 <= dim)%Z ->
  keypoints_to_vector lim keypoints dim = Ok v -> Z.of_nat (length v) = dim.
Proof.
  intros Hdim. unfold keypoints_to_vector.
  destruct keypoints as [rows |].
  2:{ intros H. apply np_zeros_returns in H. destruct H as (_ & _ & ->).
      rewrite repeat_length. lia. }
  destruct (flatten3 rows) as [flat | e]; cbn [bind]; [| discriminate ].
  destruct (dim <=? Z.of_nat (length flat))%Z eqn:E.
  - apply Z.leb_le in E. unfold prefix.
    replace (0 <=? dim)%Z with true by (symmetry; apply Z.leb_le; lia).
    intros [= <-]. rewrite length_firstn. lia.
  - apply Z.leb_gt in E.
    destruct (np_zeros lim dim) as [output | e] eqn:Ez; cbn [bind]; [| discriminate ].
    apply np_zeros_returns in Ez. destruct Ez as (_ & _ & ->).
    intros [= <-]. rewrite length_app, skipn_repeat, repeat_length. lia.
Qed.

(** A detection made of triples of convertible numbers is encoded in a
    dimension that is not too large, in [dim] values. *)
Lemma encoder_returns (keypoints : option (list (list number))) (dim : Z) :
  (0 <= dim)%Z -> allocatable lim dim -> triples keypoints ->
  Forall convertible (values_of keypoints) ->
  exists v, keypoints_to_vector lim keypoints dim = Ok v /\
            Z.of_nat (length v) = dim.
Proof.
  intros Hdim Ha Ht Hc.
  assert (exists v, keypoints_to_vector lim keypoints dim = Ok v) as [v Hv].
  { unfold keypoints_to_vector. destruct keypoints as [rows |].
    - cbn in Ht, Hc. rewrite (flatten3_triples rows Ht Hc). cbn [bind].
      destruct (dim <=? _)%Z; [ eauto |].
      rewrite (np_zeros_allocatable lim dim Hdim Ha). cbn [bind]. eauto.
    - rewrite (np_zeros_allocatable lim dim Hdim Ha). eauto. }
  exists v. split; [ exact Hv | exact (encoder_length _ _ _ Hdim Hv) ].
Qed.

(** X14.  Whenever the encoder returns, for a dimension that is not
    negative, the vector has [dim] values.  It raises [ValueError] only for
    a detection that is not made of triples or for a dimension of 2^61 or
    more, [OverflowError] only for a detection with an integer beyond the
    range of a float, [MemoryError] only for a dimension beyond what the
    machine allocates, and nothing else. *)
Theorem keypoints_to_vector_outcomes (keypoints : option (list (list number)))
  (dim : Z) :
  (0 <= dim)%Z ->
  match keypoints_to_vector lim keypoints dim with
  | Ok v => Z.of_nat (length v) = dim
  | Raise ValueError =>
      (exists rows, keypoints = Some rows /\ ~ Forall (fun r => length r = 3) rows)
      \/ (2 ^ 61 <= dim)%Z
  | Raise OverflowError => ~ Forall convertible (values_of keypoints)
  | Raise MemoryError => (Z.of_N (array_capacity lim) < dim < 2 ^ 61)%Z
  | Raise _ => False
  end.
Proof.
  intros Hdim.
  destruct (keypoints_to_vector lim keypoints dim) as [v | e] eqn:Ev.
  { exact (encoder_length keypoints dim v Hdim Ev). }
  assert (Hz : forall e', np_zeros lim dim = Raise e' ->
                 match e' with
                 | ValueError =>
                     (exists rows, keypoints = Some rows
                                   /\ ~ Forall (fun r => length r = 3) rows)
                     \/ (2 ^ 61 <= dim)%Z
                 | OverflowError => ~ Forall convertible (values_of keypoints)
                 | MemoryError => (Z.of_N (array_capacity lim) < dim < 2 ^ 61)%Z
                 | _ => False
                 end).
  { intros e' He'. destruct (np_zeros_raises lim dim e' He') as [[-> H] | [-> H]].
    - right. lia.
    - exact H. }
  unfold keypoints_to_vector in Ev.
  destruct keypoints as [rows |]; [| exact (Hz e Ev) ].
  destruct (flatten3 rows) as [flat | e'] eqn:Ef; cbn [bind] in Ev.
  - destruct (dim <=? _)%Z; [ discriminate Ev |].
    destruct (np_zeros lim dim) as [output | e'] eqn:Ez; cbn [bind] in Ev;
      [ discriminate Ev |].
    injection Ev as <-. exact (Hz e' eq_refl).
  - injection Ev as <-.
    destruct (flatten3_raises rows e' Ef) as [[-> Hn] | [-> Hn]].
    + left. now exists rows.
    + exact Hn.
Qed.

(** X15.  For a negative dimension a missing detection raises [ValueError],
    but a detection made of triples of convertible numbers does not: the
    encoder returns its converted values without the last [- dim] of
    them. *)
Theorem keypoints_to_vector_negative_dim (rows : list (list number)) (dim : Z) :
  (dim < 0)%Z -> Forall (fun r => length r = 3) rows ->
  Forall convertible (concat rows) ->
  keypoints_to_vector lim None dim = Raise ValueError /\
  keypoints_to_vector lim (Some rows) dim
  = Ok (firstn (3 * length rows - Z.to_nat (- dim)) (rounded (concat rows))).
Proof.
  intros Hdim Ht Hc. unfold keypoints_to_vector, np_zeros.
  replace (dim <? 0)%Z with true by (symmetry; apply Z.ltb_lt; lia).
  split; [ reflexivity |].
  rewrite (flatten3_triples rows Ht Hc). cbn [bind].
  replace (dim <=? Z.of_nat (length (rounded (concat rows))))%Z with true
    by (symmetry; apply Z.leb_le; lia).
  unfold prefix.
  replace (0 <=? dim)%Z with false by (symmetry; apply Z.leb_gt; lia).
  now rewrite rounded_length, (concat_triples_length _ rows Ht).
Qed.

(** X16.  The encodings of one detection in two dimensions agree: the
    shorter vector is the start of the longer one. *)
Theorem keypoints_to_vector_prefix (keypoints : option (list (list number)))
  (dim dim' : Z) (v' : list float32) :
  (0 <= dim <= dim')%Z ->
  keypoints_to_vector lim keypoints dim' = Ok v' ->
  keypoints_to_vector lim keypoints dim = Ok (firstn (Z.to_nat dim) v').
Proof.
  intros Hdim. unfold keypoints_to_vector.
  assert (Hz : forall output, np_zeros lim dim' = Ok output ->
                 output = repeat zero (Z.to_nat dim') /\
                 np_zeros lim dim = Ok (repeat zero (Z.to_nat dim))).
  { intros output H. apply np_zeros_returns in H. destruct H as (_ & [H61 Hc] & ->).
    split; [ reflexivity |]. apply np_zeros_allocatable; [ lia |]. split; lia. }
  destruct keypoints as [rows |].
  2:{ intros H. destruct (Hz v' H) as [-> ->].
      rewrite firstn_repeat. do 2 f_equal. lia. }
  destruct (flatten3 rows) as [flat | e]; cbn [bind]; [| discriminate ].
  unfold prefix.
  replace (0 <=? dim)%Z with true by (symmetry; apply Z.leb_le; lia).
  replace (0 <=? dim')%Z with true by (symmetry; apply Z.leb_le; lia).
  destruct (dim' <=? Z.of_nat (length flat))%Z eqn:E'.
  - apply Z.leb_le in E'. intros [= <-].
    replace (dim <=? Z.of_nat (length flat))%Z with true
      by (symmetry; apply Z.leb_le; lia).
    rewrite firstn_firstn. do 2 f_equal. lia.
  - apply Z.leb_gt in E'.
    destruct (np_zeros lim dim') as [output | e] eqn:Ez; cbn [bind]; [| discriminate ].
    destruct (Hz output eq_refl) as [-> Hzd].
    intros [= <-].
    rewrite !skipn_repeat, firstn_app, firstn_repeat.
    destruct (dim <=? Z.of_nat (length flat))%Z eqn:E.
    + apply Z.leb_le in E.
      replace (Z.to_nat dim - length flat) with 0 by lia.
      cbn. now rewrite app_nil_r.
    + apply Z.leb_gt in E. rewrite Hzd. cbn [bind].
      rewrite skipn_repeat.
      rewrite firstn_all2 by lia. now rewrite Nat.min_l by lia.
Qed.

Lemma concat_triples_inj (A : Type) (rows rows' : list (list A)) :
  Forall (fun r => length r = 3) rows -> Forall (fun r => length r = 3) rows' ->
  concat rows = concat rows' -> rows = rows'.
Proof.
  intros H. revert rows'. induction H as [| r rows Hr _ IH]; intros rows' H' E.
  - destruct H' as [| r' rows' Hr' _]; [ reflexivity |].
    cbn in E. destruct r'; discriminate.
  - destruct H' as [| r' rows' Hr' H'].
    + cbn in E. destruct r; discriminate.
    + cbn in E.
      assert (r = r' /\ concat rows = concat rows') as [-> Hc].
      { destruct r as [| a [| b [| c [| d r]]]]; try discriminate Hr.
        destruct r' as [| a' [| b' [| c' [| d' r']]]]; try discriminate Hr'.
        cbn in E. injection E as -> -> -> E. now split. }
      f_equal. now apply IH.
Qed.

Lemma rounded_concat (rows : list (list number)) :
  rounded (concat rows) = concat (map rounded rows).
Proof. unfold rounded. now rewrite concat_map. Qed.

(** X17.  A detection with exactly [dim] values is encoded without loss
    other than that of the conversion: the vector is its values, each
    converted to the nearest [float32] value, and two such detections with
    the same vector have the same converted values, keypoint by keypoint.
    The conversion does lose: the integers 16777217 and 16777216 get the
    same vector. *)
Theorem keypoints_to_vector_lossless (rows : list (list number)) (dim : Z) :
  Forall (fun r => length r = 3) rows -> Forall convertible (concat rows) ->
  Z.of_nat (3 * length rows) = dim ->
  keypoints_to_vector lim (Some rows) dim = Ok (rounded (concat rows)) /\
  (forall rows',
     Forall (fun r => length r = 3) rows' -> Forall convertible (concat rows') ->
     Z.of_nat (3 * length rows') = dim ->
     keypoints_to_vector lim (Some rows') dim
     = keypoints_to_vector lim (Some rows) dim ->
     map rounded rows' = map rounded rows) /\
  keypoints_to_vector lim (Some [[Int 16777217; Int 0; Int 1]]) 3
  = keypoints_to_vector lim (Some [[Int 16777216; Int 0; Int 1]]) 3.
Proof.
  intros Ht Hc Hdim.
  assert (Henc : forall rs, Forall (fun r => length r = 3) rs ->
                   Forall convertible (concat rs) ->
                   Z.of_nat (3 * length rs) = dim ->
                   keypoints_to_vector lim (Some rs) dim
                   = Ok (rounded (concat rs))).
  { intros rs Hrs Hcs Hd. unfold keypoints_to_vector.
    rewrite (flatten3_triples rs Hrs Hcs). cbn [bind].
    rewrite rounded_length, (concat_triples_length _ rs Hrs).
    replace (dim <=? Z.of_nat (3 * length rs))%Z with true
      by (symmetry; apply Z.leb_le; lia).
    unfold prefix.
    replace (0 <=? dim)%Z with true by (symmetry; apply Z.leb_le; lia).
    rewrite firstn_all2; [ reflexivity |].
    rewrite rounded_length, (concat_triples_length _ rs Hrs). lia. }
  split; [ now apply Henc |]. split; [| reflexivity ].
  intros rows' Ht' Hc' Hdim'.
  rewrite (Henc rows Ht Hc Hdim), (Henc rows' Ht' Hc' Hdim').
  intros [= E]. rewrite !rounded_concat in E.
  apply concat_triples_inj in E; [ exact E | |];
    apply Forall_map; [ revert Ht' | revert Ht ];
    apply Forall_impl; intros r Hr; now rewrite rounded_length.
Qed.

End Encoder.

Lemma keypoints_to_vector_outcomes_witness :
  match keypoints_to_vector cpython (Some [[Int 11; Int 12]; [Int 21; Int 22]]) 51 with
  | Ok v => Z.of_nat (length v) = 51%Z
  | Raise ValueError =>
      (exists rows, Some [[Int 11; Int 12]; [Int 21; Int 22]] = Some rows
                    /\ ~ Forall (fun r => length r = 3) rows)
      \/ (2 ^ 61 <= 51)%Z
  | Raise OverflowError =>
      ~ Forall convertible (values_of (Some [[Int 11; Int 12]; [Int 21; Int 22]]))
  | Raise MemoryError => (Z.of_N (array_capacity cpython) < 51 < 2 ^ 61)%Z
  | Raise _ => False
  end.
Proof.
  apply (keypoints_to_vector_outcomes cpython
           (Some [[Int 11; Int 12]; [Int 21; Int 22]]) 51).
  lia.
Defined.

Lemma keypoints_to_vector_negative_dim_witness :
  keypoints_to_vector cpython None (-2) = Raise ValueError /\
  keypoints_to_vector cpython
    (Some [[Int 11; Int 12; Int 13]; [Int 21; Int 22; Int 23]]) (-2)
  = Ok (firstn 4 (rounded [Int 11; Int 12; Int 13; Int 21; Int 22; Int 23])).
Proof.
  apply (keypoints_to_vector_negative_dim cpython
           [[Int 11; Int 12; Int 13]; [Int 21; Int 22; Int 23]] (-2)).
  - lia.
  - repeat constructor.
  - cbn. repeat constructor; intros s; vm_compute; discriminate.
Defined.

Lemma keypoints_to_vector_prefix_witness :
  keypoints_to_vector cpython (Some [[Int 11; Int 12; Int 13]]) 2
  = Ok [of_int 11; of_int 12].
Proof.
  apply (keypoints_to_vector_prefix cpython (Some [[Int 11; Int 12; Int 13]])
           2 5 [of_int 11; of_int 12; of_int 13; zero; zero]).
  - lia.
  - vm_compute. reflexivity.
Defined.

Lemma keypoints_to_vector_lossless_witness :
  keypoints_to_vector cpython
    (Some [[Int 11; Int 12; Int 13]; [Int 21; Int 22; Int 23]]) 6
  = Ok (rounded [Int 11; Int 12; Int 13; Int 21; Int 22; Int 23]).
Proof.
  apply (keypoints_to_vector_lossless cpython
           [[Int 11; Int 12; Int 13]; [Int 21; Int 22; Int 23]] 6).
  - repeat constructor.
  - cbn. repeat constructor; intros s; vm_compute; discriminate.
  - reflexivity.
Defined.

End EncoderFacts.

(** ** Reading a pose store *)

Module StoreFacts.

Import Agent AgentFacts Dataset DatasetFacts Pipeline PipelineFacts EncoderFacts.

Lemma insert_name_perm (x : str) (l : list str) :
  Permutation (insert_name x l) (x :: l).
Proof.
  induction l as [| y l IH]; cbn; [ reflexivity |].
  destruct (str_leb x y); [ reflexivity |].
  rewrite IH. apply perm_swap.
Qed.

Lemma sorted_perm (l : list str) : Permutation (sorted l) l.
Proof.
  induction l as [| x l IH]; cbn; [ reflexivity |].
  rewrite insert_name_perm. now constructor.
Qed.

Lemma sorted_length (l : list str) : length (sorted l) = length l.
Proof. apply Permutation_length, sorted_perm. Qed.

Lemma sorted_in (l : list str) (x : str) : In x (sorted l) <-> In x l.
Proof.
  split; apply Permutation_in; [ apply sorted_perm | symmetry; apply sorted_perm ].
Qed.

Section Store.

(** A file of the listing is read: the first entry of that name. *)
Lemma read_keypoints_listed (dir : folder) (fname : str) :
  In fname (map fst dir) ->
  exists keypoints, read_keypoints dir fname = Ok keypoints /\ In (fname, keypoints) dir.
Proof.
  induction dir as [| [name kp] dir IH]; cbn; [ tauto |].
  intros H. destruct (str_eqb name fname) eqn:E.
  - apply str_eqb_eq in E. subst. exists kp. split; [ reflexivity | now left ].
  - destruct H as [H | H].
    + subst. assert (str_eqb fname fname = true) by now apply str_eqb_eq.
      congruence.
    + destruct (IH H) as (k & Hk & Hin). exists k. split; [ exact Hk | now right ].
Qed.

Variable lim : limits.

(** The features of listed files whose detections the encoder takes, on a
    machine that allocates a vector of 51 values: one such vector for each
    file. *)
Lemma load_features_listed (dir : folder) (json_files : list str) :
  allocatable lim 51 ->
  Forall (fun entry => encodable (snd entry)) dir ->
  (forall f, In f json_files -> In f (map fst dir)) ->
  exists features,
    load_features lim dir json_files = Ok features /\
    length features = length json_files /\
    Forall (fun v => length v = 51) features.
Proof.
  intros Ha Ht. induction json_files as [| f files IH]; intros Hin.
  - exists []. repeat split. constructor.
  - destruct (read_keypoints_listed dir f) as (kp & Hr & Hk);
      [ apply Hin; now left |].
    rewrite Forall_forall in Ht. pose proof (Ht _ Hk) as [Hkp Hkc]. cbn in Hkp, Hkc.
    destruct (encoder_returns lim kp 51) as (v & Hv & Hlen);
      [ lia | exact Ha | exact Hkp | exact Hkc |].
    destruct IH as (features & Hf & Hl & Hall); [ intros; apply Hin; now right |].
    exists (v :: features). cbn [load_features].
    rewrite Hr; cbn [bind]; rewrite Hv; cbn [bind]; rewrite Hf; cbn [bind].
    repeat split; cbn; [ now rewrite Hl | constructor; [ lia | exact Hall ] ].
Qed.

End Store.

End StoreFacts.

(** ** The script that builds the dataset *)

Module BuilderFacts.

Import Agent AgentFacts Dataset DatasetFacts Pipeline PipelineFacts EncoderFacts.
Import Builder StoreFacts.


(** X18.  The label map of the training script and the label table of the
    pipeline are inverse to each other: an action is encoded as [idx] by
    [LABEL_MAP] exactly when [IDX_TO_LABEL] decodes [idx] as that action. *)
Theorem label_map_inverse (action : str) (idx : Z) :
  index_at LABEL_MAP action = Ok idx <-> label_at IDX_TO_LABEL idx = Ok action.
Proof.
  split.
  - change LABEL_MAP with
      [ (lit "open_door", 0%Z); (lit "pick_book", 1%Z);
        (lit "pour_water", 2%Z); (lit "walk_stop", 3%Z) ].
    cbn [index_at].
    repeat match goal with
    | |- context [str_eqb ?k action] =>
        let E := fresh "E" in
        destruct (str_eqb k action) eqn:E;
        [ apply str_eqb_eq in E; subst action; now intros [= <-] |]
    end.
    intros H; discriminate H.
  - change IDX_TO_LABEL with
      [ (0%Z, lit "open_door"); (1%Z, lit "pick_book");
        (2%Z, lit "pour_water"); (3%Z, lit "walk_stop") ].
    cbn [label_at].
    repeat match goal with
    | |- context [(?i =? idx)%Z] =>
        destruct (Z.eqb_spec i idx); [ subst idx; now intros [= <-] |]
    end.
    intros H; discriminate H.
Qed.

Section Script.

Variable lim : limits.
Variable fs : str -> option folder.

Lemma for_files_run (dir : folder) (action : str) (idx : Z)
  (json_files : list str) (X_list : list (list float32)) (y_list : list Z) :
  index_at LABEL_MAP action = Ok idx ->
  forall features, load_features lim dir json_files = Ok features ->
  for_files lim dir action json_files X_list y_list
  = Ok (X_list ++ features, y_list ++ repeat idx (length json_files)).
Proof.
  intros Hidx. revert X_list y_list.
  induction json_files as [| f files IH]; intros X_list y_list features.
  - cbn. intros [= <-]. now rewrite !app_nil_r.
  - cbn [load_features for_files].
    destruct (read_keypoints dir f) as [kp |]; cbn [bind]; [| discriminate ].
    destruct (keypoints_to_vector lim kp 51) as [v |]; cbn [bind]; [| discriminate ].
    destruct (load_features lim dir files) as [rest |] eqn:Er; cbn [bind];
      [| discriminate ].
    intros [= <-]. rewrite Hidx. cbn [bind].
    rewrite (IH _ _ rest eq_refl). cbn [length repeat].
    now rewrite <- !app_assoc.
Qed.

Lemma features_of_listed (action : str) :
  allocatable lim 51 -> store_encodable fs -> In action ACTIONS ->
  length (features_of lim fs action) = pose_count fs action /\
  Forall (fun v => length v = 51) (features_of lim fs action) /\
  forall dir, fs (path_join POSE_DIR action) = Some dir ->
    load_features lim dir (sorted (filter is_pose_file (map fst dir)))
    = Ok (features_of lim fs action).
Proof.
  intros Hm Hs Ha. unfold features_of, pose_count.
  destruct (fs (path_join POSE_DIR action)) as [dir |] eqn:Ed.
  - destruct (load_features_listed lim dir
                (sorted (filter is_pose_file (map fst dir))))
      as (features & Hload & Hl & Hall).
    + exact Hm.
    + exact (Hs action dir Ha Ed).
    + intros f Hf. apply (proj1 (sorted_in _ _)) in Hf.
      apply filter_In in Hf. tauto.
    + rewrite Hload, Hl, sorted_length. repeat split; [ exact Hall |].
      now intros ? [= <-].
  - repeat split; [ constructor | discriminate ].
Qed.

(** One turn of the loop over the actions. *)
Lemma for_actions_step (action : str) (idx : Z) (rest : list str)
  (X_list : list (list float32)) (y_list : list Z) :
  allocatable lim 51 -> store_encodable fs -> In action ACTIONS ->
  index_at LABEL_MAP action = Ok idx ->
  exists line,
    for_actions lim fs (action :: rest) X_list y_list
    = after_events [Print line]
        (for_actions lim fs rest
           (X_list ++ features_of lim fs action)
           (y_list ++ repeat idx (pose_count fs action))).
Proof.
  intros Hm Hs Ha Hidx.
  destruct (features_of_listed action Hm Hs Ha) as (Hlen & _ & Hload).
  cbn [for_actions].
  destruct (fs (path_join POSE_DIR action)) as [dir |] eqn:Ed.
  - specialize (Hload dir eq_refl).
    assert (Hpc : pose_count fs action = length (filter is_pose_file (map fst dir)))
      by (unfold pose_count; now rewrite Ed).
    eexists. unfold emit. rewrite iobind_ok.
    rewrite (for_files_run dir action idx _ _ _ Hidx _ Hload).
    unfold lift. rewrite iobind_ok. cbn [fst snd].
    rewrite sorted_length, <- Hpc. reflexivity.
  - assert (Hf : features_of lim fs action = [])
      by (unfold features_of; now rewrite Ed).
    assert (Hpc : pose_count fs action = 0)
      by (unfold pose_count; now rewrite Ed).
    eexists. unfold emit. rewrite iobind_ok, Hf, Hpc. cbn [repeat].
    now rewrite !app_nil_r.
Qed.

Lemma np_stack_rows (n : nat) (features : list (list float32)) :
  features <> [] -> Forall (fun v => length v = n) features ->
  np_stack features = Ok features.
Proof.
  intros Hne Hall. unfold np_stack. destruct features as [| v rest]; [ congruence |].
  assert (H : forallb (fun w => length w =? length v) (v :: rest) = true).
  { apply forallb_forall. intros w Hw. rewrite Forall_forall in Hall.
    rewrite (Hall w Hw), (Hall v (or_introl eq_refl)). apply Nat.eqb_refl. }
  now rewrite H.
Qed.

(** What the four turns of the loop leave in the two lists. *)
Lemma for_actions_roster :
  allocatable lim 51 -> store_encodable fs ->
  exists tr,
    for_actions lim fs ACTIONS [] []
    = (tr, Ok (flat_map (features_of lim fs) ACTIONS,
               flat_map (fun p => repeat (fst p) (pose_count fs (snd p)))
                 IDX_TO_LABEL)).
Proof.
  intros Hm Hs. unfold ACTIONS.
  destruct (for_actions_step (lit "open_door") 0 (skipn 1 ACTIONS) [] [] Hm Hs)
    as [l0 H0]; [ cbn; tauto | reflexivity |].
  destruct (for_actions_step (lit "pick_book") 1 (skipn 2 ACTIONS)
              ([] ++ features_of lim fs (lit "open_door"))
              ([] ++ repeat 0%Z (pose_count fs (lit "open_door"))) Hm Hs)
    as [l1 H1]; [ cbn; tauto | reflexivity |].
  destruct (for_actions_step (lit "pour_water") 2 (skipn 3 ACTIONS)
              (([] ++ features_of lim fs (lit "open_door"))
               ++ features_of lim fs (lit "pick_book"))
              (([] ++ repeat 0%Z (pose_count fs (lit "open_door")))
               ++ repeat 1%Z (pose_count fs (lit "pick_book"))) Hm Hs)
    as [l2 H2]; [ cbn; tauto | reflexivity |].
  destruct (for_actions_step (lit "walk_stop") 3 []
              ((([] ++ features_of lim fs (lit "open_door"))
                ++ features_of lim fs (lit "pick_book"))
               ++ features_of lim fs (lit "pour_water"))
              ((([] ++ repeat 0%Z (pose_count fs (lit "open_door")))
                ++ repeat 1%Z (pose_count fs (lit "pick_book")))
               ++ repeat 2%Z (pose_count fs (lit "pour_water"))) Hm Hs)
    as [l3 H3]; [ cbn; tauto | reflexivity |].
  cbn [skipn ACTIONS] in H0, H1, H2. unfold ACTIONS in H0, H1, H2.
  rewrite H0, H1, H2, H3. cbn [for_actions]. unfold ret. rewrite !after_events_pair.
  eexists. f_equal. f_equal.
  change IDX_TO_LABEL with
    [ (0%Z, lit "open_door"); (1%Z, lit "pick_book");
      (2%Z, lit "pour_water"); (3%Z, lit "walk_stop") ].
  cbn [flat_map fst snd app]. rewrite !app_nil_r, <- !app_assoc. reflexivity.
Qed.

(** X19.  The dataset.  On a machine that allocates a vector of 51
    values, when every stored detection is missing or made of triples of
    numbers with no integer beyond the range of a float, and there is a
    pose file at all, the script completes; the rows are the encodings of
    the pose files, action by action in the order of the roster and file by
    file in the sorted order of the names; each row has 51 values; there
    are as many labels as rows; and the rows of an action carry the index
    that the label table of the pipeline decodes as that action. *)
Theorem build_dataset_rows :
  allocatable lim 51 -> store_encodable fs ->
  (exists action, In action ACTIONS /\ 0 < pose_count fs action) ->
  exists tr X y,
    build_dataset lim fs = (tr, Ok (X, y)) /\
    X = flat_map (features_of lim fs) ACTIONS /\
    y = flat_map (fun p => repeat (fst p) (pose_count fs (snd p))) IDX_TO_LABEL /\
    length X = length y /\
    Forall (fun v => length v = 51) X.
Proof.
  intros Hm Hs (a & Ha & Hpos).
  destruct (for_actions_roster Hm Hs) as [tr Hloop].
  set (X := flat_map (features_of lim fs) ACTIONS) in *.
  set (y := flat_map (fun p => repeat (fst p) (pose_count fs (snd p))) IDX_TO_LABEL) in *.
  assert (Hrows : Forall (fun v => length v = 51) X).
  { apply Forall_flat_map, Forall_forall. intros b Hb.
    now destruct (features_of_listed b Hm Hs Hb) as (_ & H & _). }
  assert (Hlen : length X = length y).
  { unfold X, y.
    change IDX_TO_LABEL with
      [ (0%Z, lit "open_door"); (1%Z, lit "pick_book");
        (2%Z, lit "pour_water"); (3%Z, lit "walk_stop") ].
    unfold ACTIONS. cbn [flat_map fst snd].
    rewrite !length_app, !repeat_length. cbn [length].
    repeat match goal with
    | |- context [length (features_of lim fs ?b)] =>
        let H := fresh in
        destruct (features_of_listed b Hm Hs) as (H & _ & _);
        [ cbn; tauto | rewrite H; clear H ]
    end.
    reflexivity. }
  assert (Hne : X <> []).
  { intros E. destruct (features_of_listed a Hm Hs Ha) as (Hl & _ & _).
    assert (Hin : incl (features_of lim fs a) X).
    { intros v Hv. apply in_flat_map. now exists a. }
    rewrite E in Hin. destruct (features_of lim fs a) as [| v vs]; cbn in Hl;
      [ lia | exact (Hin v (or_introl eq_refl)) ]. }
  exists (tr ++ [ Print (lit "[INFO] Dataset built successfully");
                  Print (lit "[INFO] X shape: " ++ shape2 X);
                  Print (lit "[INFO] y shape: " ++ shape1 y);
                  Print (lit "[INFO] Saved dataset to pose_dataset.npz") ]),
    X, y.
  split; [| repeat split; assumption ].
  unfold build_dataset. rewrite Hloop, iobind_ok. cbn [fst snd].
  rewrite (np_stack_rows 51 X Hne Hrows).
  unfold lift, emit, ret. now rewrite !iobind_ok.
Qed.

Lemma for_actions_no_files (actions : list str)
  (X_list : list (list float32)) (y_list : list Z) :
  (forall action, In action actions -> pose_count fs action = 0) ->
  exists tr,
    for_actions lim fs actions X_list y_list = (tr, Ok (X_list, y_list)) /\
    length tr = length actions.
Proof.
  induction actions as [| a rest IH]; intros H; [ now exists [] |].
  destruct IH as (tr & IH & Hlen); [ intros; apply H; now right |].
  pose proof (H a (or_introl eq_refl)) as Ha. unfold pose_count in Ha.
  cbn [for_actions]. destruct (fs (path_join POSE_DIR a)) as [dir |].
  - rewrite <- sorted_length in Ha.
    destruct (sorted (filter is_pose_file (map fst dir))); [| discriminate Ha ].
    cbn [for_files]. unfold emit, lift. rewrite !iobind_ok. cbn [fst snd].
    rewrite IH. eexists. split; [ reflexivity |]. cbn. now rewrite Hlen.
  - unfold emit. rewrite iobind_ok, IH.
    eexists. split; [ reflexivity |]. cbn. now rewrite Hlen.
Qed.

(** X20.  Without any pose file the script does not complete: after one line
    for each action of the roster, stacking the empty list of rows raises
    [ValueError]; nothing is saved. *)
Theorem build_dataset_no_files :
  (forall action, In action ACTIONS -> pose_count fs action = 0) ->
  exists tr,
    build_dataset lim fs = (tr, Raise ValueError) /\ length tr = 4.
Proof.
  intros H. destruct (for_actions_no_files ACTIONS [] [] H) as (tr & Hloop & Hlen).
  exists tr. split; [| exact Hlen ].
  unfold build_dataset. rewrite Hloop, iobind_ok. cbn [fst np_stack].
  unfold lift, after_events. cbn [iobind fst snd]. now rewrite app_nil_r.
Qed.

End Script.

Lemma training_store_encodable : store_encodable training_store.
Proof.
  intros action dir [<- | [<- | [<- | [<- | []]]]] Hd; vm_compute in Hd;
    try discriminate Hd; injection Hd as <-;
    repeat constructor; intros s; vm_compute; discriminate.
Qed.

Lemma build_dataset_rows_witness :
  exists tr X y,
    build_dataset cpython training_store = (tr, Ok (X, y)) /\
    X = flat_map (features_of cpython training_store) ACTIONS /\
    y = flat_map (fun p => repeat (fst p) (pose_count training_store (snd p)))
          IDX_TO_LABEL /\
    length X = length y /\
    Forall (fun v => length v = 51) X.
Proof.
  apply (build_dataset_rows cpython training_store).
  - split; vm_compute; [ reflexivity | discriminate ].
  - exact training_store_encodable.
  - exists (lit "open_door"). split; [ cbn; tauto | vm_compute; lia ].
Defined.

Example training_labels :
  snd (build_dataset cpython training_store)
  = Ok ([ repeat zero 51;
          [of_int 5; zero; of_int 1] ++ repeat zero 48;
          [of_int 9; zero; of_int 1] ++ repeat zero 48 ],
        [0; 0; 3]%Z).
Proof. vm_compute. reflexivity. Qed.

Lemma build_dataset_no_files_witness :
  exists tr,
    build_dataset cpython empty_store = (tr, Raise ValueError) /\ length tr = 4.
Proof.
  apply (build_dataset_no_files cpython empty_store).
  intros action _. reflexivity.
Defined.

End BuilderFacts.

(** ** Further facts about the vote of a clip *)

Module VoteFacts.

Import Agent AgentFacts Dataset DatasetFacts Pipeline PipelineFacts.
Import EncoderFacts StoreFacts Clip.

Lemma label_at_outside (k : Z) :
  ~ in_roster k -> label_at IDX_TO_LABEL k = Raise KeyError.
Proof.
  unfold in_roster. intros H.
  change IDX_TO_LABEL with
    [ (0%Z, lit "open_door"); (1%Z, lit "pick_book");
      (2%Z, lit "pour_water"); (3%Z, lit "walk_stop") ].
  cbn [label_at].
  repeat match goal with
  | |- context [(?i =? k)%Z] => destruct (Z.eqb_spec i k); [ lia |]
  end.
  reflexivity.
Qed.

Lemma in_roster_dec (k : Z) : {in_roster k} + {~ in_roster k}.
Proof.
  unfold in_roster.
  destruct (Z_le_dec 0 k), (Z_lt_dec k 4); (left; lia) || (right; lia).
Qed.

(** An index outside the roster among the keys makes the count mapping
    fail. *)
Lemma count_labels_outside (pairs : list (Z * nat)) (acc : dict) (k : Z) :
  In k (map fst pairs) -> ~ in_roster k ->
  count_labels pairs acc = Raise KeyError.
Proof.
  revert acc. induction pairs as [| [k' v] pairs IH]; intros acc;
    cbn [map fst In count_labels]; [ tauto |].
  intros Hin Hk. destruct (in_roster_dec k') as [Hr | Hr].
  - rewrite (label_at_roster k' Hr). cbn [bind].
    destruct Hin as [-> | Hin]; [ contradiction | now apply IH ].
  - now rewrite (label_at_outside k' Hr).
Qed.

Lemma combine_fst_snd (A B : Type) (l : list (A * B)) :
  combine (map fst l) (map snd l) = l.
Proof. induction l as [| [a b] l IH]; cbn; [ reflexivity | now rewrite IH ]. Qed.

Lemma majority_vote_outside (l : list Z) (k : Z) :
  In k l -> ~ in_roster k -> majority_vote l = Raise KeyError.
Proof.
  intros Hin Hk. unfold majority_vote, np_unique_counts.
  rewrite combine_fst_snd.
  rewrite (count_labels_outside _ [] k); [ reflexivity | | exact Hk ].
  destruct (runs_sorted (np_sort l) (np_sort_sorted l)) as (_ & _ & Hkeys).
  apply Hkeys. eapply Permutation_in; [ symmetry; apply np_sort_perm | exact Hin ].
Qed.

Lemma tally_total (l : list Z) :
  Forall in_roster l -> total (tally l) = Z.of_nat (length l).
Proof.
  intros Hl. rewrite (roster_counts_sum l Hl).
  unfold tally, observed. cbn [filter].
  repeat match goal with
  | |- context [0 <? ?c] =>
      let E := fresh "E" in
      destruct (0 <? c) eqn:E;
      [ apply Nat.ltb_lt in E | apply Nat.ltb_ge in E ]
  end; cbn [map total]; lia.
Qed.

Lemma tally_positive (l : list Z) :
  Forall (fun entry => exists n, snd entry = PInt n /\ (1 <= n)%Z) (tally l).
Proof.
  unfold tally. apply Forall_forall. intros e He.
  apply in_map_iff in He. destruct He as (k & <- & Hk).
  unfold observed in Hk. apply filter_In in Hk. destruct Hk as [_ Hk].
  apply Nat.ltb_lt in Hk. eexists. split; [ reflexivity | lia ].
Qed.

(** More than half of the frames decide the vote. *)
Lemma majority_vote_half (l : list Z) (k : Z) :
  Forall in_roster l -> length l < 2 * count l k ->
  majority_vote l = Ok (label_of k, tally l).
Proof.
  intros Hl Hk.
  assert (Hne : l <> []) by (intros ->; cbn in Hk; lia).
  destruct (majority_vote_spec l Hne Hl) as (m & Hv & Hm & _ & Hmax & _).
  rewrite Hv. destruct (Z.eq_dec m k) as [-> | Hmk]; [ reflexivity |].
  exfalso. specialize (Hmax k).
  assert (Hin : In k l) by (apply (count_occ_In Z.eq_dec); unfold count in Hk; lia).
  assert (Hkr : in_roster k) by (rewrite Forall_forall in Hl; now apply Hl).
  pose proof (roster_counts_sum l Hl) as Hsum.
  unfold in_roster in Hm, Hkr.
  assert (m = 0 \/ m = 1 \/ m = 2 \/ m = 3)%Z as [-> | [-> | [-> | ->]]] by lia;
    assert (k = 0 \/ k = 1 \/ k = 2 \/ k = 3)%Z as [-> | [-> | [-> | ->]]] by lia;
    try congruence; lia.
Qed.

Section ClipVotes.

Variable lim : limits.
Variable fs : str -> option folder.
Variable transform : list (list float32) -> list (list float32).
Variable predict : list (list float32) -> list Z.

(** X21.  A frame predicted as an index outside the roster makes
    [classify_video] raise [KeyError]: no label and no counts are returned. *)
Theorem classify_video_unknown_index (action_name : str) (frame_preds : list Z) (k : Z) :
  frame_predictions lim fs transform predict action_name = Some frame_preds ->
  In k frame_preds -> ~ in_roster k ->
  classify_video lim fs transform predict action_name = ([], Raise KeyError).
Proof.
  intros Hp Hin Hk. rewrite (classify_video_votes lim fs transform predict _ _ Hp).
  now rewrite (majority_vote_outside frame_preds k Hin Hk).
Qed.

(** X22.  The counts that [classify_video] returns add up to the number of
    frames, and no label is listed with a count of zero. *)
Theorem classify_video_counts_total (action_name : str) (frame_preds : list Z) :
  frame_predictions lim fs transform predict action_name = Some frame_preds ->
  frame_preds <> [] -> Forall in_roster frame_preds ->
  exists label counts,
    classify_video lim fs transform predict action_name
    = ([], Ok (Some label, counts)) /\
    total counts = Z.of_nat (length frame_preds) /\
    Forall (fun entry => exists n, snd entry = PInt n /\ (1 <= n)%Z) counts.
Proof.
  intros Hp Hne Hl.
  destruct (majority_vote_spec frame_preds Hne Hl) as (m & Hv & _).
  exists (label_of m), (tally frame_preds).
  rewrite (classify_video_votes lim fs transform predict _ _ Hp), Hv.
  repeat split; [ now apply tally_total | apply tally_positive ].
Qed.

(** X23.  A label predicted on more than half of the frames is the label of
    the clip. *)
Theorem classify_video_absolute_majority
  (action_name : str) (frame_preds : list Z) (k : Z) :
  frame_predictions lim fs transform predict action_name = Some frame_preds ->
  Forall in_roster frame_preds ->
  length frame_preds < 2 * count frame_preds k ->
  classify_video lim fs transform predict action_name
  = ([], Ok (Some (label_of k), tally frame_preds)).
Proof.
  intros Hp Hl Hk.
  rewrite (classify_video_votes lim fs transform predict _ _ Hp).
  now rewrite (majority_vote_half frame_preds k Hl Hk).
Qed.

End ClipVotes.

Lemma classify_video_unknown_index_witness :
  classify_video cpython stray_store example_transform example_predict (lit "open_door")
  = ([], Raise KeyError).
Proof.
  apply (classify_video_unknown_index cpython stray_store example_transform
           example_predict (lit "open_door") [7%Z] 7%Z).
  - reflexivity.
  - now left.
  - unfold in_roster. lia.
Defined.

Lemma classify_video_counts_total_witness :
  exists label counts,
    classify_video cpython example_store example_transform example_predict
      (lit "open_door")
    = ([], Ok (Some label, counts)) /\
    total counts = 10%Z /\
    Forall (fun entry => exists n, snd entry = PInt n /\ (1 <= n)%Z) counts.
Proof.
  apply (classify_video_counts_total cpython example_store example_transform
           example_predict (lit "open_door") [0; 0; 0; 3; 0; 0; 0; 3; 0; 3]%Z).
  - vm_compute. reflexivity.
  - discriminate.
  - repeat constructor; unfold in_roster; lia.
Defined.

Lemma classify_video_absolute_majority_witness :
  classify_video cpython example_store example_transform example_predict
    (lit "open_door")
  = ([], Ok (Some (label_of 0), tally [0; 0; 0; 3; 0; 0; 0; 3; 0; 3]%Z)).
Proof.
  apply (classify_video_absolute_majority cpython example_store
           example_transform example_predict (lit "open_door")
           [0; 0; 0; 3; 0; 0; 0; 3; 0; 3]%Z 0%Z).
  - vm_compute. reflexivity.
  - repeat constructor; unfold in_roster; lia.
  - vm_compute. lia.
Defined.

End VoteFacts.

(** ** The listing of a folder *)

Module ListingFacts.

Import Agent AgentFacts Dataset DatasetFacts Pipeline PipelineFacts.
Import EncoderFacts StoreFacts Clip.

(** *** The order of file names *)

Lemma str_leb_total (a b : str) : str_leb a b = true \/ str_leb b a = true.
Proof.
  revert b. induction a as [| x a IH]; intros [| y b]; cbn; auto.
  destruct (N.ltb_spec x y), (N.ltb_spec y x); auto; lia.
Qed.

Lemma str_leb_trans (a b c : str) :
  str_leb a b = true -> str_leb b c = true -> str_leb a c = true.
Proof.
  revert b c. induction a as [| x a IH]; intros [| y b] [| z c]; cbn; auto;
    try discriminate.
  destruct (N.ltb_spec x y), (N.ltb_spec y x), (N.ltb_spec y z), (N.ltb_spec z y),
    (N.ltb_spec x z), (N.ltb_spec z x); auto; try discriminate; try lia.
  apply IH.
Qed.

Lemma str_leb_antisym (a b : str) :
  str_leb a b = true -> str_leb b a = true -> a = b.
Proof.
  revert b. induction a as [| x a IH]; intros [| y b]; cbn; auto; try discriminate.
  destruct (N.ltb_spec x y), (N.ltb_spec y x); try discriminate; try lia.
  intros Hab Hba. assert (x = y) by lia. subst. f_equal. now apply IH.
Qed.

Lemma insert_name_sorted (x : str) (l : list str) :
  StronglySorted (fun a b => str_leb a b = true) l ->
  StronglySorted (fun a b => str_leb a b = true) (insert_name x l).
Proof.
  induction 1 as [| y l Hs IH Hy]; cbn; [ repeat constructor |].
  destruct (str_leb x y) eqn:E.
  - constructor; [ now constructor |].
    constructor; [ exact E |].
    eapply Forall_impl; [| exact Hy ]. intros z Hz. now apply (str_leb_trans x y z).
  - constructor; [ exact IH |].
    apply Forall_forall. intros z Hz.
    apply (Permutation_in _ (insert_name_perm x l)) in Hz.
    destruct Hz as [<- | Hz].
    + destruct (str_leb_total x y) as [H | H]; [ congruence | exact H ].
    + rewrite Forall_forall in Hy. now apply Hy.
Qed.

Lemma sorted_sorted (l : list str) :
  StronglySorted (fun a b => str_leb a b = true) (sorted l).
Proof.
  induction l as [| x l IH]; cbn; [ constructor | now apply insert_name_sorted ].
Qed.

Lemma sorted_names_eq (l1 l2 : list str) :
  StronglySorted (fun a b => str_leb a b = true) l1 ->
  StronglySorted (fun a b => str_leb a b = true) l2 ->
  Permutation l1 l2 -> l1 = l2.
Proof.
  intros H1. revert l2. induction H1 as [| x l1 Hs1 IH Hx]; intros l2 H2 Hp.
  - apply Permutation_nil in Hp. now subst.
  - destruct l2 as [| y l2].
    { apply Permutation_sym, Permutation_nil in Hp. discriminate. }
    apply StronglySorted_inv in H2. destruct H2 as [Hs2 Hy].
    assert (Hxy : x = y).
    { rewrite Forall_forall in Hx, Hy.
      assert (In x (y :: l2)) as [-> | Hin]
        by (eapply Permutation_in; [ exact Hp | now left ]); [ reflexivity |].
      assert (In y (x :: l1)) as [-> | Hin']
        by (eapply Permutation_in; [ symmetry; exact Hp | now left ]);
        [ reflexivity |].
      apply str_leb_antisym; [ now apply Hx | now apply Hy ]. }
    subst y. f_equal. apply IH; [ exact Hs2 |].
    eapply Permutation_cons_inv; exact Hp.
Qed.

(** [sorted] does not depend on the order of the listing. *)
Lemma sorted_permutation (l l' : list str) :
  Permutation l l' -> sorted l = sorted l'.
Proof.
  intros Hp. apply sorted_names_eq; try apply sorted_sorted.
  rewrite !sorted_perm. exact Hp.
Qed.

Section Listing.

Lemma pose_entries_names (dir : folder) :
  filter is_pose_file (map fst dir) = map fst (pose_entries dir).
Proof.
  unfold pose_entries. induction dir as [| [name kp] dir IH]; cbn; [ reflexivity |].
  destruct (is_pose_file name); cbn; now rewrite IH.
Qed.

(** A pose file is read from the pose entries alone. *)
Lemma read_keypoints_pose (dir : folder) (fname : str) :
  is_pose_file fname = true ->
  read_keypoints dir fname = read_keypoints (pose_entries dir) fname.
Proof.
  intros Hf. unfold pose_entries.
  induction dir as [| [name kp] dir IH]; cbn; [ reflexivity |].
  destruct (is_pose_file name) eqn:En; cbn.
  - destruct (str_eqb name fname); [ reflexivity | exact IH ].
  - destruct (str_eqb name fname) eqn:E; [| exact IH ].
    apply str_eqb_eq in E. congruence.
Qed.

Lemma read_keypoints_entry (dir : folder) (fname : str) kp :
  NoDup (map fst dir) -> In (fname, kp) dir -> read_keypoints dir fname = Ok kp.
Proof.
  induction dir as [| [name kp'] dir IH]; cbn; [ tauto |].
  intros Hn Hin. apply NoDup_cons_iff in Hn. destruct Hn as [Hname Hn].
  destruct Hin as [[= -> ->] | Hin].
  - assert (str_eqb fname fname = true) as -> by now apply str_eqb_eq.
    reflexivity.
  - destruct (str_eqb name fname) eqn:E; [| now apply IH ].
    apply str_eqb_eq in E. subst. destruct Hname.
    apply in_map_iff. now exists (fname, kp).
Qed.

Lemma read_keypoints_missing (dir : folder) (fname : str) :
  ~ In fname (map fst dir) -> read_keypoints dir fname = Raise OSError.
Proof.
  induction dir as [| [name kp] dir IH]; cbn; [ reflexivity |].
  intros H. destruct (str_eqb name fname) eqn:E.
  - apply str_eqb_eq in E. tauto.
  - apply IH. tauto.
Qed.

Lemma names_dec (l : list str) (x : str) : In x l \/ ~ In x l.
Proof.
  destruct (in_dec (list_eq_dec N.eq_dec) x l); auto.
Qed.

(** With distinct names, what is read does not depend on the order of the
    entries. *)
Lemma read_keypoints_permutation (dir dir' : folder) (fname : str) :
  NoDup (map fst dir) -> Permutation dir dir' ->
  read_keypoints dir fname = read_keypoints dir' fname.
Proof.
  intros Hn Hp.
  assert (Hn' : NoDup (map fst dir')).
  { eapply Permutation_NoDup; [| exact Hn ]. now apply Permutation_map. }
  destruct (names_dec (map fst dir) fname) as [Hin | Hout].
  - destruct (read_keypoints_listed dir fname Hin) as (kp & -> & Hk).
    symmetry. apply read_keypoints_entry; [ exact Hn' |].
    eapply Permutation_in; [ exact Hp | exact Hk ].
  - rewrite !read_keypoints_missing; [ reflexivity | | exact Hout ].
    intros H. apply Hout. eapply Permutation_in; [| exact H ].
    symmetry. now apply Permutation_map.
Qed.

Variable lim : limits.

Lemma load_features_ext (dir dir' : folder) (json_files : list str) :
  (forall f, In f json_files -> read_keypoints dir f = read_keypoints dir' f) ->
  load_features lim dir json_files = load_features lim dir' json_files.
Proof.
  induction json_files as [| f files IH]; intros H; [ reflexivity |].
  cbn [load_features]. rewrite (H f (or_introl eq_refl)).
  rewrite IH by (intros; apply H; now right). reflexivity.
Qed.

Variable transform : list (list float32) -> list (list float32).
Variable predict : list (list float32) -> list Z.

(** X24.  The result for a clip depends on the pose files of its folder
    only, and not on the order in which the folder lists them: two stores
    whose folders for the clip hold the same pose files, whatever else they
    hold and in whatever order, give the same result. *)
Theorem classify_video_pose_files_only
  (fs fs' : str -> option folder) (action_name : str) (dir dir' : folder) :
  fs (path_join NEW_POSE_DIR action_name) = Some dir ->
  fs' (path_join NEW_POSE_DIR action_name) = Some dir' ->
  NoDup (map fst dir) ->
  Permutation (pose_entries dir) (pose_entries dir') ->
  classify_video lim fs' transform predict action_name
  = classify_video lim fs transform predict action_name.
Proof.
  intros Hd Hd' Hn Hp. unfold classify_video. rewrite Hd, Hd'.
  rewrite !pose_entries_names.
  assert (Hnames : sorted (map fst (pose_entries dir'))
                   = sorted (map fst (pose_entries dir))).
  { apply sorted_permutation. symmetry. now apply Permutation_map. }
  rewrite Hnames.
  assert (Hload : load_features lim dir' (sorted (map fst (pose_entries dir)))
                  = load_features lim dir (sorted (map fst (pose_entries dir)))).
  { apply load_features_ext. intros f Hf.
    apply (proj1 (sorted_in _ _)) in Hf. rewrite <- pose_entries_names in Hf.
    apply filter_In in Hf. destruct Hf as [_ Hf].
    rewrite (read_keypoints_pose dir' f Hf), (read_keypoints_pose dir f Hf).
    symmetry. apply read_keypoints_permutation; [| exact Hp ].
    rewrite <- pose_entries_names. now apply NoDup_filter. }
  now rewrite Hload.
Qed.

End Listing.

Lemma classify_video_pose_files_only_witness :
  classify_video cpython relisted_store example_transform example_predict
    (lit "open_door")
  = classify_video cpython listed_store example_transform example_predict
      (lit "open_door").
Proof.
  apply (classify_video_pose_files_only cpython example_transform
           example_predict listed_store relisted_store (lit "open_door")
           [ (lit "notes.txt", None); pose_file "00001.json" 1;
             pose_file "00000.json" 0; (lit ".00002.json", None) ]
           [ pose_file "00000.json" 0; pose_file "00001.json" 1 ]).
  - reflexivity.
  - reflexivity.
  - repeat constructor; cbn; intros H;
      repeat (destruct H as [H | H]; [ discriminate H |]); exact H.
  - vm_compute. apply perm_swap.
Defined.

End ListingFacts.

(** ** The requests of a run *)

Module TraceFacts.

Import Agent AgentFacts Dataset DatasetFacts Pipeline PipelineFacts.
Import EncoderFacts StoreFacts Clip.

Lemma fst_iobind A B (m : io A) (k : A -> io B) :
  fst (iobind m k)
  = fst m ++ match snd m with
             | Ok a => fst (k a)
             | Raise _ => []
             end.
Proof.
  destruct m as [tr [a | e]]; cbn; [ now destruct (k a) | now rewrite app_nil_r ].
Qed.

Lemma snd_iobind A B (m : io A) (k : A -> io B) :
  snd (iobind m k)
  = match snd m with
    | Ok a => snd (k a)
    | Raise e => Raise e
    end.
Proof. destruct m as [tr [a | e]]; cbn; [ now destruct (k a) | reflexivity ]. Qed.

Section Bound.

Variable lim : limits.
Variable fs : str -> option folder.
Variable transform : list (list float32) -> list (list float32).
Variable predict : list (list float32) -> list Z.
Variable repr : pyval -> str.
Variable chat : request -> result (option str).

(** [classify_video] sends nothing. *)
Lemma classify_video_silent (action_name : str) :
  requests_of (fst (classify_video lim fs transform predict action_name)) = [].
Proof.
  unfold classify_video. destruct (fs _) as [dir |]; [| reflexivity ].
  destruct (sorted _) as [| f files]; [ reflexivity |].
  rewrite !fst_iobind. cbn [lift fst snd app].
  destruct (load_features lim dir (f :: files)); [| reflexivity ].
  rewrite fst_iobind. cbn [lift fst snd app].
  destruct (np_stack _); [| reflexivity ].
  rewrite fst_iobind. cbn [lift fst snd app].
  destruct (majority_vote _); reflexivity.
Qed.

(** The per-action reasoning sends its one request, whatever comes back. *)
Lemma llm_reasoning_trace (label : str) :
  fst (llm_reasoning lim repr chat label) = [Sent (single_request label)].
Proof.
  unfold llm_reasoning. fold (single_request label).
  rewrite !fst_iobind. cbn [emit lift fst snd app].
  destruct (chat (single_request label)); reflexivity.
Qed.

Lemma llm_temporal_reasoning_trace (history : list str) :
  fst (llm_temporal_reasoning lim repr chat history)
  = match history with
    | [] => []
    | _ :: _ => [Sent (temporal_request history)]
    end.
Proof.
  unfold llm_temporal_reasoning. destruct history as [| l history']; [ reflexivity |].
  fold (temporal_request (l :: history')).
  rewrite !fst_iobind. cbn [emit lift fst snd app].
  destruct (chat (temporal_request (l :: history'))); reflexivity.
Qed.

Lemma for_actions_requests (actions history : list str) :
  length (requests_of (fst (for_actions lim fs transform predict repr chat
                              actions history)))
  <= length actions.
Proof.
  revert history. induction actions as [| a rest IH]; intros history; [ cbn; lia |].
  cbn [for_actions]. rewrite !fst_iobind. cbn [emit fst snd].
  rewrite !requests_of_app, classify_video_silent. cbn [app requests_of flat_map length].
  destruct (snd (classify_video lim fs transform predict a)) as [[[l |] counts] | e];
    [ | | cbn; lia ].
  - repeat (rewrite fst_iobind; cbn [emit fst snd app]).
    rewrite llm_reasoning_trace. split_trace.
    destruct (snd (llm_reasoning lim repr chat l)); [| cbn; lia ].
    repeat (rewrite fst_iobind; cbn [emit fst snd app]). split_trace.
    specialize (IH (history ++ [l])). cbn [length]. lia.
  - repeat (rewrite fst_iobind; cbn [emit fst snd app]). split_trace.
    specialize (IH history). lia.
Qed.

(** X25.  Whatever the store holds and whatever the classifier and the
    service do, a run sends at most five requests: at most one for each
    action of the roster and at most one for the history. *)
Theorem main_request_bound :
  length (requests_of (fst (main lim fs transform predict repr chat))) <= 5.
Proof.
  unfold main. rewrite !fst_iobind. cbn [emit fst snd].
  rewrite !requests_of_app. cbn [requests_of flat_map app].
  pose proof (for_actions_requests ACTIONS []) as Hloop.
  change (length ACTIONS) with 4 in Hloop.
  destruct (snd (for_actions lim fs transform predict repr chat ACTIONS []))
    as [history | e].
  2:{ rewrite length_app. change (requests_of []) with (@nil request).
      cbn [length]. lia. }
  repeat (rewrite fst_iobind; cbn [emit fst snd app]).
  rewrite !requests_of_app, !length_app.
  destruct history as [| l history'].
  - cbn [ret fst snd]. split_trace.
    change (requests_of []) with (@nil request). cbn [length]. lia.
  - repeat (rewrite fst_iobind; cbn [emit fst snd app]).
    rewrite llm_temporal_reasoning_trace. split_trace.
    destruct (snd (llm_temporal_reasoning lim repr chat (l :: history')));
      repeat (rewrite fst_iobind; cbn [emit fst snd app]); split_trace;
      repeat match goal with
      | |- context [match ?r with Ok _ => _ | Raise _ => _ end] => destruct r
      end;
      split_trace; change (requests_of []) with (@nil request); cbn [length]; lia.
Qed.

(** *** The labels of the requests *)

Lemma label_at_in_roster (k : Z) (l : str) :
  label_at IDX_TO_LABEL k = Ok l -> In l ACTIONS.
Proof.
  change IDX_TO_LABEL with
    [ (0%Z, lit "open_door"); (1%Z, lit "pick_book");
      (2%Z, lit "pour_water"); (3%Z, lit "walk_stop") ].
  cbn [label_at].
  repeat match goal with
  | |- context [(?i =? k)%Z] =>
      destruct (i =? k)%Z; [ intros [= <-]; cbn; tauto |]
  end.
  discriminate.
Qed.

Lemma majority_vote_label (frame_preds : list Z) (vote : str * dict) :
  majority_vote frame_preds = Ok vote -> In (fst vote) ACTIONS.
Proof.
  unfold majority_vote.
  destruct (np_unique_counts frame_preds) as [unique counts].
  destruct (count_labels _ _) as [count_dict |]; cbn [bind]; [| discriminate ].
  destruct (np_argmax counts) as [i |]; cbn [bind]; [| discriminate ].
  destruct (item unique i) as [majority_idx |]; cbn [bind]; [| discriminate ].
  destruct (label_at IDX_TO_LABEL majority_idx) as [label |] eqn:El; cbn [bind];
    [| discriminate ].
  intros [= <-]. exact (label_at_in_roster _ _ El).
Qed.

(** A label that [classify_video] returns is a label of the roster. *)
Lemma classify_video_label (action_name : str) (l : str) (counts : dict) :
  snd (classify_video lim fs transform predict action_name)
  = Ok (Some l, counts) ->
  In l ACTIONS.
Proof.
  unfold classify_video. destruct (fs _) as [dir |]; [| discriminate ].
  destruct (sorted _) as [| f files]; [ discriminate |].
  rewrite !snd_iobind. cbn [lift snd].
  destruct (load_features lim dir (f :: files)); [| discriminate ].
  rewrite snd_iobind. cbn [lift snd].
  destruct (np_stack _); [| discriminate ].
  rewrite snd_iobind. cbn [lift snd].
  destruct (majority_vote _) as [vote |] eqn:Ev; [| discriminate ].
  cbn [ret snd]. intros [= <- _]. exact (majority_vote_label _ _ Ev).
Qed.

(** Each label of the roster has its hint in [ACTION_HINTS]. *)
Lemma roster_hint (l : str) :
  In l ACTIONS ->
  exists hint, In (l, hint) ACTION_HINTS /\ single_request l = SinglePrompt l hint.
Proof.
  intros H. cbn in H.
  repeat (destruct H as [<- | H];
          [ eexists; split; [| reflexivity ]; cbn; tauto |]).
  contradiction.
Qed.

Lemma requests_iobind A B (P : request -> Prop) (m : io A) (k : A -> io B) :
  Forall P (requests_of (fst m)) ->
  (forall a, snd m = Ok a -> Forall P (requests_of (fst (k a)))) ->
  Forall P (requests_of (fst (iobind m k))).
Proof.
  intros Hm Hk. rewrite fst_iobind, requests_of_app.
  apply Forall_app. split; [ exact Hm |].
  destruct (snd m) as [a | e]; [ now apply Hk | constructor ].
Qed.

Lemma requests_silent A (P : request -> Prop) (m : io A) :
  requests_of (fst m) = [] -> Forall P (requests_of (fst m)).
Proof. intros ->. constructor. Qed.

(** The loop only asks about labels of the roster, and only adds such
    labels to the history. *)
Lemma for_actions_labels (actions history : list str) :
  Forall (fun l => In l ACTIONS) history ->
  Forall about_roster
    (requests_of
       (fst (for_actions lim fs transform predict repr chat actions history)))
  /\ forall history',
       snd (for_actions lim fs transform predict repr chat actions history)
       = Ok history' ->
       Forall (fun l => In l ACTIONS) history'.
Proof.
  revert history. induction actions as [| a rest IH]; intros history Hh.
  { split; [ constructor | now intros history' [= <-] ]. }
  cbn [for_actions]. split.
  - apply requests_iobind; [ now apply requests_silent | intros _ _ ].
    apply requests_iobind; [ apply requests_silent, classify_video_silent |].
    intros [[l |] counts] Hc.
    + pose proof (classify_video_label _ _ _ Hc) as Hl.
      assert (Hh' : Forall (fun l => In l ACTIONS) (history ++ [l])).
      { apply Forall_app.
        split; [ exact Hh | constructor; [ exact Hl | constructor ] ]. }
      apply requests_iobind; [ now apply requests_silent | intros _ _ ].
      apply requests_iobind; [ now apply requests_silent | intros _ _ ].
      apply requests_iobind.
      { rewrite llm_reasoning_trace. cbn [requests_of flat_map app].
        constructor; [| constructor ]. left. now exists l. }
      intros reasoning _.
      apply requests_iobind; [ now apply requests_silent | intros _ _ ].
      apply requests_iobind; [ now apply requests_silent | intros _ _ ].
      apply requests_iobind; [ now apply requests_silent | intros _ _ ].
      now apply IH.
    + apply requests_iobind; [ now apply requests_silent | intros _ _ ].
      now apply IH.
  - intros history'. rewrite !snd_iobind. cbn [emit snd].
    destruct (snd (classify_video lim fs transform predict a))
      as [[[l |] counts] | e] eqn:Hc; [ | | discriminate ].
    + pose proof (classify_video_label _ _ _ Hc) as Hl.
      assert (Hh' : Forall (fun l => In l ACTIONS) (history ++ [l])).
      { apply Forall_app.
        split; [ exact Hh | constructor; [ exact Hl | constructor ] ]. }
      repeat (rewrite snd_iobind; cbn [emit snd]).
      destruct (snd (llm_reasoning lim repr chat l)); [| discriminate ].
      repeat (rewrite snd_iobind; cbn [emit snd]).
      now apply IH.
    + repeat (rewrite snd_iobind; cbn [emit snd]). now apply IH.
Qed.

(** X30.  Whatever the store holds and whatever the classifier predicts,
    every request of a run is about the roster: a per-action request is
    for one of the four labels and carries the hint that [ACTION_HINTS]
    holds for it, and the temporal request is over a history, not empty,
    of labels of the roster. *)
Theorem main_requests_about_roster :
  Forall (fun req =>
            (exists l hint,
                In l ACTIONS /\ In (l, hint) ACTION_HINTS
                /\ req = SinglePrompt l hint)
            \/ (exists history,
                  history <> [] /\ Forall (fun l => In l ACTIONS) history
                  /\ req = temporal_request history))
    (requests_of (fst (main lim fs transform predict repr chat))).
Proof.
  apply Forall_impl with (P := about_roster).
  { intros req [[l [Hl ->]] | H]; [ left | right; exact H ].
    destruct (roster_hint l Hl) as [hint [Hin Heq]]. now exists l, hint. }
  destruct (for_actions_labels ACTIONS [] (Forall_nil _)) as [Hreq Hhist].
  unfold main.
  apply requests_iobind; [ now apply requests_silent | intros _ _ ].
  apply requests_iobind; [ exact Hreq | intros history Hrun ].
  apply requests_iobind; [| intros _ _; now apply requests_silent ].
  destruct history as [| l history']; [ now apply requests_silent |].
  apply requests_iobind; [ now apply requests_silent | intros _ _ ].
  apply requests_iobind.
  - rewrite llm_temporal_reasoning_trace. cbn [requests_of flat_map app].
    constructor; [| constructor ]. right.
    exists (l :: history'). split; [ discriminate |]. split; [| reflexivity ].
    now apply Hhist.
  - intros temporal_result _.
    apply requests_iobind;
      [ now apply requests_silent | intros _ _; now apply requests_silent ].
Qed.

(** *** A request that fails *)

Lemma stops_silent A (m : io A) :
  requests_of (fst m) = [] -> stops_at_failure chat m.
Proof.
  intros H before req after e Hr _. rewrite H in Hr.
  now destruct before.
Qed.

Lemma stops_bind A B (m : io A) (k : A -> io B) :
  stops_at_failure chat m -> (forall a, stops_at_failure chat (k a)) ->
  stops_at_failure chat (iobind m k).
Proof.
  intros Hm Hk before req after e.
  rewrite fst_iobind, snd_iobind, requests_of_app.
  destruct m as [tr [a | e']]; cbn [fst snd].
  - intros Hr He. apply app_eq_app in Hr.
    destruct Hr as [l [[Hb Ha] | [Hb Ha]]].
    + destruct l as [| x l'].
      * cbn in Ha. symmetry in Ha. exact (Hk a [] req after e Ha He).
      * cbn in Ha. injection Ha as Hx Ha. subst x.
        destruct (Hm before req l' e Hb He) as [_ H]. discriminate H.
    + exact (Hk a l req after e Ha He).
  - change (requests_of []) with (@nil request). rewrite app_nil_r.
    intros Hr He. destruct (Hm before req after e Hr He) as [Ha H].
    cbn in H. injection H as ->. now split.
Qed.

Lemma stops_request A (req : request) (k : option str -> result A) :
  stops_at_failure chat
    (emit (Sent req) ;;; response <~ lift (chat req) ;; lift (k response)).
Proof.
  intros before r after e.
  rewrite !fst_iobind, !snd_iobind. cbn [emit lift fst snd app].
  destruct (chat req) as [content | e'] eqn:Ec; cbn [requests_of flat_map app].
  - intros Hr He.
    destruct before as [| b before']; [| destruct before'; discriminate Hr ].
    injection Hr as <- <-. congruence.
  - intros Hr He.
    destruct before as [| b before']; [| destruct before'; discriminate Hr ].
    injection Hr as <- <-. split; [ reflexivity | congruence ].
Qed.

Lemma stops_for_actions (actions history : list str) :
  stops_at_failure chat
    (for_actions lim fs transform predict repr chat actions history).
Proof.
  revert history. induction actions as [| a rest IH]; intros history.
  { now apply stops_silent. }
  cbn [for_actions].
  apply stops_bind; [ now apply stops_silent | intros _ ].
  apply stops_bind; [ apply stops_silent, classify_video_silent |].
  intros [[l |] counts].
  - apply stops_bind; [ now apply stops_silent | intros _ ].
    apply stops_bind; [ now apply stops_silent | intros _ ].
    apply stops_bind; [ apply stops_request | intros reasoning ].
    apply stops_bind; [ now apply stops_silent | intros _ ].
    apply stops_bind; [ now apply stops_silent | intros _ ].
    apply stops_bind; [ now apply stops_silent | intros _ ].
    apply IH.
  - apply stops_bind; [ now apply stops_silent | intros _ ].
    apply IH.
Qed.

(** X26.  A request on which the chat service raises is the last request of
    the run, and the run raises that exception: no later action is reasoned
    about and no temporal request follows. *)
Theorem main_stops_at_failed_request (before after : list request)
  (req : request) (e : exn) :
  requests_of (fst (main lim fs transform predict repr chat))
  = before ++ req :: after ->
  chat req = Raise e ->
  after = [] /\ snd (main lim fs transform predict repr chat) = Raise e.
Proof.
  revert before req after e.
  change (stops_at_failure chat (main lim fs transform predict repr chat)).
  unfold main.
  apply stops_bind; [ now apply stops_silent | intros _ ].
  apply stops_bind; [ apply stops_for_actions | intros history ].
  apply stops_bind; [| intros _; now apply stops_silent ].
  destruct history as [| l history']; [ now apply stops_silent |].
  apply stops_bind; [ now apply stops_silent | intros _ ].
  apply stops_bind; [| intros temporal_result ].
  - unfold llm_temporal_reasoning. apply stops_request.
  - apply stops_bind; [ now apply stops_silent | intros _; now apply stops_silent ].
Qed.

End Bound.

Lemma main_stops_at_failed_request_witness :
  @nil request = [] /\
  snd (main cpython example_store example_transform example_predict no_repr failing_chat)
  = Raise APIError.
Proof.
  apply (main_stops_at_failed_request cpython example_store example_transform
           example_predict no_repr failing_chat [] []
           (single_request (lit "open_door")) APIError).
  - vm_compute. reflexivity.
  - reflexivity.
Defined.

End TraceFacts.

(** ** The script that tests on new videos *)

Module TesterFacts.

Import Agent AgentFacts Dataset DatasetFacts Pipeline PipelineFacts.
Import EncoderFacts StoreFacts Clip VoteFacts.
Import Tester.


(** *** [Counter] *)

Lemma Counter_snoc (l : list Z) (x : Z) :
  Counter (l ++ [x]) = counter_add (Counter l) x.
Proof. unfold Counter. now rewrite fold_left_app. Qed.

Lemma counter_add_keys (c : list (Z * nat)) (x : Z) :
  map fst (counter_add c x)
  = if in_dec Z.eq_dec x (map fst c) then map fst c else map fst c ++ [x].
Proof.
  induction c as [| [k n] c IH]; cbn [counter_add map fst]; [ reflexivity |].
  destruct (Z.eqb_spec k x) as [-> | Hk].
  - cbn [map fst]. destruct (in_dec Z.eq_dec x (x :: map fst c)) as [_ | H];
      [ reflexivity | destruct H; now left ].
  - cbn [map fst]. rewrite IH.
    destruct (in_dec Z.eq_dec x (map fst c)) as [Hin | Hout];
      destruct (in_dec Z.eq_dec x (k :: map fst c)) as [Hin' | Hout'];
      try reflexivity.
    + destruct Hout'. now right.
    + destruct Hin' as [E | Hin']; [ congruence | contradiction ].
Qed.

Lemma counter_add_in (c : list (Z * nat)) (x k : Z) (n : nat) :
  NoDup (map fst c) ->
  (In (k, n) (counter_add c x)
   <-> (k <> x /\ In (k, n) c)
       \/ (k = x /\ ((exists n', n = S n' /\ In (x, n') c)
                     \/ (n = 1 /\ ~ In x (map fst c))))).
Proof.
  induction c as [| [k' n'] c IH]; cbn [counter_add map fst]; intros Hn.
  - cbn. split.
    + intros [[= <- <-] | []]. right. split; [ reflexivity |]. right. tauto.
    + intros [[_ []] | [-> [(m & _ & []) | [-> _]]]]. now left.
  - apply NoDup_cons_iff in Hn. destruct Hn as [Hk' Hn]. specialize (IH Hn).
    destruct (Z.eqb_spec k' x) as [-> | Hne].
    + cbn [In]. split.
      * intros [[= <- <-] | Hin].
        -- right. split; [ reflexivity |]. left. exists n'. split; [ reflexivity | now left ].
        -- left. split; [| now right ].
           intros ->. apply Hk'. apply in_map_iff. now exists (x, n).
      * intros [[Hkx [[= -> ->] | Hin]] | [-> [(m & -> & [[= ->] | Hin]) | [-> Hout]]]].
        -- congruence.
        -- now right.
        -- now left.
        -- destruct Hk'. apply in_map_iff. now exists (x, m).
        -- destruct Hout. now left.
    + cbn [In]. rewrite IH. split.
      * intros [[= <- <-] | [[Hkx Hin] | [-> [(m & -> & Hin) | [-> Hout]]]]].
        -- left. split; [ exact Hne | now left ].
        -- left. split; [ exact Hkx | now right ].
        -- right. split; [ reflexivity |]. left. exists m. split; [ reflexivity | now right ].
        -- right. split; [ reflexivity |]. right. split; [ reflexivity |].
           intros [E | H]; [ congruence | contradiction ].
      * intros [[Hkx [[= -> ->] | Hin]] | [-> [(m & -> & [[= E _] | Hin]) | [-> Hout]]]].
        -- now left.
        -- right. left. now split.
        -- congruence.
        -- right. right. split; [ reflexivity |]. left. now exists m.
        -- right. right. split; [ reflexivity |]. right. split; [ reflexivity |].
           intros H. apply Hout. now right.
Qed.

(** The keys of a [Counter] are distinct, and each comes with the number
    of its occurrences. *)
Lemma Counter_entries (l : list Z) :
  NoDup (map fst (Counter l)) /\
  forall k n, In (k, n) (Counter l) <-> (n = count l k /\ 0 < n).
Proof.
  induction l as [| x l [IHn IHc]] using rev_ind.
  - split; [ constructor |]. intros k n. cbn. split; [ tauto | lia ].
  - rewrite Counter_snoc. split.
    + rewrite counter_add_keys. destruct (in_dec Z.eq_dec x (map fst (Counter l)));
        [ exact IHn |].
      apply NoDup_app; [ exact IHn | repeat constructor; tauto |].
      intros k Hk [<- | []]. contradiction.
    + intros k n. rewrite (counter_add_in _ x k n IHn).
      unfold count in *. rewrite count_occ_app. cbn [count_occ].
      assert (Hkey : forall k', In k' (map fst (Counter l)) <-> 0 < count_occ Z.eq_dec l k').
      { intros k'. split.
        - intros H. apply in_map_iff in H. destruct H as ([k0 n0] & <- & H).
          apply IHc in H. cbn. lia.
        - intros H. apply in_map_iff. exists (k', count_occ Z.eq_dec l k').
          split; [ reflexivity |]. apply IHc. now split. }
      destruct (Z.eq_dec x k) as [-> | Hxk].
      * split.
        -- intros [[H _] | [_ [(m & -> & Hin) | [-> Hout]]]]; [ congruence | |].
           ++ apply IHc in Hin. lia.
           ++ rewrite Hkey in Hout. lia.
        -- intros [-> _]. right. split; [ reflexivity |].
           destruct (count_occ Z.eq_dec l k) as [| m] eqn:E.
           ++ right. split; [ reflexivity |]. rewrite Hkey. lia.
           ++ left. exists (S m). split; [ lia |]. apply IHc. lia.
      * rewrite IHc. split.
        -- intros [[_ H] | [E _]]; [ lia | congruence ].
        -- intros H. left. split; [ congruence | lia ].
Qed.

Lemma Counter_keys (l : list Z) (k : Z) :
  In k (map fst (Counter l)) <-> In k l.
Proof.
  destruct (Counter_entries l) as [_ Hc]. rewrite (count_occ_In Z.eq_dec l k).
  split.
  - intros H. apply in_map_iff in H. destruct H as ([k0 n0] & <- & H).
    apply Hc in H. unfold count in H. cbn. lia.
  - intros H. apply in_map_iff. exists (k, count l k).
    split; [ reflexivity |]. apply Hc. unfold count. lia.
Qed.

(** The keys of a [Counter] stand in the order of their first
    occurrences: a key that comes later does not occur before the key that
    comes earlier. *)
Lemma Counter_order (l : list Z) (K1 K2 : list Z) (ki kj : Z) :
  map fst (Counter l) = K1 ++ ki :: K2 -> In kj K2 ->
  exists a b, l = a ++ ki :: b /\ ~ In kj a.
Proof.
  revert K1 K2. induction l as [| x l IH] using rev_ind; intros K1 K2 HK Hj.
  { destruct K1; discriminate HK. }
  rewrite Counter_snoc, counter_add_keys in HK.
  destruct (in_dec Z.eq_dec x (map fst (Counter l))) as [Hin | Hout].
  - destruct (IH K1 K2 HK Hj) as (a & b & -> & Ha).
    exists a, (b ++ [x]). split; [ now rewrite <- app_assoc | exact Ha ].
  - destruct (exists_last (l := K2)) as (K2' & y & ->).
    { intros ->. destruct Hj. }
    replace (K1 ++ ki :: K2' ++ [y]) with ((K1 ++ ki :: K2') ++ [y]) in HK
      by (now rewrite <- app_assoc).
    apply app_inj_tail in HK. destruct HK as [HK <-].
    apply in_app_or in Hj. destruct Hj as [Hj | [<- | []]].
    + destruct (IH K1 K2' HK Hj) as (a & b & -> & Ha).
      exists a, (b ++ [x]). split; [ now rewrite <- app_assoc | exact Ha ].
    + assert (Hki : In ki l).
      { apply Counter_keys. rewrite HK. apply in_elt. }
      destruct (in_split ki l Hki) as (a & b & ->).
      exists a, (b ++ [x]). split; [ now rewrite <- app_assoc |].
      intros Hx. apply Hout, Counter_keys, in_or_app. now left.
Qed.

(** [max] keeps the first of the items with the largest count. *)
Lemma max_by_count_spec (items : list (Z * nat)) (best : Z * nat) :
  (forall item, In item (best :: items) ->
     snd item <= snd (max_by_count best items)) /\
  exists c1 c2,
    best :: items = c1 ++ max_by_count best items :: c2 /\
    forall item, In item c1 -> snd item < snd (max_by_count best items).
Proof.
  revert best. induction items as [| it items IH]; intros best; cbn [max_by_count].
  - split; [ intros item [<- | []]; lia |].
    exists [], []. split; [ reflexivity | intros item [] ].
  - destruct (snd best <? snd it) eqn:E.
    + apply Nat.ltb_lt in E. destruct (IH it) as (Hall & c1 & c2 & Hs & Hc1).
      pose proof (Hall it (or_introl eq_refl)) as Hit. split.
      * intros item [<- | Hin]; [ lia | now apply Hall ].
      * exists (best :: c1), c2. split; [ cbn [app]; now rewrite <- Hs |].
        intros item [<- | Hin]; [ lia | now apply Hc1 ].
    + apply Nat.ltb_ge in E. destruct (IH best) as (Hall & c1 & c2 & Hs & Hc1).
      pose proof (Hall best (or_introl eq_refl)) as Hb. split.
      * intros item [<- | [<- | Hin]]; [ exact Hb | lia |].
        apply Hall. now right.
      * destruct c1 as [| b c1'].
        -- cbn [app] in Hs. injection Hs as Hr Hc2.
           exists [], (it :: items). split. { cbn [app]. now f_equal. }
           intros item [].
        -- cbn [app] in Hs. injection Hs as <- Hitems.
           exists (best :: it :: c1'), c2.
           split; [ cbn [app]; do 2 f_equal; exact Hitems |].
           pose proof (Hc1 best (or_introl eq_refl)) as Hlt.
           intros item [<- | [<- | Hin]]; [ exact Hlt | lia |].
           apply Hc1. now right.
Qed.

Lemma first_occurrence (l : list Z) (x : Z) :
  In x l -> exists a b, l = a ++ x :: b /\ ~ In x a.
Proof.
  induction l as [| y l IH]; [ intros [] |]. intros Hin.
  destruct (Z.eq_dec y x) as [-> | Hne].
  - exists [], l. split; [ reflexivity | intros [] ].
  - destruct Hin as [E | Hin]; [ congruence |].
    destruct (IH Hin) as (a & b & -> & Ha).
    exists (y :: a), b. split; [ reflexivity |].
    intros [E | H]; [ congruence | contradiction ].
Qed.

Lemma first_occurrence_prefix (a b a' b' : list Z) (x : Z) :
  a ++ x :: b = a' ++ x :: b' -> ~ In x a -> exists t, a' = a ++ t.
Proof.
  intros H Ha. apply app_eq_app in H.
  destruct H as [l [[H1 H2] | [H1 H2]]].
  - destruct l as [| y l'].
    + exists []. now rewrite H1, !app_nil_r.
    + cbn in H2. injection H2 as <- _. destruct Ha. rewrite H1.
      apply in_elt.
  - now exists l.
Qed.

(** The vote of the script: the action that it prints is the label of an
    index with the largest number of frames, and among the indices with
    that number, the one that is predicted first. *)
Lemma most_common_first (preds : list Z) :
  preds <> [] ->
  exists m before after,
    first_item (most_common_1 (Counter preds)) = Ok (m, count preds m) /\
    preds = before ++ m :: after /\ ~ In m before /\
    (forall k, count preds k <= count preds m) /\
    (forall k, In k before -> count preds k < count preds m).
Proof.
  intros Hne. destruct (Counter_entries preds) as [Hnd Hc].
  destruct (Counter preds) as [| it items] eqn:EC.
  { destruct preds as [| x preds']; [ congruence |].
    assert (H : In x (map fst (Counter (x :: preds'))))
      by (apply Counter_keys; now left).
    rewrite EC in H. destruct H. }
  cbn [most_common_1 first_item].
  destruct (max_by_count_spec items it) as (Hall & c1 & c2 & Hs & Hc1).
  destruct (max_by_count it items) as [m n] eqn:Er. cbn [snd] in *.
  assert (Hm : n = count preds m /\ 0 < n).
  { apply Hc. rewrite Hs. apply in_elt. }
  destruct Hm as [-> Hpos].
  assert (Hin : In m preds)
    by (apply (count_occ_In Z.eq_dec); unfold count in Hpos; lia).
  destruct (first_occurrence preds m Hin) as (before & after & Hsplit & Hfirst).
  exists m, before, after.
  assert (Hkey : forall k, In k preds -> In (k, count preds k) (it :: items)).
  { intros k Hk. apply Hc. split; [ reflexivity |].
    apply (count_occ_In Z.eq_dec) in Hk. unfold count. lia. }
  repeat split; trivial.
  - intros k. destruct (Nat.eq_dec (count preds k) 0) as [-> | Hk]; [ lia |].
    assert (Hk' : In k preds)
      by (apply (count_occ_In Z.eq_dec); unfold count in Hk; lia).
    exact (Hall _ (Hkey k Hk')).
  - intros k Hk.
    assert (Hk' : In k preds) by (rewrite Hsplit; apply in_or_app; now left).
    pose proof (Hkey k Hk') as Hitem. rewrite Hs in Hitem.
    apply in_app_or in Hitem. destruct Hitem as [H1 | [[= -> _] | H2]].
    + exact (Hc1 _ H1).
    + contradiction.
    + exfalso.
      assert (HK : map fst (Counter preds)
                   = map fst c1 ++ m :: map fst c2).
      { rewrite EC, Hs, map_app. reflexivity. }
      destruct (Counter_order preds _ _ m k HK) as (a & b & Hab & Ha).
      { apply in_map_iff. now exists (k, count preds k). }
      rewrite Hsplit in Hab.
      destruct (first_occurrence_prefix _ _ _ _ _ Hab Hfirst) as [t ->].
      apply Ha, in_or_app. now left.
Qed.



(** On a tie the two differ: of the frames 1, 0, 1, 0 the script makes
    pick_book and the pipeline open_door. *)
Example tie_between_scripts :
  (top <- first_item (most_common_1 (Counter [1; 0; 1; 0]%Z)) ;;
   label_at label_map (fst top)) = Ok (lit "pick_book") /\
  (vote <- majority_vote [1; 0; 1; 0]%Z ;; Ok (fst vote)) = Ok (lit "open_door").
Proof. split; reflexivity. Qed.

Lemma dict_get_set (d : dict) (k k' : str) (v : pyval) :
  dict_get (dict_set d k v) k' = if str_eqb k k' then Some v else dict_get d k'.
Proof.
  induction d as [| [k0 v0] d IH]; cbn [dict_set dict_get]; [ reflexivity |].
  destruct (str_eqb k0 k) eqn:E0.
  - apply str_eqb_eq in E0. subst k0. cbn [dict_get].
    now destruct (str_eqb k k').
  - cbn [dict_get]. destruct (str_eqb k0 k') eqn:E1; [| exact IH ].
    apply str_eqb_eq in E1. subst k0.
    destruct (str_eqb k k') eqn:E2; [| reflexivity ].
    apply str_eqb_eq in E2. subst k'.
    assert (str_eqb k k = true) by now apply str_eqb_eq. congruence.
Qed.

Lemma label_of_inj (j k : Z) :
  in_roster j -> in_roster k -> label_of j = label_of k -> j = k.
Proof.
  unfold in_roster. intros Hj Hk.
  assert (j = 0 \/ j = 1 \/ j = 2 \/ j = 3)%Z as [-> | [-> | [-> | ->]]] by lia;
    assert (k = 0 \/ k = 1 \/ k = 2 \/ k = 3)%Z as [-> | [-> | [-> | ->]]] by lia;
    intros H; try reflexivity; vm_compute in H; discriminate H.
Qed.

(** The counts that the script prints, label by label. *)
Lemma label_counts_get (items : list (Z * nat)) (acc : dict) :
  Forall in_roster (map fst items) -> NoDup (map fst items) ->
  exists counts,
    label_counts items acc = Ok counts /\
    forall j, in_roster j ->
      dict_get counts (label_of j)
      = match find (fun p => (fst p =? j)%Z) items with
        | Some p => Some (PInt (Z.of_nat (snd p)))
        | None => dict_get acc (label_of j)
        end.
Proof.
  revert acc. induction items as [| [k v] items IH]; intros acc Hr Hn.
  { exists acc. split; [ reflexivity | reflexivity ]. }
  cbn [map fst] in Hr, Hn.
  apply Forall_cons_iff in Hr. destruct Hr as [Hk Hr].
  apply NoDup_cons_iff in Hn. destruct Hn as [Hfresh Hn].
  cbn [label_counts].
  change label_map with IDX_TO_LABEL. rewrite (label_at_roster k Hk). cbn [bind].
  destruct (IH (dict_set acc (label_of k) (PInt (Z.of_nat v))) Hr Hn)
    as (counts & Hc & Hget).
  exists counts. split; [ exact Hc |]. intros j Hj. rewrite (Hget j Hj).
  cbn [find fst]. destruct (Z.eqb_spec k j) as [<- | Hkj].
  - assert (Hnone : find (fun p => (fst p =? k)%Z) items = None).
    { destruct (find _ items) as [p |] eqn:Ef; [| reflexivity ].
      apply find_some in Ef. destruct Ef as [Hin Hp].
      apply Z.eqb_eq in Hp. destruct Hfresh. rewrite <- Hp. now apply in_map. }
    rewrite Hnone, dict_get_set.
    assert (str_eqb (label_of k) (label_of k) = true) as -> by now apply str_eqb_eq.
    reflexivity.
  - destruct (find _ items); [ reflexivity |].
    rewrite dict_get_set. destruct (str_eqb (label_of k) (label_of j)) eqn:E;
      [| reflexivity ].
    apply str_eqb_eq in E. destruct Hkj. now apply label_of_inj.
Qed.

Lemma Counter_find (l : list Z) (j : Z) :
  find (fun p => (fst p =? j)%Z) (Counter l)
  = if 0 <? count l j then Some (j, count l j) else None.
Proof.
  destruct (Counter_entries l) as [_ Hc].
  destruct (find _ (Counter l)) as [[k n] |] eqn:Ef.
  - apply find_some in Ef. destruct Ef as [Hin Hk]. cbn in Hk.
    apply Z.eqb_eq in Hk. subst k. apply Hc in Hin. destruct Hin as [-> Hpos].
    apply Nat.ltb_lt in Hpos. now rewrite Hpos.
  - destruct (0 <? count l j) eqn:E; [| reflexivity ].
    apply Nat.ltb_lt in E.
    assert (Hin : In (j, count l j) (Counter l)) by (apply Hc; now split).
    apply (find_none _ _ Ef) in Hin. cbn in Hin. now rewrite Z.eqb_refl in Hin.
Qed.

Section ScriptFacts.

Variable lim : limits.
Variable fs : str -> option folder.
Variable transform : list (list float32) -> list (list float32).
Variable predict : list (list float32) -> list Z.

(** The script encodes a frame as the pipeline does. *)
Lemma load_frames_features (dir : folder) (files : list str) :
  load_frames lim dir files = load_features lim dir files.
Proof.
  induction files as [| f files IH]; [ reflexivity |].
  cbn [load_frames load_features]. now rewrite IH.
Qed.

(** X28.  A clip on which one label has more frames than every other: the
    script prints the label that [classify_video] returns, and for each
    label the count that [classify_video] returns for it. *)
Theorem tester_agrees_with_pipeline
  (action : str) (rest : list str) (preds : list Z) (k : Z) :
  frame_predictions lim fs transform predict action = Some preds ->
  Forall in_roster preds ->
  (forall j, j <> k -> count preds j < count preds k) ->
  exists line counts,
    for_actions lim fs transform predict (action :: rest)
    = after_events
        [ Print line;
          Print (lit "  Majority prediction: " ++ label_of k);
          PrintCounts (lit "  Frame label counts: ") counts ]
        (for_actions lim fs transform predict rest) /\
    (forall j, in_roster j ->
       dict_get counts (label_of j) = dict_get (tally preds) (label_of j)) /\
    classify_video lim fs transform predict action
    = ([], Ok (Some (label_of k), tally preds)).
Proof.
  intros Hp Hl Hk.
  assert (Hne : preds <> []).
  { intros ->. specialize (Hk (k + 1)%Z). cbn in Hk. lia. }
  (* the votes *)
  destruct (most_common_first preds Hne)
    as (m & before & after & Htop & Hsplit & _ & Hmax & _).
  assert (m = k) as ->.
  { destruct (Z.eq_dec m k) as [E | E]; [ exact E |].
    specialize (Hk m E). specialize (Hmax k). lia. }
  assert (Hkr : in_roster k).
  { rewrite Forall_forall in Hl. apply Hl. rewrite Hsplit. apply in_elt. }
  destruct (majority_vote_spec preds Hne Hl) as (least & Hv & _ & _ & Hmax' & _).
  assert (least = k) as ->.
  { destruct (Z.eq_dec least k) as [E | E]; [ exact E |].
    specialize (Hk least E). specialize (Hmax' k). lia. }
  destruct (Counter_entries preds) as [Hnd _].
  destruct (label_counts_get (Counter preds) []) as (counts & Hcounts & Hget);
    [ | exact Hnd |].
  { apply Forall_forall. intros j Hj. apply (proj1 (Counter_keys _ _)) in Hj.
    rewrite Forall_forall in Hl. now apply Hl. }
  (* the clip *)
  pose proof (classify_video_votes lim fs transform predict _ _ Hp) as Hclip.
  rewrite Hv in Hclip. cbn [fst snd] in Hclip.
  unfold frame_predictions in Hp. cbn [for_actions].
  change NEW_POSE_DIR with Pipeline.NEW_POSE_DIR.
  destruct (fs (path_join Pipeline.NEW_POSE_DIR action)) as [dir |];
    [| discriminate Hp ].
  destruct (sorted (filter is_pose_file (map fst dir))) as [| f files] eqn:Ef;
    [ discriminate Hp |].
  rewrite load_frames_features.
  destruct (load_features lim dir (f :: files)) as [features |];
    cbn [bind] in Hp; [| discriminate Hp ].
  destruct (np_stack features) as [X |] eqn:EX; [| discriminate Hp ].
  injection Hp as <-.
  eexists. exists counts. split; [| split; [| exact Hclip ] ].
  - unfold emit, lift. rewrite !iobind_ok. rewrite EX. rewrite !iobind_ok.
    cbn zeta. rewrite Htop. rewrite !iobind_ok.
    cbn [fst]. change label_map with IDX_TO_LABEL.
    rewrite (label_at_roster k Hkr). rewrite !iobind_ok. rewrite Hcounts.
    rewrite !iobind_ok.
    destruct (for_actions lim fs transform predict rest) as [tr r].
    rewrite !after_events_pair. cbn [app]. reflexivity.
  - intros j Hj. rewrite (Hget j Hj), Counter_find, (tally_get _ j Hj).
    cbn [dict_get]. now destruct (0 <? count (predict (transform X)) j).
Qed.

(** X29.  A folder without pose files stops the script: stacking no rows
    raises [ValueError], where [classify_video] returns no label and goes
    on. *)
Theorem tester_folder_without_pose_files
  (action : str) (rest : list str) (dir : folder) :
  fs (path_join Pipeline.NEW_POSE_DIR action) = Some dir ->
  filter is_pose_file (map fst dir) = [] ->
  for_actions lim fs transform predict (action :: rest)
  = ([ Print (lit "Processing new action video: " ++ action ++ lit " (0 frames)") ],
     Raise ValueError) /\
  classify_video lim fs transform predict action
  = ([ Print (lit "[WARNING] No pose files found in "
              ++ path_join Pipeline.NEW_POSE_DIR action) ],
     Ok (None, [])).
Proof.
  intros Hd Hf. split.
  - cbn [for_actions]. change NEW_POSE_DIR with Pipeline.NEW_POSE_DIR.
    rewrite Hd, Hf. reflexivity.
  - unfold classify_video. rewrite Hd, Hf. reflexivity.
Qed.

End ScriptFacts.

Lemma tester_agrees_with_pipeline_witness :
  exists line counts,
    Tester.for_actions cpython example_store example_transform example_predict
      [lit "open_door"]
    = after_events
        [ Print line;
          Print (lit "  Majority prediction: " ++ label_of 0);
          PrintCounts (lit "  Frame label counts: ") counts ]
        (Tester.for_actions cpython example_store example_transform example_predict []) /\
    (forall j, in_roster j ->
       dict_get counts (label_of j)
       = dict_get (tally [0; 0; 0; 3; 0; 0; 0; 3; 0; 3]%Z) (label_of j)) /\
    classify_video cpython example_store example_transform example_predict
      (lit "open_door")
    = ([], Ok (Some (label_of 0), tally [0; 0; 0; 3; 0; 0; 0; 3; 0; 3]%Z)).
Proof.
  apply (tester_agrees_with_pipeline cpython example_store
           example_transform example_predict (lit "open_door") []
           [0; 0; 0; 3; 0; 0; 0; 3; 0; 3]%Z 0%Z).
  - vm_compute. reflexivity.
  - repeat constructor; unfold in_roster; lia.
  - intros j Hj. destruct (Z.eq_dec j 3) as [-> | H3]; [ vm_compute; lia |].
    assert (H : count [0; 0; 0; 3; 0; 0; 0; 3; 0; 3]%Z j = 0).
    { apply count_occ_not_In. cbn. intuition congruence. }
    rewrite H. vm_compute. lia.
Defined.

Lemma tester_folder_without_pose_files_witness :
  Tester.for_actions cpython example_store example_transform example_predict
    [lit "walk_stop"; lit "open_door"]
  = ([ Print (lit "Processing new action video: " ++ lit "walk_stop"
              ++ lit " (0 frames)") ],
     Raise ValueError) /\
  classify_video cpython example_store example_transform example_predict
    (lit "walk_stop")
  = ([ Print (lit "[WARNING] No pose files found in "
              ++ path_join Pipeline.NEW_POSE_DIR (lit "walk_stop")) ],
     Ok (None, [])).
Proof.
  apply (tester_folder_without_pose_files cpython example_store
           example_transform example_predict (lit "walk_stop") [lit "open_door"]
           [ (lit "README.txt", None) ]); reflexivity.
Defined.

End TesterFacts.
